(** * A verified model of the video gallery script (script.js)

    The development embeds the gallery script shallowly: JavaScript values
    are an inductive type with the language's coercions written out, code
    that can throw lives in a small error monad, the regular expressions of
    the script run on a backtracking matcher with JavaScript's priorities,
    the division and [toFixed] of [formatViews] are computed on binary64
    significands, and the modal player is a transition system over the
    modals and listeners of the document.  Builtins of the runtime whose
    text is not part of the script ([JSON.parse], the conversion of strings
    to numbers) and the network are section variables.

    What the model leaves out: strings are sequences of 8-bit characters
    (the addresses and column labels the script handles are ASCII); the
    numbers are NaN and the integer-valued doubles; the values interpolated
    into markup are plain text; of the alert box the model keeps its
    presence in the document and its message; the cursor trail and the
    sparkles, which draw on [Math.random], are not modelled. *)

From stdpp Require Import gmap strings list pretty.
From Stdlib Require Import ZArith QArith Lia Ascii.

Local Open Scope Z_scope.
Local Set Warnings "-register-all".

(** ** JavaScript values *)

(** Numbers of the model are the integer-valued doubles and NaN: the view
    counts, widths and heights that the endpoints deliver. [Int n] stands
    for the double whose value is the integer [n]; it is exact for
    [|n| <= MAX_SAFE_INTEGER]. *)
Inductive number :=
| NaN
| Int (n : Z).

Definition MAX_SAFE_INTEGER : Z := 2 ^ 53 - 1.

Inductive val :=
| VUndef
| VNull
| VBool (b : bool)
| VNum (x : number)
| VStr (s : string)
| VArr (l : list val)
| VObj (kvs : list (string * val)).

(** ToBoolean *)
Definition truthy (v : val) : bool :=
  match v with
  | VUndef | VNull => false
  | VBool b => b
  | VNum NaN => false
  | VNum (Int n) => negb (n =? 0)
  | VStr s => negb (String.eqb s "")
  | VArr _ | VObj _ => true
  end.

(** [a || b] *)
Definition js_or (a b : val) : val := if truthy a then a else b.

(** Number::toString for the numbers of the model (below 10^21 in absolute
    value the decimal numeral is printed without an exponent). *)
Definition number_to_string (x : number) : string :=
  match x with
  | NaN => "NaN"
  | Int n => pretty n
  end.

Fixpoint join (sep : string) (l : list string) : string :=
  match l with
  | [] => ""
  | [s] => s
  | s :: l' => s +:+ sep +:+ join sep l'
  end.

(** ToString. Arrays print their elements separated by commas, with null and
    undefined elements printed as the empty string; objects parsed from JSON
    have no [toString] of their own. *)
Fixpoint to_string (v : val) : string :=
  match v with
  | VUndef => "undefined"
  | VNull => "null"
  | VBool b => if b then "true" else "false"
  | VNum x => number_to_string x
  | VStr s => s
  | VArr l =>
      join "," (map (fun e => match e with
                              | VUndef | VNull => ""
                              | _ => to_string e
                              end) l)
  | VObj _ => "[object Object]"
  end.

(** ** Errors *)

Inductive error :=
| TypeError (msg : string)
| SyntaxError
| NetworkError
| Error (msg : string).

Inductive result (A : Type) :=
| Ok (a : A)
| Throw (e : error).
Arguments Ok {A} a.
Arguments Throw {A} e.

Global Instance result_ret : MRet result := fun A a => Ok a.
Global Instance result_bind : MBind result := fun A B f m =>
  match m with
  | Ok a => f a
  | Throw e => Throw e
  end.

(** [try { body } catch (e) { handler }] *)
Definition try_catch {A} (body : result A) (handler : error → A) : A :=
  match body with
  | Ok a => a
  | Throw e => handler e
  end.

(** The value of key [k] in the members of an object, undefined when the
    key is not there. *)
Fixpoint assoc (k : string) (kvs : list (string * val)) : val :=
  match kvs with
  | [] => VUndef
  | (k', v) :: kvs' => if String.eqb k k' then v else assoc k kvs'
  end.

(** Property read [v.k] on a parsed JSON value. Reading a property of
    undefined or null throws; primitives have none of the properties the
    script reads, except [length] on strings and arrays. *)
Definition prop (v : val) (k : string) : result val :=
  match v with
  | VUndef => Throw (TypeError "Cannot read properties of undefined")
  | VNull => Throw (TypeError "Cannot read properties of null")
  | VObj kvs => Ok (assoc k kvs)
  | VArr l => Ok (if String.eqb k "length" then VNum (Int (Z.of_nat (length l))) else VUndef)
  | VStr s => Ok (if String.eqb k "length" then VNum (Int (Z.of_nat (String.length s))) else VUndef)
  | VBool _ | VNum _ => Ok VUndef
  end.

(** Optional chaining [v?.k] *)
Definition opt_prop (v : val) (k : string) : val :=
  match v with
  | VUndef | VNull => VUndef
  | _ => try_catch (prop v k) (fun _ => VUndef)
  end.

(** Index read [v[i]] *)
Definition index (v : val) (i : nat) : result val :=
  match v with
  | VUndef => Throw (TypeError "Cannot read properties of undefined")
  | VNull => Throw (TypeError "Cannot read properties of null")
  | VArr l => Ok (default VUndef (l !! i))
  | VStr s => Ok (match String.get i s with
                  | Some c => VStr (String c "")
                  | None => VUndef
                  end)
  | VObj kvs => Ok (assoc (pretty i) kvs)
  | VBool _ | VNum _ => Ok VUndef
  end.

(** ** Doubles: the quotient of two integers and [toFixed(1)] *)

(** A finite binary64 value is [mant * 2 ^ expn]. *)
Record binary64 := B64 { mant : Z; expn : Z }.

(** Rounding of the rational [N / D] to the nearest integer, ties to even. *)
Definition rne (N D : Z) : Z :=
  let q := N / D in
  let r := N mod D in
  if 2 * r <? D then q
  else if D <? 2 * r then q + 1
  else if Z.even q then q else q + 1.

Definition scale_num (a e : Z) : Z := if e <? 0 then a * 2 ^ (- e) else a.
Definition scale_den (b e : Z) : Z := if e <? 0 then b else b * 2 ^ e.

(** IEEE 754 division [a / b] of two positive integers whose quotient is in
    the normal range: the exponent is chosen so that the significand has 53
    bits, and the significand is rounded to nearest, ties to even. *)
Definition div_pos (a b : Z) : binary64 :=
  let e0 := Z.log2 a - Z.log2 b - 53 in
  let e := if 2 ^ 53 <=? scale_num a e0 / scale_den b e0 then e0 + 1 else e0 in
  B64 (rne (scale_num a e) (scale_den b e)) e.

(** Number.prototype.toFixed(1), for [0 <= x < 10^21]: "let n be an integer
    for which n / 10 - x is as close to zero as possible; if there are two
    such n, pick the larger n".  [tenths x] is that n. *)
Definition tenths (x : binary64) : Z :=
  if expn x <? 0
  then (20 * mant x + 2 ^ (- expn x)) / 2 ^ (1 - expn x)
  else 10 * mant x * 2 ^ expn x.

Definition toFixed1 (x : binary64) : string :=
  let n := tenths x in
  pretty (n / 10) +:+ "." +:+ pretty (n mod 10).

(** [s.replace(/\.0$/, '')]: the first position from which the rest of the
    string is [.0] is where the string is cut. *)
Fixpoint replace_dot0_end (s : string) : string :=
  match s with
  | "" => ""
  | String c s' =>
      if Ascii.eqb c "."%char && String.eqb s' "0" then ""
      else String c (replace_dot0_end s')
  end.

(** The numeral with one decimal place for [k] tenths, a trailing [.0] left
    out: what the specification calls one decimal with [.0] stripped. *)
Definition one_decimal (k : Z) : string :=
  if k mod 10 =? 0 then pretty (k / 10)
  else pretty (k / 10) +:+ "." +:+ pretty (k mod 10).

(** ** Lengths

    The layout computes lengths from the aspect ratio in floating point. The
    model keeps the finite values as exact rationals (the rounding of
    doubles is left out here) and has the infinities and NaN that a division
    can produce. *)
Inductive real :=
| RNaN
| RInf (negative : bool)
| RFin (q : Q).

Definition real_of_number (x : number) : real :=
  match x with
  | NaN => RNaN
  | Int n => RFin (inject_Z n)
  end.

Definition Qneg (q : Q) : bool := negb (Qle_bool 0 q).
Definition Qzero (q : Q) : bool := Qeq_bool q 0.

Definition rdiv (a b : real) : real :=
  match a, b with
  | RNaN, _ | _, RNaN => RNaN
  | RInf _, RInf _ => RNaN
  | RInf n, RFin q => RInf (xorb n (Qneg q))
  | RFin p, RInf _ => RFin 0
  | RFin p, RFin q =>
      if Qzero q then (if Qzero p then RNaN else RInf (Qneg p))
      else RFin (p / q)
  end.

Definition rmul (a b : real) : real :=
  match a, b with
  | RNaN, _ | _, RNaN => RNaN
  | RInf n, RInf m => RInf (xorb n m)
  | RInf n, RFin q | RFin q, RInf n => if Qzero q then RNaN else RInf (xorb n (Qneg q))
  | RFin p, RFin q => RFin (p * q)
  end.

Definition radd (a b : real) : real :=
  match a, b with
  | RNaN, _ | _, RNaN => RNaN
  | RInf n, RInf m => if Bool.eqb n m then RInf n else RNaN
  | RInf n, RFin _ | RFin _, RInf n => RInf n
  | RFin p, RFin q => RFin (p + q)
  end.

(** [a < b] *)
Definition rlt (a b : real) : bool :=
  match a, b with
  | RNaN, _ | _, RNaN => false
  | RInf n, RInf m => n && negb m
  | RInf n, RFin _ => n
  | RFin _, RInf m => negb m
  | RFin p, RFin q => negb (Qle_bool q p)
  end.

(** [Math.min(a, b)] *)
Definition rmin (a b : real) : real :=
  match a, b with
  | RNaN, _ | _, RNaN => RNaN
  | _, _ => if rlt b a then b else a
  end.

Definition real_of_Z (n : Z) : real := RFin (inject_Z n).

(** ** Regular expressions *)

(** The script's patterns, matched the way the runtime matches them: by
    backtracking, the alternatives of [|] tried from left to right and the
    quantifiers greedy. The quantified atoms of the script are all character
    classes. There is one capturing group. *)
Inductive regex :=
| Lit (l : list ascii)
| Seq (r1 r2 : regex)
| Alt (r1 r2 : regex)
| Star (p : ascii → bool)
| Plus (p : ascii → bool)
| Opt (r : regex)
| Group (r : regex)
| Eos.

Definition chars (s : string) : list ascii := String.list_ascii_of_string s.
Definition text (l : list ascii) : string := String.string_of_list_ascii l.

(** The value of the capturing group: [None] while it has not matched. *)
Definition capture := option (list ascii).

Fixpoint strip_prefix (l s : list ascii) : option (list ascii) :=
  match l, s with
  | [], _ => Some s
  | a :: l', b :: s' => if Ascii.eqb a b then strip_prefix l' s' else None
  | _ :: _, [] => None
  end.

(** Greedy iteration of a character class: the longest run is tried first,
    then shorter ones, until the continuation [k] accepts. *)
Fixpoint star {A} (p : ascii → bool) (s : list ascii)
    (k : list ascii → option A) : option A :=
  match s with
  | c :: s' =>
      if p c then
        match star p s' k with
        | Some x => Some x
        | None => k s
        end
      else k s
  | [] => k s
  end.

(** [run r s cap k]: match [r] at the front of [s], then continue with [k] on
    the rest of the input; the first success in priority order is the result. *)
Fixpoint run {A} (r : regex) (s : list ascii) (cap : capture)
    (k : list ascii → capture → option A) : option A :=
  match r with
  | Lit l =>
      match strip_prefix l s with
      | Some s' => k s' cap
      | None => None
      end
  | Seq r1 r2 => run r1 s cap (fun s' cap' => run r2 s' cap' k)
  | Alt r1 r2 =>
      match run r1 s cap k with
      | Some x => Some x
      | None => run r2 s cap k
      end
  | Star p => star p s (fun s' => k s' cap)
  | Plus p =>
      match s with
      | c :: s' => if p c then star p s' (fun s'' => k s'' cap) else None
      | [] => None
      end
  | Opt r =>
      match run r s cap k with
      | Some x => Some x
      | None => k s cap
      end
  | Group r =>
      run r s cap (fun s' _ => k s' (Some (take (length s - length s') s)))
  | Eos =>
      match s with
      | [] => k [] cap
      | _ :: _ => None
      end
  end.

(** [s.match(r)] for a pattern without the global flag: the leftmost start
    position at which the pattern matches; the result is the capture. *)
Fixpoint search (r : regex) (s : list ascii) : option capture :=
  match run r s None (fun _ cap => Some cap) with
  | Some cap => Some cap
  | None =>
      match s with
      | [] => None
      | _ :: s' => search r s'
      end
  end.

(** Character classes *)
Definition cls_any (c : ascii) : bool := true.
(** [.] : any character but a line terminator *)
Definition cls_dot (c : ascii) : bool :=
  negb (Ascii.eqb c "010"%char || Ascii.eqb c "013"%char).
(** [[^&?]] *)
Definition cls_not_amp_qm (c : ascii) : bool :=
  negb (Ascii.eqb c "&"%char || Ascii.eqb c "?"%char).
(** [\d] *)
Definition cls_digit (c : ascii) : bool :=
  (48 <=? Z.of_nat (nat_of_ascii c)) && (Z.of_nat (nat_of_ascii c) <=? 57).

(** /(?:youtu\.be\/|youtube\.com\/(?:embed\/|v\/|watch\?v=|watch\?.+&v=))([^&?]+)/ :
    the non-capturing group of markers, then the capturing group. *)
Definition youtube_marker_re : regex :=
  Alt (Lit (chars "youtu.be/"))
      (Seq (Lit (chars "youtube.com/"))
           (Alt (Lit (chars "embed/"))
           (Alt (Lit (chars "v/"))
           (Alt (Lit (chars "watch?v="))
                (Seq (Lit (chars "watch?")) (Seq (Plus cls_dot) (Lit (chars "&v=")))))))).

Definition youtube_re : regex :=
  Seq youtube_marker_re (Group (Plus cls_not_amp_qm)).

(** /(?:vimeo\.com\/)(\d+)/ *)
Definition vimeo_re : regex :=
  Seq (Lit (chars "vimeo.com/")) (Group (Plus cls_digit)).

(** The envelope pattern: the literal [google.visualization.Query.setResponse(],
    the group (any characters, line terminators included, greedy), a closing
    parenthesis, an optional semicolon, and the end of the input. *)
Definition envelope_re : regex :=
  Seq (Lit (chars "google.visualization.Query.setResponse("))
 (Seq (Group (Star cls_any))
 (Seq (Lit (chars ")"))
 (Seq (Opt (Lit (chars ";")))
      Eos))).

(** [s.match(r)] as the script uses it: null when nothing matches, else the
    match array, of which the script reads element 1. Only strings have the
    method. *)
Definition js_match (v : val) (r : regex) : result (option val) :=
  match v with
  | VStr s =>
      Ok (match search r (chars s) with
          | Some (Some g) => Some (VStr (text g))
          | Some None => Some VUndef
          | None => None
          end)
  | VUndef => Throw (TypeError "Cannot read properties of undefined")
  | VNull => Throw (TypeError "Cannot read properties of null")
  | _ => Throw (TypeError "match is not a function")
  end.

(** *** What a pattern matches

    [matches r s rest cap cap'] : the pattern [r] matches the characters [s]
    when [rest] follows them in the input, and takes the capture from [cap]
    to [cap']. This is the declarative reading of a pattern, without the
    priorities of the matcher. *)
Inductive matches : regex → list ascii → list ascii → capture → capture → Prop :=
| matches_Lit l rest cap :
    matches (Lit l) l rest cap cap
| matches_Seq r1 r2 s1 s2 rest c0 c1 c2 :
    matches r1 s1 (s2 ++ rest) c0 c1 →
    matches r2 s2 rest c1 c2 →
    matches (Seq r1 r2) (s1 ++ s2) rest c0 c2
| matches_Alt_l r1 r2 s rest c c' :
    matches r1 s rest c c' → matches (Alt r1 r2) s rest c c'
| matches_Alt_r r1 r2 s rest c c' :
    matches r2 s rest c c' → matches (Alt r1 r2) s rest c c'
| matches_Star p s rest cap :
    Forall (fun c => p c = true) s → matches (Star p) s rest cap cap
| matches_Plus p s rest cap :
    s ≠ [] → Forall (fun c => p c = true) s → matches (Plus p) s rest cap cap
| matches_Opt_some r s rest c c' :
    matches r s rest c c' → matches (Opt r) s rest c c'
| matches_Opt_none r rest cap :
    matches (Opt r) [] rest cap cap
| matches_Group r s rest c c' :
    matches r s rest c c' → matches (Group r) s rest c (Some s)
| matches_Eos cap :
    matches Eos [] [] cap cap.

(** *** The address forms of the specification *)

(** The text is empty or begins with a character outside the class. *)
Definition ends_run (p : ascii → bool) (rest : string) : Prop :=
  rest = "" ∨ ∃ c rest', rest = String c rest' ∧ p c = false.

(** A non-empty run of characters of the class that cannot be extended. *)
Definition longest_run (p : ascii → bool) (id rest : string) : Prop :=
  id ≠ "" ∧ Forall (fun c => p c = true) (chars id) ∧ ends_run p rest.

(** The markers after which a YouTube id stands: [youtu.be/],
    [youtube.com/embed/], [youtube.com/v/], [youtube.com/watch?v=], and
    [youtube.com/watch?...&v=] with at least one character, none of them a
    line terminator, for the dots. *)
Definition youtube_marker (m : string) : Prop :=
  m = "youtu.be/"
  ∨ m = "youtube.com/embed/"
  ∨ m = "youtube.com/v/"
  ∨ m = "youtube.com/watch?v="
  ∨ ∃ mid, mid ≠ "" ∧ Forall (fun c => cls_dot c = true) (chars mid)
           ∧ m = "youtube.com/watch?" +:+ mid +:+ "&v=".

(** The address has a YouTube form with this id: a marker, then the id, the
    longest run of characters up to the next [&] or [?]. *)
Definition youtube_form (url id : string) : Prop :=
  ∃ pre m rest,
    url = pre +:+ m +:+ id +:+ rest
    ∧ youtube_marker m
    ∧ longest_run cls_not_amp_qm id rest.

(** The address has the Vimeo form with this id: [vimeo.com/], then the id,
    the longest run of digits. *)
Definition vimeo_form (url id : string) : Prop :=
  ∃ pre rest,
    url = pre +:+ "vimeo.com/" +:+ id +:+ rest
    ∧ longest_run cls_digit id rest.

(** The string has no decimal point. *)
Definition no_dot (s : string) : Prop := Forall (fun c => c ≠ "."%char) (chars s).

(** ** String methods *)

(** [s.includes(sub)] *)
Fixpoint includes_chars (sub s : list ascii) : bool :=
  match strip_prefix sub s with
  | Some _ => true
  | None =>
      match s with
      | [] => false
      | _ :: s' => includes_chars sub s'
      end
  end.

Definition includes (s sub : string) : bool := includes_chars (chars sub) (chars s).

(** [s.toLowerCase()] on the ASCII letters *)
Definition lower_char (c : ascii) : ascii :=
  let n := nat_of_ascii c in
  if (65 <=? n)%nat && (n <=? 90)%nat then ascii_of_nat (n + 32) else c.

Definition toLowerCase (s : string) : string := text (map lower_char (chars s)).

(** [s.trim()] *)
Fixpoint drop_space (s : list ascii) : list ascii :=
  match s with
  | c :: s' => if Ascii.is_space c then drop_space s' else s
  | [] => []
  end.

Definition trim (s : string) : string :=
  text (rev (drop_space (rev (drop_space (chars s))))).

(** ** A reference runtime

    Concrete builtins on which the model is run: JSON text is produced by
    [stringify], and parsing is its inverse on a given list of documents. *)

Definition quote : string := String "034"%char "".

Fixpoint stringify (v : val) : string :=
  match v with
  | VUndef | VNull => "null"
  | VArr l => "[" +:+ join "," (map stringify l) +:+ "]"
  | VObj kvs =>
      "{" +:+ join "," (map (fun kv : string * val =>
                              quote +:+ kv.1 +:+ quote +:+ ":" +:+ stringify kv.2) kvs) +:+ "}"
  | VStr s => quote +:+ s +:+ quote
  | _ => to_string v
  end.

Fixpoint parse_among (docs : list val) (s : string) : result val :=
  match docs with
  | [] => Throw SyntaxError
  | v :: docs' => if String.eqb (stringify v) s then Ok v else parse_among docs' s
  end.

(** Decimal numerals denote their value, the empty string 0, anything else
    is not a number. *)
Fixpoint digits_value (acc : Z) (s : list ascii) : number :=
  match s with
  | [] => Int acc
  | c :: s' =>
      if cls_digit c
      then digits_value (10 * acc + (Z.of_nat (nat_of_ascii c) - 48)) s'
      else NaN
  end.

Definition decimal_to_number (s : string) : number := digits_value 0 (chars s).

Fixpoint serve (table : list (string * string)) (url : string) : result string :=
  match table with
  | [] => Throw NetworkError
  | (u, body) :: table' => if String.eqb u url then Ok body else serve table' url
  end.

(** ** The runtime's builtins *)

Section Script.

(** StringToNumber of the runtime (the numeric value of a string, NaN when
    the string is no numeric literal). *)
Variable StringToNumber : string → number.

(** [JSON.parse], which throws a SyntaxError on text that is not JSON. *)
Variable JSON_parse : string → result val.

(** The network: the body text that a GET of the address comes back with, or
    the error the request fails with. *)
Variable fetch_text : string → result string.

(** ToNumber; arrays and objects go through their string. *)
Definition ToNumber (v : val) : number :=
  match v with
  | VUndef => NaN
  | VNull => Int 0
  | VBool b => Int (if b then 1 else 0)
  | VNum x => x
  | VStr s => StringToNumber s
  | VArr _ | VObj _ => StringToNumber (to_string v)
  end.

Definition isNaN (v : val) : bool :=
  match ToNumber v with
  | NaN => true
  | Int _ => false
  end.

(** [v >= c] for a numeric constant [c]: false when [v] converts to NaN. *)
Definition js_ge (v : val) (c : Z) : bool :=
  match ToNumber v with
  | NaN => false
  | Int n => c <=? n
  end.

(** [(v / c).toFixed(1)], reached only for [v >= c > 0]. *)
Definition div_toFixed1 (v : val) (c : Z) : string :=
  match ToNumber v with
  | NaN => "NaN"
  | Int n => toFixed1 (div_pos n c)
  end.

(** ** formatViews *)

Definition formatViews (views : val) : string :=
  if negb (truthy views) || isNaN views then "0"
  else if js_ge views 1000000 then
    replace_dot0_end (div_toFixed1 views 1000000) +:+ "M"
  else if js_ge views 1000 then
    replace_dot0_end (div_toFixed1 views 1000) +:+ "K"
  else to_string views.


(** ** Platform resolver *)

Definition getYouTubeId (url : val) : result val :=
  if negb (truthy url) then Ok VNull
  else
    m ← js_match url youtube_re;
    Ok (match m with Some g => g | None => VNull end).

Definition getVimeoId (url : val) : result val :=
  if negb (truthy url) then Ok VNull
  else
    m ← js_match url vimeo_re;
    Ok (match m with Some g => g | None => VNull end).

Inductive platform := youtube | vimeo.

Definition platform_name (p : platform) : string :=
  match p with
  | youtube => "youtube"
  | vimeo => "vimeo"
  end.

Record PlatformRef := { ref_platform : platform; ref_id : val }.

Definition getVideoPlatform (url : val) : result (option PlatformRef) :=
  ytId ← getYouTubeId url;
  if truthy ytId then Ok (Some {| ref_platform := youtube; ref_id := ytId |})
  else
    vimeoId ← getVimeoId url;
    if truthy vimeoId then Ok (Some {| ref_platform := vimeo; ref_id := vimeoId |})
    else Ok None.

(** ** Cards *)

(** A card element of the gallery: its data attributes, what its markup
    shows, its inline style, and what its click handler closed over. The
    values a card interpolates into its markup are taken as plain text. *)
Record card := {
  data_tags : string;
  data_videoUrl : option string;
  data_platform : option string;
  data_videoId : option string;
  thumb_background : string;       (* .video-thumbnail style.background *)
  thumb_icon : option string;      (* the .video-icon span, when present *)
  title_text : string;             (* the h3 *)
  view_count : string;             (* .view-count textContent *)
  style_opacity : string;
  style_transform : string;
  style_transition : string;
  click_url : val;                 (* videoUrl captured by the click handler *)
  click_title : val                (* video.title captured by the click handler *)
}.

Definition FALLBACK_GRADIENTS : list (string * string) :=
  [ ("#ff6b9d", "#c44dff");
    ("#4de1ff", "#4d7cff");
    ("#ffeb4d", "#ff9d4d");
    ("#4dff88", "#4de1ff");
    ("#ff4d88", "#ff4dcd");
    ("#c44dff", "#4d88ff") ].

(** A record built from a spreadsheet row: a JavaScript object used as a map
    from column names to cell values. *)
Definition field (video : gmap string val) (k : string) : val :=
  default VUndef (video !! k).

Definition getThumbnail (videoUrl customThumbnail : val) : result val :=
  if truthy customThumbnail then Ok customThumbnail
  else
    ytId ← getYouTubeId videoUrl;
    if truthy ytId
    then Ok (VStr ("https://img.youtube.com/vi/" +:+ to_string ytId +:+ "/hqdefault.jpg"))
    else Ok VNull.

Definition gradient_background (index : nat) : string :=
  let gradient :=
    default ("undefined", "undefined")
            (FALLBACK_GRADIENTS !! (index mod length FALLBACK_GRADIENTS)%nat) in
  "linear-gradient(135deg, " +:+ gradient.1 +:+ ", " +:+ gradient.2 +:+ ")".

(** [video.videourl || video.videoUrl || ''] *)
Definition video_url (video : gmap string val) : val :=
  js_or (js_or (field video "videourl") (field video "videoUrl")) (VStr "").

Definition createVideoCard (video : gmap string val) (index : nat) : result card :=
  let videoUrl := video_url video in
  platform ← getVideoPlatform videoUrl;
  thumbnail ← getThumbnail videoUrl (field video "thumbnail");
  let initialViews :=
    match platform with
    | Some {| ref_platform := youtube |} => "Loading..."
    | _ => to_string (js_or (field video "views") (VStr "0"))
    end in
  Ok {| data_tags := to_string (js_or (field video "tags") (VStr ""));
        data_videoUrl := if truthy videoUrl then Some (to_string videoUrl) else None;
        data_platform := (fun p => platform_name (ref_platform p)) <$> platform;
        data_videoId := (fun p => to_string (ref_id p)) <$> platform;
        thumb_background :=
          if truthy thumbnail
          then "url('" +:+ to_string thumbnail +:+ "') center/cover"
          else gradient_background index;
        thumb_icon :=
          if truthy (field video "icon") then Some (to_string (field video "icon")) else None;
        title_text := to_string (js_or (field video "title") (VStr "Untitled"));
        view_count := "⭐ " +:+ initialViews +:+ " views";
        style_opacity := "";
        style_transform := "";
        style_transition := "";
        click_url := videoUrl;
        click_title := field video "title" |}.

(** ** The modal player's elements *)

(** A value the script assigned to a style property. *)
Inductive assigned :=
| Text (s : string)
| Pixels (x : real).

(** The inline styles of a modal that [updateLayout] writes. *)
Record styles := {
  content_width : assigned;
  content_maxWidth : assigned;
  content_height : assigned;
  content_maxHeight : assigned;
  content_padding : assigned;
  content_borderRadius : assigned;
  content_border : assigned;
  title_display : assigned;
  title_fontSize : assigned;
  title_marginBottom : assigned;
  close_width : assigned;
  close_height : assigned;
  close_fontSize : assigned;
  close_top : assigned;
  close_right : assigned;
  close_border : assigned;
  wrapper_borderRadius : assigned
}.

(** A [.video-player-modal] element, with the variables its handlers closed
    over ([aspectRatio], [isPortrait]). *)
Record modal := {
  modal_id : nat;
  modal_title : string;
  iframe_src : string;
  wrapper_paddingBottom : real;      (* in percent *)
  aspectRatio : real;
  isPortrait : bool;
  modal_styles : styles
}.

(** A call of [showVideoPlayer] suspended at [await fetchVimeoInfo]. *)
Record suspended := {
  call_videoId : val;
  call_title : val
}.

(** The modals attached to the document in document order, the listeners
    registered on [window] and [document] (each named by the modal whose
    handler it is), the suspended calls, and the viewport. *)
Record player := {
  modals : list modal;
  on_resize : list nat;
  on_orientationchange : list nat;
  on_keydown : list nat;
  awaiting : list suspended;
  innerWidth : Z;
  innerHeight : Z;
  next_id : nat
}.

(** ** The page *)

(** The gallery container's cards, the entrance timers still to fire (delay
    in milliseconds and position of the card), the console, the addresses
    requested so far, and the modal player's part of the document. All cards
    of the document are children of the gallery container. *)
Record page := {
  grid : list card;
  timers : list (nat * nat);
  console : list string;
  requests : list string;
  player_of : player
}.

(** Code that reads and writes the page and may throw; what was written
    before a throw stays written. *)
Definition eff (A : Type) : Type := page → result A * page.

Definition eff_ret {A} (a : A) : eff A := fun st => (Ok a, st).
Definition eff_bind {A B} (m : eff A) (f : A → eff B) : eff B := fun st =>
  match m st with
  | (Ok a, st') => f a st'
  | (Throw e, st') => (Throw e, st')
  end.

Notation "x ⇐ m ;; k" := (eff_bind m (fun x => k))
  (at level 100, m at next level, right associativity, format "x  ⇐  m ;;  '/' k").
Notation "m ;;; k" := (eff_bind m (fun _ => k))
  (at level 100, right associativity, format "m ;;;  '/' k").

Definition lift {A} (r : result A) : eff A := fun st => (r, st).
Definition throw {A} (e : error) : eff A := lift (Throw e).

(** [try { body } catch (error) { handler }] around effectful code *)
Definition try_eff {A} (body : eff A) (handler : error → eff A) : eff A := fun st =>
  match body st with
  | (Ok a, st') => (Ok a, st')
  | (Throw e, st') => handler e st'
  end.

Definition log (msg : string) : eff unit := fun st =>
  (Ok tt, {| grid := grid st; timers := timers st;
             console := console st ++ [msg]; requests := requests st;
             player_of := player_of st |}).

Definition send_request (url : string) : eff unit := fun st =>
  (Ok tt, {| grid := grid st; timers := timers st;
             console := console st; requests := requests st ++ [url];
             player_of := player_of st |}).

(** [await fetch(url)] followed by reading the body *)
Definition fetch (url : string) : eff string :=
  send_request url ;;; lift (fetch_text url).

Definition get_player : eff player := fun st => (Ok (player_of st), st).

Definition set_player (p : player) : eff unit := fun st =>
  (Ok tt, {| grid := grid st; timers := timers st;
             console := console st; requests := requests st;
             player_of := p |}).

Definition set_grid (g : list card) : eff unit := fun st =>
  (Ok tt, {| grid := g; timers := timers st;
             console := console st; requests := requests st;
             player_of := player_of st |}).

Definition get_grid : eff (list card) := fun st => (Ok (grid st), st).

Definition appendChild (c : card) : eff unit :=
  g ⇐ get_grid ;; set_grid (g ++ [c]).

(** Write to the card at position [i] of the container. *)
Definition update_card (i : nat) (f : card → card) : eff unit :=
  g ⇐ get_grid ;; set_grid (alter f i g).

(** [forEach] with the element's index; a throw ends the loop. *)
Fixpoint forEach_from {A} (i : nat) (l : list A) (body : A → nat → eff unit) : eff unit :=
  match l with
  | [] => eff_ret tt
  | a :: l' => body a i ;;; forEach_from (S i) l' body
  end.

Definition forEach {A} (l : list A) (body : A → nat → eff unit) : eff unit :=
  forEach_from 0 l body.

(** ** Entrance animation *)

Definition hide_card (c : card) : card :=
  {| data_tags := data_tags c; data_videoUrl := data_videoUrl c;
     data_platform := data_platform c; data_videoId := data_videoId c;
     thumb_background := thumb_background c; thumb_icon := thumb_icon c;
     title_text := title_text c; view_count := view_count c;
     style_opacity := "0";
     style_transform := "translateY(20px)";
     style_transition := style_transition c;
     click_url := click_url c; click_title := click_title c |}.

Definition show_card (c : card) : card :=
  {| data_tags := data_tags c; data_videoUrl := data_videoUrl c;
     data_platform := data_platform c; data_videoId := data_videoId c;
     thumb_background := thumb_background c; thumb_icon := thumb_icon c;
     title_text := title_text c; view_count := view_count c;
     style_opacity := "1";
     style_transform := "translateY(0)";
     style_transition := "all 0.5s ease";
     click_url := click_url c; click_title := click_title c |}.

Definition setTimeout (delay i : nat) : eff unit := fun st =>
  (Ok tt, {| grid := grid st; timers := timers st ++ [(delay, i)];
             console := console st; requests := requests st;
             player_of := player_of st |}).

Definition animateCardsIn : eff unit :=
  cards ⇐ get_grid ;;
  forEach cards (fun _ index =>
    update_card index hide_card ;;;
    setTimeout (100 + index * 100) index).

(** The timers fire in the order of their delays, which is the order in
    which [animateCardsIn] queued them. *)
Definition run_timers (st : page) : page :=
  {| grid := foldl (fun g t => alter show_card t.2 g) (grid st) (timers st);
     timers := [];
     console := console st;
     requests := requests st;
     player_of := player_of st |}.

(** ** Metadata fetchers *)

Definition VIEWS_WORKER_URL : string :=
  "https://youtube-views.leonardthethird.workers.dev".

Definition views_api (videoId : val) : string :=
  VIEWS_WORKER_URL +:+ "?v=" +:+ to_string videoId.

(** What [fetchYouTubeViews] computes from the answer to its request. *)
Definition views_of_response (videoId : val) : result val :=
  body ← fetch_text (views_api videoId);
  data ← JSON_parse body;
  views ← prop data "views";
  Ok (js_or views VNull).

Definition fetchYouTubeViews (videoId : val) : eff val :=
  try_eff
    (send_request (views_api videoId) ;;;
     lift (views_of_response videoId))
    (fun error =>
       log ("Could not fetch views for " +:+ to_string videoId) ;;;
       eff_ret VNull).

Definition vimeo_api (vimeoId : val) : string :=
  "https://vimeo.com/api/v2/video/" +:+ to_string vimeoId +:+ ".json".

(** What [fetchVimeoThumbnail] computes from the answer to its request. *)
Definition thumbnail_of_response (vimeoId : val) : result val :=
  body ← fetch_text (vimeo_api vimeoId);
  data ← JSON_parse body;
  first ← index data 0;
  Ok (js_or (js_or (opt_prop first "thumbnail_large")
                   (opt_prop first "thumbnail_medium")) VNull).

Definition fetchVimeoThumbnail (vimeoId : val) : eff val :=
  try_eff
    (send_request (vimeo_api vimeoId) ;;;
     lift (thumbnail_of_response vimeoId))
    (fun error =>
       log ("Could not fetch Vimeo thumbnail for " +:+ to_string vimeoId) ;;;
       eff_ret VNull).

(** [card.dataset.videoId]: undefined when the card has no such attribute *)
Definition dataset_videoId (c : card) : val :=
  match data_videoId c with
  | Some s => VStr s
  | None => VUndef
  end.

Definition is_null (v : val) : bool :=
  match v with
  | VNull => true
  | _ => false
  end.

Definition set_view_count (t : string) (c : card) : card :=
  {| data_tags := data_tags c; data_videoUrl := data_videoUrl c;
     data_platform := data_platform c; data_videoId := data_videoId c;
     thumb_background := thumb_background c; thumb_icon := thumb_icon c;
     title_text := title_text c; view_count := t;
     style_opacity := style_opacity c;
     style_transform := style_transform c;
     style_transition := style_transition c;
     click_url := click_url c; click_title := click_title c |}.

Definition set_thumb_background (b : string) (c : card) : card :=
  {| data_tags := data_tags c; data_videoUrl := data_videoUrl c;
     data_platform := data_platform c; data_videoId := data_videoId c;
     thumb_background := b; thumb_icon := thumb_icon c;
     title_text := title_text c; view_count := view_count c;
     style_opacity := style_opacity c;
     style_transform := style_transform c;
     style_transition := style_transition c;
     click_url := click_url c; click_title := click_title c |}.

Definition has_platform (name : string) (c : card) : bool :=
  match data_platform c with
  | Some p => String.eqb p name
  | None => false
  end.

(** The per-card callbacks write to their own card only, so the order in
    which the responses arrive does not matter; the model takes the cards in
    document order. *)
Definition views_callback (card : card) (i : nat) : eff unit :=
  if has_platform "youtube" card then
    views ⇐ fetchYouTubeViews (dataset_videoId card) ;;
    if negb (is_null views)
    then update_card i (set_view_count ("⭐ " +:+ formatViews views +:+ " views"))
    else eff_ret tt
  else eff_ret tt.

Definition updateAllViewCounts : eff unit :=
  cards ⇐ get_grid ;;
  forEach cards views_callback.

Definition thumbnail_callback (card : card) (i : nat) : eff unit :=
  if has_platform "vimeo" card then
    if includes (thumb_background card) "linear-gradient" then
      thumbnailUrl ⇐ fetchVimeoThumbnail (dataset_videoId card) ;;
      if truthy thumbnailUrl
      then update_card i
             (set_thumb_background ("url('" +:+ to_string thumbnailUrl +:+ "') center/cover"))
      else eff_ret tt
    else eff_ret tt
  else eff_ret tt.

Definition updateVimeoThumbnails : eff unit :=
  cards ⇐ get_grid ;;
  forEach cards thumbnail_callback.

(** ** Catalog loader *)

Definition SHEET_ID : string := "1sIwKBRrCv-MHGjdfkY5cpM4Y7VHKMWu-FbWdsxz1kyw".
Definition SHEET_URL : string :=
  "https://docs.google.com/spreadsheets/d/" +:+ SHEET_ID +:+ "/gviz/tq?tqx=out:json".

Definition colMap : list string :=
  ["title"; "tags"; "icon"; "views"; "videourl"; "thumbnail"].

(** The callback of [data.table.cols.map]: the name of column [i]. *)
Definition column_name (c : val) (i : nat) : result string :=
  l ← prop c "label";
  match js_or l (VStr "") with
  | VStr s =>
      let label := trim (toLowerCase s) in
      Ok (if truthy (VStr label) then label
          else match colMap !! i with
               | Some name => name
               | None => "col" +:+ pretty i
               end)
  | _ => Throw (TypeError "toLowerCase is not a function")
  end.

Fixpoint map_from {A B} (i : nat) (l : list A) (f : A → nat → result B) : result (list B) :=
  match l with
  | [] => Ok []
  | a :: l' => b ← f a i; bs ← map_from (S i) l' f; Ok (b :: bs)
  end.

Definition resolve_cols (cols : val) : result (list string) :=
  match cols with
  | VArr l => map_from 0 l column_name
  | VUndef => Throw (TypeError "Cannot read properties of undefined")
  | VNull => Throw (TypeError "Cannot read properties of null")
  | _ => Throw (TypeError "map is not a function")
  end.

(** What a cell contributes to the record: its typed value, else its
    formatted string, else the empty string. *)
Definition cell_value (cell : val) : result val :=
  v ← prop cell "v";
  match v with
  | VNull | VUndef => f ← prop cell "f"; Ok (js_or f (VStr ""))
  | _ => Ok v
  end.

(** The callback of [row.c.forEach], folded over the cells from index [i]. *)
Fixpoint fill_record (cols : list string) (i : nat) (cells : list val)
    (video : gmap string val) : result (gmap string val) :=
  match cells with
  | [] => Ok video
  | cell :: cells' =>
      video' ← match cols !! i with
               | Some name =>
                   if truthy (VStr name) && truthy cell
                   then v ← cell_value cell; Ok (<[name := v]> video)
                   else Ok video
               | None => Ok video
               end;
      fill_record cols (S i) cells' video'
  end.

Definition parse_row (cols : list string) (row : val) : result (gmap string val) :=
  c ← prop row "c";
  match c with
  | VArr cells => fill_record cols 0 cells ∅
  | VUndef => Throw (TypeError "Cannot read properties of undefined")
  | VNull => Throw (TypeError "Cannot read properties of null")
  | _ => Throw (TypeError "forEach is not a function")
  end.

(** [v > c] for a numeric constant *)
Definition js_gt (v : val) (c : Z) : bool :=
  match ToNumber v with
  | NaN => false
  | Int n => c <? n
  end.

(** The callback of [rows.slice(1).forEach] *)
Definition render_row (cols : list string) (row : val) (index : nat) : eff unit :=
  video ⇐ lift (parse_row cols row) ;;
  log "Video object:" ;;;
  if truthy (field video "title") then
    card ⇐ lift (createVideoCard video index) ;;
    appendChild card
  else eff_ret tt.

(** The block guarded by [if (rows && rows.length > 1)]: the container is
    emptied and rebuilt from the rows after the header row. *)
Definition rebuild_grid (cols : list string) (rows : val) : eff unit :=
  if truthy rows then
    len ⇐ lift (prop rows "length") ;;
    if js_gt len 1 then
      set_grid [] ;;;
      match rows with
      | VArr l => forEach (drop 1 l) (render_row cols)
      | _ => throw (TypeError "forEach is not a function")
      end
    else eff_ret tt
  else eff_ret tt.

(** What follows the rebuilding: the entrance animation and the two
    enrichment passes. *)
Definition post_render : eff unit :=
  animateCardsIn ;;;
  updateAllViewCounts ;;;
  updateVimeoThumbnails.

Definition loadVideosFromSheet : eff unit :=
  try_eff
    (body ⇐ fetch SHEET_URL ;;
     jsonMatch ⇐ lift (js_match (VStr body) envelope_re) ;;
     match jsonMatch with
     | None => throw (Error "Invalid response format")
     | Some payload =>
         data ⇐ lift (JSON_parse (to_string payload)) ;;
         rows ⇐ lift (table ← prop data "table"; prop table "rows") ;;
         cols ⇐ lift (table ← prop data "table"; c ← prop table "cols"; resolve_cols c) ;;
         log "Columns:" ;;;
         log "Rows:" ;;;
         rebuild_grid cols rows ;;;
         post_render
     end)
    (fun error =>
       log "Could not load from Google Sheets, using default content:" ;;;
       animateCardsIn).

(** ** Modal player *)

Record VimeoInfo := {
  info_width : val;
  info_height : val;
  info_aspectRatio : real
}.

(** What [fetchVimeoInfo] computes from the answer to its request. *)
Definition info_of_response (vimeoId : val) : result VimeoInfo :=
  body ← fetch_text (vimeo_api vimeoId);
  data ← JSON_parse body;
  first ← index data 0;
  let width := js_or (opt_prop first "width") (VNum (Int 1920)) in
  let height := js_or (opt_prop first "height") (VNum (Int 1080)) in
  Ok {| info_width := width;
        info_height := height;
        info_aspectRatio :=
          rdiv (real_of_number (ToNumber width)) (real_of_number (ToNumber height)) |}.

(** [fetchVimeoInfo] once its request has been answered (the request itself
    is sent when [showVideoPlayer] reaches its [await]). *)
Definition fetchVimeoInfo_settle (vimeoId : val) : eff VimeoInfo :=
  try_eff
    (lift (info_of_response vimeoId))
    (fun error =>
       log ("Could not fetch Vimeo info for " +:+ to_string vimeoId) ;;;
       eff_ret {| info_width := VNum (Int 1920);
                  info_height := VNum (Int 1080);
                  info_aspectRatio := RFin (16 # 9) |}).

(** The inline styles that [showVideoPlayer] gives a new modal. *)
Definition initial_styles : styles :=
  {| content_width := Text "90%";
     content_maxWidth := Text "800px";
     content_height := Text "";
     content_maxHeight := Text "";
     content_padding := Text "20px";
     content_borderRadius := Text "20px";
     content_border := Text "4px solid white";
     title_display := Text "";
     title_fontSize := Text "1.2rem";
     title_marginBottom := Text "15px";
     close_width := Text "40px";
     close_height := Text "40px";
     close_fontSize := Text "1.2rem";
     close_top := Text "-15px";
     close_right := Text "-15px";
     close_border := Text "3px solid white";
     wrapper_borderRadius := Text "10px" |}.

(** [updateLayout] of a modal with this aspect ratio, at viewport [vw] x [vh] *)
Definition updateLayout (aspect : real) (portrait : bool) (vw vh : Z) (s : styles) : styles :=
  let isLandscapeScreen := vh <? vw in
  let isMobile := (vw <? 768) || (vh <? 500) in
  if portrait then
    let maxHeight := real_of_Z (vh - 80) in
    let maxWidth := rmul maxHeight aspect in
    let padding := real_of_Z 40 in
    {| content_width := Pixels (rmin (real_of_Z (vw - 40)) (radd maxWidth padding));
       content_maxWidth := Text "400px";
       content_height := Text "auto";
       content_maxHeight := Pixels (real_of_Z (vh - 40));
       content_padding := Text "20px";
       content_borderRadius := Text "20px";
       content_border := Text "4px solid white";
       title_display := Text "block";
       title_fontSize := Text "1rem";
       title_marginBottom := Text "10px";
       close_width := Text "36px";
       close_height := Text "36px";
       close_fontSize := Text "1rem";
       close_top := Text "-12px";
       close_right := Text "-12px";
       close_border := Text "3px solid white";
       wrapper_borderRadius := Text "10px" |}
  else if isLandscapeScreen && isMobile then
    let padding := real_of_Z 16 in
    let availableHeight := vh - 40 in
    let maxVideoWidth := rmul (real_of_Z (availableHeight - 16)) aspect in
    {| content_width := Pixels (rmin (real_of_Z (vw - 20)) (radd maxVideoWidth padding));
       content_maxWidth := Text "none";
       content_height := Text "auto";
       content_maxHeight := Pixels (real_of_Z (vh - 20));
       content_padding := Text "8px";
       content_borderRadius := Text "8px";
       content_border := Text "2px solid white";
       title_display := Text "none";
       title_fontSize := title_fontSize s;
       title_marginBottom := title_marginBottom s;
       close_width := Text "24px";
       close_height := Text "24px";
       close_fontSize := Text "0.8rem";
       close_top := Text "-6px";
       close_right := Text "-6px";
       close_border := Text "2px solid white";
       wrapper_borderRadius := Text "6px" |}
  else
    {| content_width := Text "90%";
       content_maxWidth := Text "800px";
       content_height := Text "auto";
       content_maxHeight := Text "none";
       content_padding := Text "20px";
       content_borderRadius := Text "20px";
       content_border := Text "4px solid white";
       title_display := Text "block";
       title_fontSize := Text "1.2rem";
       title_marginBottom := Text "15px";
       close_width := Text "40px";
       close_height := Text "40px";
       close_fontSize := Text "1.2rem";
       close_top := Text "-15px";
       close_right := Text "-15px";
       close_border := Text "3px solid white";
       wrapper_borderRadius := Text "10px" |}.

Definition relayout (vw vh : Z) (m : modal) : modal :=
  {| modal_id := modal_id m;
     modal_title := modal_title m;
     iframe_src := iframe_src m;
     wrapper_paddingBottom := wrapper_paddingBottom m;
     aspectRatio := aspectRatio m;
     isPortrait := isPortrait m;
     modal_styles := updateLayout (aspectRatio m) (isPortrait m) vw vh (modal_styles m) |}.

Definition without (id : nat) (l : list nat) : list nat :=
  filter (fun x => x ≠ id) l.

(** [modal.remove()] with the replacement that [showVideoPlayer] installs on
    each modal: the two window listeners go, then the element is detached. *)
Definition detach (id : nat) (p : player) : player :=
  {| modals := filter (fun m => modal_id m ≠ id) (modals p);
     on_resize := without id (on_resize p);
     on_orientationchange := without id (on_orientationchange p);
     on_keydown := on_keydown p;
     awaiting := awaiting p;
     innerWidth := innerWidth p;
     innerHeight := innerHeight p;
     next_id := next_id p |}.

(** [document.removeEventListener('keydown', escHandler)] *)
Definition unlisten_keydown (id : nat) (p : player) : player :=
  {| modals := modals p;
     on_resize := on_resize p;
     on_orientationchange := on_orientationchange p;
     on_keydown := without id (on_keydown p);
     awaiting := awaiting p;
     innerWidth := innerWidth p;
     innerHeight := innerHeight p;
     next_id := next_id p |}.

(** The lines at the top of [showVideoPlayer]: the first modal of the
    document, if any, is removed. *)
Definition remove_existing (p : player) : player :=
  match modals p with
  | existing :: _ => detach (modal_id existing) p
  | [] => p
  end.

(** The modal that [showVideoPlayer] builds, laid out for the viewport. *)
Definition new_modal (pf : platform) (videoId title : val)
    (aspect : real) (portrait : bool) (p : player) : modal :=
  let embedUrl :=
    match pf with
    | vimeo => "https://player.vimeo.com/video/" +:+ to_string videoId +:+ "?autoplay=1"
    | youtube => "https://www.youtube.com/embed/" +:+ to_string videoId +:+ "?autoplay=1&rel=0"
    end in
  {| modal_id := next_id p;
     modal_title := to_string (js_or title (VStr "Now Playing"));
     iframe_src := embedUrl;
     wrapper_paddingBottom := rmul (rdiv (real_of_Z 1) aspect) (real_of_Z 100);
     aspectRatio := aspect;
     isPortrait := portrait;
     modal_styles :=
       updateLayout aspect portrait (innerWidth p) (innerHeight p) initial_styles |}.

(** [showVideoPlayer] from the embed address to [appendChild]: the modal is
    built, its three listeners are registered, and it is appended. *)
Definition build_modal (pf : platform) (videoId title : val)
    (aspect : real) (portrait : bool) (p : player) : player :=
  {| modals := modals p ++ [new_modal pf videoId title aspect portrait p];
     on_resize := on_resize p ++ [next_id p];
     on_orientationchange := on_orientationchange p ++ [next_id p];
     on_keydown := on_keydown p ++ [next_id p];
     awaiting := awaiting p;
     innerWidth := innerWidth p;
     innerHeight := innerHeight p;
     next_id := S (next_id p) |}.

Definition suspend (c : suspended) (p : player) : player :=
  {| modals := modals p;
     on_resize := on_resize p;
     on_orientationchange := on_orientationchange p;
     on_keydown := on_keydown p;
     awaiting := awaiting p ++ [c];
     innerWidth := innerWidth p;
     innerHeight := innerHeight p;
     next_id := next_id p |}.

Definition resumed (k : nat) (p : player) : player :=
  {| modals := modals p;
     on_resize := on_resize p;
     on_orientationchange := on_orientationchange p;
     on_keydown := on_keydown p;
     awaiting := delete k (awaiting p);
     innerWidth := innerWidth p;
     innerHeight := innerHeight p;
     next_id := next_id p |}.

Definition modify_player (f : player → player) : eff unit :=
  p ⇐ get_player ;; set_player (f p).

(** A call [showVideoPlayer(platform, videoId, title)] up to its first
    suspension: for YouTube it runs to the end, for Vimeo it waits for the
    video's dimensions. *)
Definition showVideoPlayer (pf : platform) (videoId title : val) : eff unit :=
  modify_player remove_existing ;;;
  match pf with
  | vimeo =>
      send_request (vimeo_api videoId) ;;;
      modify_player (suspend {| call_videoId := videoId; call_title := title |})
  | youtube => modify_player (build_modal youtube videoId title (RFin (16 # 9)) false)
  end.

(** The [k]-th suspended call resumes: its request has been answered. *)
Definition showVideoPlayer_resume (k : nat) : eff unit :=
  p ⇐ get_player ;;
  match awaiting p !! k with
  | None => eff_ret tt
  | Some c =>
      modify_player (resumed k) ;;;
      info ⇐ fetchVimeoInfo_settle (call_videoId c) ;;
      modify_player
        (build_modal vimeo (call_videoId c) (call_title c)
           (info_aspectRatio info) (rlt (info_aspectRatio info) (real_of_Z 1)))
  end.

(** The handler [escHandler] of modal [id] *)
Definition escHandler (id : nat) (key : string) (p : player) : player :=
  if String.eqb key "Escape" then unlisten_keydown id (detach id p) else p.

(** The viewport changes. *)
Definition set_viewport (vw vh : Z) (p : player) : player :=
  {| modals := modals p;
     on_resize := on_resize p;
     on_orientationchange := on_orientationchange p;
     on_keydown := on_keydown p;
     awaiting := awaiting p;
     innerWidth := vw;
     innerHeight := vh;
     next_id := next_id p |}.

(** The listener [updateLayout] of modal [id] runs. *)
Definition run_updateLayout (id : nat) (p : player) : player :=
  {| modals := map (fun m => if decide (modal_id m = id)
                           then relayout (innerWidth p) (innerHeight p) m else m)
                   (modals p);
     on_resize := on_resize p;
     on_orientationchange := on_orientationchange p;
     on_keydown := on_keydown p;
     awaiting := awaiting p;
     innerWidth := innerWidth p;
     innerHeight := innerHeight p;
     next_id := next_id p |}.

Definition is_attached (id : nat) (p : player) : bool :=
  bool_decide (id ∈ map modal_id (modals p)).

(** The listeners of an event run in the order of their registration. *)
Definition dispatch (listeners : list nat) (handler : nat → player → player)
    (p : player) : player :=
  foldl (fun q id => handler id q) p listeners.

(** What can happen to the player. A click reaches the close button or the
    backdrop of a modal only while the modal is in the document. *)
Inductive event :=
| Open (pf : platform) (videoId title : val)
| InfoArrives (k : nat)
| ClickClose (id : nat)
| ClickBackdrop (id : nat)
| KeyDown (key : string)
| Resize (vw vh : Z)
| OrientationChange (vw vh : Z).

Definition handle (e : event) : eff unit :=
  match e with
  | Open pf videoId title => showVideoPlayer pf videoId title
  | InfoArrives k => showVideoPlayer_resume k
  | ClickClose id | ClickBackdrop id =>
      modify_player (fun p => if is_attached id p then detach id p else p)
  | KeyDown key =>
      modify_player (fun p => dispatch (on_keydown p) (fun id => escHandler id key) p)
  | Resize vw vh =>
      modify_player (fun p =>
        let q := set_viewport vw vh p in dispatch (on_resize q) run_updateLayout q)
  | OrientationChange vw vh =>
      modify_player (fun p =>
        let q := set_viewport vw vh p in dispatch (on_orientationchange q) run_updateLayout q)
  end.

Definition step (st : page) (e : event) : page := (handle e st).2.

Definition run_events (st : page) (es : list event) : page := foldl step st es.

(** What a click on a card does. *)
Inductive click_effect :=
| OpensPlayer (pf : platform) (videoId title : val)
| OpensWindow (url : val)
| ComingSoon.

Definition card_click (c : card) : result click_effect :=
  platform ← getVideoPlatform (click_url c);
  match platform with
  | Some r => Ok (OpensPlayer (ref_platform r) (ref_id r) (click_title c))
  | None => Ok (if truthy (click_url c) then OpensWindow (click_url c) else ComingSoon)
  end.

(** ** Specification vocabulary *)

(** The page as it is loaded: the cards of the markup, no modal, no
    listener, nothing requested yet. *)
Definition initial_page (cards : list card) (vw vh : Z) : page :=
  {| grid := cards;
     timers := [];
     console := [];
     requests := [];
     player_of :=
       {| modals := []; on_resize := []; on_orientationchange := [];
          on_keydown := []; awaiting := [];
          innerWidth := vw; innerHeight := vh; next_id := 0 |} |}.

(** The window listeners are those of the modals in the document, and the
    identifiers in use are below the next one: this is kept by every event. *)
Definition window_listeners_ok (p : player) : Prop :=
  on_resize p = map modal_id (modals p)
  ∧ on_orientationchange p = map modal_id (modals p)
  ∧ Forall (fun id => (id < next_id p)%nat) (map modal_id (modals p)).

(** The three layout modes of the specification, and the classification in
    its words: portrait video; landscape video on a small screen; default. *)
Inductive layout_mode :=
| PortraitVideo
| LandscapeVideoOnSmallScreen
| DefaultLayout.

Definition spec_layout_mode (aspect : real) (width height : Z) : layout_mode :=
  let isPortrait := rlt aspect (real_of_Z 1) in
  let isLandscapeScreen := height <? width in
  let isMobile := (width <? 768) || (height <? 500) in
  if isPortrait then PortraitVideo
  else if isLandscapeScreen && isMobile then LandscapeVideoOnSmallScreen
  else DefaultLayout.

(** The mode that a modal's styles show: the width cap tells the modes apart
    (400px for portrait video, none on a small landscape screen, 800px by
    default), and on a small landscape screen the title is hidden. *)
Definition shown_mode (s : styles) : option layout_mode :=
  match content_maxWidth s, title_display s with
  | Text "400px", Text "block" => Some PortraitVideo
  | Text "none", Text "none" => Some LandscapeVideoOnSmallScreen
  | Text "800px", Text "block" => Some DefaultLayout
  | _, _ => None
  end.

(** What the two enrichment passes do to one card, and the timers that the
    entrance animation queues for [n] cards from position [first]. *)
Definition views_pass (c : card) : card :=
  if has_platform "youtube" c then
    let views := try_catch (views_of_response (dataset_videoId c)) (fun _ => VNull) in
    if negb (is_null views)
    then set_view_count ("⭐ " +:+ formatViews views +:+ " views") c
    else c
  else c.

Definition wants_thumbnail (c : card) : bool :=
  has_platform "vimeo" c && includes (thumb_background c) "linear-gradient".

Definition thumbnail_pass (c : card) : card :=
  if wants_thumbnail c then
    let thumbnailUrl :=
      try_catch (thumbnail_of_response (dataset_videoId c)) (fun _ => VNull) in
    if truthy thumbnailUrl
    then set_thumb_background ("url('" +:+ to_string thumbnailUrl +:+ "') center/cover") c
    else c
  else c.

Definition entrance_timers (first n : nat) : list (nat * nat) :=
  map (fun i => (100 + i * 100, i)%nat) (seq first n).

(** ** Sample answers of the endpoints

    Concrete documents and networks for running the script on the reference
    runtime. *)
Definition views_doc (n : Z) : val := VObj [("views", VNum (Int n))].

Definition views_network (n : Z) : string → result string :=
  serve [(views_api (VStr "abc"), stringify (views_doc n))].

(** A card of the page's markup for the YouTube video [abc], still showing
    its placeholder. *)
Definition youtube_card : card :=
  {| data_tags := "music"; data_videoUrl := Some "https://youtu.be/abc";
     data_platform := Some "youtube"; data_videoId := Some "abc";
     thumb_background := "url('https://img.youtube.com/vi/abc/hqdefault.jpg') center/cover";
     thumb_icon := None; title_text := "First"; view_count := "⭐ Loading... views";
     style_opacity := ""; style_transform := ""; style_transition := "";
     click_url := VStr "https://youtu.be/abc"; click_title := VStr "First" |}.

(** A page whose sheet request is answered with text that is not the
    callback envelope, and one whose envelope holds text that is not JSON. *)
Definition no_envelope_network : string → result string :=
  serve [(SHEET_URL, "<html>Service unavailable</html>")].

Definition bad_payload_network : string → result string :=
  serve [(SHEET_URL, "google.visualization.Query.setResponse({table:);")].

(** ** Well-formed records

    The records of a well-formed sheet: the title and the video address of a
    row are text when they are there at all. *)
Definition text_or_falsy (v : val) : Prop :=
  truthy v = false ∨ ∃ s, v = VStr s.

Definition well_formed_record (video : gmap string val) : Prop :=
  text_or_falsy (field video "title")
  ∧ text_or_falsy (field video "videourl")
  ∧ text_or_falsy (field video "videoUrl").

(** The record has a title that is not empty. *)
Definition has_title (video : gmap string val) : bool :=
  match field video "title" with
  | VStr s => negb (String.eqb s "")
  | _ => false
  end.

(** The records with a title, each with its position among the data rows
    (the first row after the header has position [d]). *)
Fixpoint titled_from (d : nat) (videos : list (gmap string val))
    : list (nat * gmap string val) :=
  match videos with
  | [] => []
  | video :: videos' =>
      if has_title video
      then (d, video) :: titled_from (S d) videos'
      else titled_from (S d) videos'
  end.

(** The record has no thumbnail: no custom one, and its address is not a
    YouTube address, from which one would be derived. *)
Definition lacks_thumbnail (video : gmap string val) : Prop :=
  truthy (field video "thumbnail") = false
  ∧ getYouTubeId (video_url video) = Ok VNull.

(** The card rendered for the record at position [d] of the data rows. *)
Definition rendered (row : nat * gmap string val) (c : card) : Prop :=
  createVideoCard row.2 row.1 = Ok c
  ∧ (lacks_thumbnail row.2 →
     ∃ g, FALLBACK_GRADIENTS !! (row.1 mod 6)%nat = Some g
          ∧ thumb_background c
            = "linear-gradient(135deg, " +:+ g.1 +:+ ", " +:+ g.2 +:+ ")").

(** ** Sample sheets *)

Definition text_cell (s : string) : val := VObj [("v", VStr s)].
Definition labelled (s : string) : val := VObj [("label", VStr s)].
Definition row_of (cells : list val) : val := VObj [("c", VArr cells)].

Definition sheet_doc (rows : list val) : val :=
  VObj [("table",
         VObj [("cols", VArr [labelled "Title"; labelled "Tags"; labelled "";
                              labelled ""; labelled "VideoURL"; labelled ""]);
               ("rows", VArr rows)])].

Definition envelope (doc : val) : string :=
  "/*O_o*/ google.visualization.Query.setResponse(" +:+ stringify doc +:+ ");".

Definition sheet_network (doc : val) : string → result string :=
  serve [(SHEET_URL, envelope doc)].

Definition header_row : val := row_of [text_cell "Title"; text_cell "Tags"].

(** A sheet with a header row and one data row, which has a title and
    neither an address nor a thumbnail. *)
Definition one_row_sheet : val :=
  sheet_doc [header_row; row_of [text_cell "Only"; text_cell "misc"]].

(** A sheet with a header row and three data rows; the second data row has
    no title. *)
Definition three_row_sheet : val :=
  sheet_doc [header_row;
             row_of [text_cell "First"; text_cell "music"; VNull; VNull;
                     text_cell "https://youtu.be/abc"];
             row_of [VNull; text_cell "draft"];
             row_of [text_cell "Third"; text_cell "talk"]].

(** A sheet with nothing but its header row. *)
Definition header_only_sheet : val := sheet_doc [header_row].

(** A record of a Vimeo video whose custom thumbnail has the text
    [linear-gradient] in its address, and the Vimeo endpoint's answer for
    the video. *)
Definition custom_thumbnail_video : gmap string val :=
  <["thumbnail" := VStr "https://cdn.example.com/linear-gradient.jpg"]>
    (<["videourl" := VStr "https://vimeo.com/123"]>
       (<["title" := VStr "Clip"]> ∅)).

Definition vimeo_doc : val :=
  VArr [VObj [("thumbnail_large", VStr "https://i.vimeocdn.com/video/123_640.jpg");
              ("width", VNum (Int 540)); ("height", VNum (Int 960))]].

Definition vimeo_network : string → result string :=
  serve [(vimeo_api (VStr "123"), stringify vimeo_doc)].

(** ** Invariants of the modal player *)

(** No video is opened while a call of [showVideoPlayer] is suspended at its
    [await]: [pending] is the number of calls still waiting for their
    dimensions. *)
Fixpoint opens_apart (pending : nat) (es : list event) : bool :=
  match es with
  | [] => true
  | Open youtube _ _ :: es' => Nat.eqb pending 0 && opens_apart 0 es'
  | Open vimeo _ _ :: es' => Nat.eqb pending 0 && opens_apart 1 es'
  | InfoArrives k :: es' =>
      opens_apart (if (k <? pending)%nat then pending - 1 else pending) es'
  | _ :: es' => opens_apart pending es'
  end.

(** Every modal of the document has its Escape listener registered. *)
Definition escape_covers (p : player) : Prop :=
  ∀ id, id ∈ map modal_id (modals p) → id ∈ on_keydown p.

(** The modal is laid out for the viewport [vw] x [vh]: its styles show the
    mode of its aspect ratio at that viewport. *)
Definition laid_out (vw vh : Z) (m : modal) : Prop :=
  isPortrait m = rlt (aspectRatio m) (real_of_Z 1)
  ∧ shown_mode (modal_styles m) = Some (spec_layout_mode (aspectRatio m) vw vh).

(** The window listeners follow the modals, and the modals of the document
    have distinct identities. *)
Definition listeners_in_step (p : player) : Prop :=
  window_listeners_ok p ∧ NoDup (map modal_id (modals p)).

(** ** Cards as elements *)

(** [c'] is the element [c] with, at most, another view-count text and
    another thumbnail background. *)
Definition enriched_from (c c' : card) : Prop :=
  data_tags c' = data_tags c ∧ data_videoUrl c' = data_videoUrl c
  ∧ data_platform c' = data_platform c ∧ data_videoId c' = data_videoId c
  ∧ thumb_icon c' = thumb_icon c ∧ title_text c' = title_text c
  ∧ style_opacity c' = style_opacity c ∧ style_transform c' = style_transform c
  ∧ style_transition c' = style_transition c
  ∧ click_url c' = click_url c ∧ click_title c' = click_title c.

(** ** The envelope of the sheet's response *)

(** The text with which the callback envelope opens. *)
Definition setResponse_open : string := "google.visualization.Query.setResponse(".

(** ** Tag filter *)

(** A [.tag-btn] element: its [data-tag] attribute, when it has one, and
    whether it carries the class [active]. *)
Record tag_btn := {
  btn_tag : option string;
  btn_active : bool
}.

(** A card of the document together with whether it carries the class
    [hidden]. *)
Record listed := {
  element : card;
  hidden : bool
}.

(** The filter buttons and the cards of the document, in document order. *)
Record gallery := {
  buttons : list tag_btn;
  listing : list listed
}.

(** [btn.dataset.tag]: undefined when the button has no such attribute *)
Definition dataset_tag (b : tag_btn) : val :=
  match btn_tag b with
  | Some t => VStr t
  | None => VUndef
  end.

(** [tag === 'all'] *)
Definition is_all (tag : val) : bool :=
  match tag with
  | VStr t => String.eqb t "all"
  | _ => false
  end.

Definition set_hidden (h : bool) (lc : listed) : listed :=
  {| element := element lc; hidden := h |}.

(** The callback of [cards.forEach] in the click handler of a button whose
    tag is [tag]. [card.dataset.tags || ''] is the card's tags, the empty
    string when it has none; [includes] converts its argument to a string. *)
Definition filter_card (tag : val) (lc : listed) : listed :=
  if is_all tag then set_hidden false lc
  else
    let cardTags := to_string (js_or (VStr (data_tags (element lc))) (VStr "")) in
    if includes cardTags (to_string tag)
    then set_hidden false lc
    else set_hidden true lc.

Definition set_active (a : bool) (b : tag_btn) : tag_btn :=
  {| btn_tag := btn_tag b; btn_active := a |}.

(** The click handler of the button at position [i] of the document. *)
Definition click_tag (i : nat) (g : gallery) : gallery :=
  match buttons g !! i with
  | None => g
  | Some btn =>
      {| buttons := alter (set_active true) i (map (set_active false) (buttons g));
         listing := map (filter_card (dataset_tag btn)) (listing g) |}
  end.

(** ** Alert box *)

(** A [.y2k-alert] element of the document, with the message in its markup.
    The styles the script gives it are constants. *)
Record y2k_alert := {
  alert_id : nat;
  alert_message : string
}.

(** The alerts attached to the document, in document order. *)
Record overlay := {
  alerts : list y2k_alert;
  next_alert : nat
}.

Definition remove_alert (id : nat) (o : overlay) : overlay :=
  {| alerts := filter (fun a => alert_id a ≠ id) (alerts o);
     next_alert := next_alert o |}.

Definition showY2KAlert (message : string) (o : overlay) : overlay :=
  let o' := match alerts o with
            | existing :: _ => remove_alert (alert_id existing) o
            | [] => o
            end in
  {| alerts := alerts o' ++ [ {| alert_id := next_alert o'; alert_message := message |} ];
     next_alert := S (next_alert o') |}.

(** What happens to the alert box: the script shows an alert, or the user
    clicks the OK button of an alert, whose [onclick] removes the alert the
    button is in. *)
Inductive alert_event :=
| ShowAlert (message : string)
| ClickOK (id : nat).

Definition alert_step (o : overlay) (e : alert_event) : overlay :=
  match e with
  | ShowAlert message => showY2KAlert message o
  | ClickOK id => remove_alert id o
  end.

Definition no_alert : overlay := {| alerts := []; next_alert := 0 |}.

Definition run_alerts (es : list alert_event) : overlay := foldl alert_step no_alert es.

(** ** Further sample data *)

(** The record of a YouTube video, and a record with a title only, which
    has neither an address nor a view count. *)
Definition youtube_video : gmap string val :=
  <["videourl" := VStr "https://youtu.be/abc"]> (<["title" := VStr "First"]> ∅).

Definition plain_video : gmap string val :=
  <["title" := VStr "Soon"]> ∅.

(** A payload that reports an error and has no table. *)
Definition error_doc : val := VObj [("status", VStr "error")].

Definition number_cell (n : Z) : val := VObj [("v", VNum (Int n))].

(** The labels of the sample sheets' columns, and the names they resolve
    to. *)
Definition sample_cols : list val :=
  [labelled "Title"; labelled "Tags"; labelled ""; labelled ""; labelled "VideoURL";
   labelled ""].

Definition sample_names : list string :=
  ["title"; "tags"; "icon"; "views"; "videourl"; "thumbnail"].

(** A sheet whose second data row has a number where the video address is
    expected. *)
Definition first_row : val := row_of [text_cell "First"; text_cell "music"].

Definition numeric_url_row : val :=
  row_of [text_cell "Second"; text_cell "misc"; VNull; VNull; number_cell 42].

Definition third_row : val := row_of [text_cell "Third"; text_cell "talk"].

Definition numeric_url_sheet : val :=
  sheet_doc [header_row; first_row; numeric_url_row; third_row].

(** The filter buttons [all] and [music] over two cards, one of them
    without tags. *)
Definition untagged_card : card :=
  {| data_tags := ""; data_videoUrl := None;
     data_platform := None; data_videoId := None;
     thumb_background := "linear-gradient(135deg, #ff6b9d, #c44dff)";
     thumb_icon := None; title_text := "Soon"; view_count := "⭐ 0 views";
     style_opacity := ""; style_transform := ""; style_transition := "";
     click_url := VStr ""; click_title := VStr "Soon" |}.

Definition sample_gallery : gallery :=
  {| buttons := [ {| btn_tag := Some "all"; btn_active := true |};
                  {| btn_tag := Some "music"; btn_active := false |} ];
     listing := [ {| element := youtube_card; hidden := false |};
                  {| element := untagged_card; hidden := false |} ] |}.

(** Opens that do not overlap, with a click, a resize and a key between
    them. *)
Definition apart_events : list event :=
  [ Open vimeo (VStr "123") (VStr "Clip"); Resize 900 400; InfoArrives 0;
    Open youtube (VStr "abc") (VStr "First"); ClickClose 1;
    Open vimeo (VStr "123") (VStr "Clip"); KeyDown "Escape"; InfoArrives 0 ].

(** * Verification *)

Example formatViews_0 : formatViews (VNum (Int 0)) = "0".
Proof. reflexivity. Qed.
Example formatViews_999 : formatViews (VNum (Int 999)) = "999".
Proof. reflexivity. Qed.
Example formatViews_1000 : formatViews (VNum (Int 1000)) = "1K".
Proof. vm_compute. reflexivity. Qed.
Example formatViews_1500 : formatViews (VNum (Int 1500)) = "1.5K".
Proof. vm_compute. reflexivity. Qed.
Example formatViews_1050 : formatViews (VNum (Int 1050)) = "1.1K".
Proof. vm_compute. reflexivity. Qed.
Example formatViews_1150 : formatViews (VNum (Int 1150)) = "1.1K".
Proof. vm_compute. reflexivity. Qed.
Example formatViews_1M : formatViews (VNum (Int 1000000)) = "1M".
Proof. vm_compute. reflexivity. Qed.
Example formatViews_2500000 : formatViews (VNum (Int 2500000)) = "2.5M".
Proof. vm_compute. reflexivity. Qed.
Example formatViews_999950 : formatViews (VNum (Int 999950)) = "1000K".
Proof. vm_compute. reflexivity. Qed.


Example platform_youtu_be :
  getVideoPlatform (VStr "https://youtu.be/dQw4w9WgXcQ?t=42")
  = Ok (Some {| ref_platform := youtube; ref_id := VStr "dQw4w9WgXcQ" |}).
Proof. vm_compute. reflexivity. Qed.
Example platform_watch_later_v :
  getVideoPlatform (VStr "https://www.youtube.com/watch?list=PL1&v=abc123&t=5")
  = Ok (Some {| ref_platform := youtube; ref_id := VStr "abc123" |}).
Proof. vm_compute. reflexivity. Qed.
Example platform_vimeo :
  getVideoPlatform (VStr "https://vimeo.com/76979871")
  = Ok (Some {| ref_platform := vimeo; ref_id := VStr "76979871" |}).
Proof. vm_compute. reflexivity. Qed.
Example platform_none :
  getVideoPlatform (VStr "https://example.com/video.mp4") = Ok None.
Proof. vm_compute. reflexivity. Qed.


(** ** The modal player as a transition system *)

Lemma settle_player vimeoId st :
  ∃ info st', fetchVimeoInfo_settle vimeoId st = (Ok info, st')
              ∧ player_of st' = player_of st ∧ grid st' = grid st.
Proof.
  unfold fetchVimeoInfo_settle, try_eff, lift.
  destruct (info_of_response vimeoId) as [info|e]; simpl; eauto.
Qed.

Lemma step_open_youtube st videoId title :
  player_of (step st (Open youtube videoId title))
  = build_modal youtube videoId title (RFin (16 # 9)) false
      (remove_existing (player_of st)).
Proof. reflexivity. Qed.

Lemma step_open_vimeo st videoId title :
  player_of (step st (Open vimeo videoId title))
  = suspend {| call_videoId := videoId; call_title := title |}
      (remove_existing (player_of st)).
Proof. reflexivity. Qed.

Lemma step_info_arrives st k c :
  awaiting (player_of st) !! k = Some c →
  ∃ aspect,
    player_of (step st (InfoArrives k))
    = build_modal vimeo (call_videoId c) (call_title c) aspect
        (rlt aspect (real_of_Z 1)) (resumed k (player_of st)).
Proof.
  intros Hk. unfold step, handle, showVideoPlayer_resume, eff_bind at 1, get_player.
  rewrite Hk. unfold eff_bind at 1. simpl.
  set (st1 := {| grid := grid st; timers := timers st; console := console st;
                 requests := requests st; player_of := resumed k (player_of st) |}).
  unfold eff_bind.
  destruct (settle_player (call_videoId c) st1) as (info & st2 & -> & Hp & _).
  exists (info_aspectRatio info). simpl. rewrite Hp. reflexivity.
Qed.

Lemma step_click_close st id :
  player_of (step st (ClickClose id))
  = if is_attached id (player_of st) then detach id (player_of st) else player_of st.
Proof. reflexivity. Qed.

Lemma step_click_backdrop st id :
  player_of (step st (ClickBackdrop id))
  = if is_attached id (player_of st) then detach id (player_of st) else player_of st.
Proof. reflexivity. Qed.

Lemma step_keydown st key :
  player_of (step st (KeyDown key))
  = dispatch (on_keydown (player_of st)) (fun id => escHandler id key) (player_of st).
Proof. reflexivity. Qed.

(** ** Modal layout *)

(** C8. The layout that [updateLayout] writes is the one mode that the
    specification's classification gives for (aspect ratio, width, height),
    with [isPortrait = aspectRatio < 1]; the default mode caps the width at
    800px; a YouTube modal has aspect ratio 16/9, is never portrait and is
    laid out by the same classification; and the three sample viewports are
    classified as the specification says. *)
Theorem layout_classification :
  (∀ aspect vw vh s,
     shown_mode (updateLayout aspect (rlt aspect (real_of_Z 1)) vw vh s)
     = Some (spec_layout_mode aspect vw vh))
  ∧ (∀ aspect vw vh s,
       content_maxWidth (updateLayout aspect (rlt aspect (real_of_Z 1)) vw vh s)
       = Text "800px"
       ↔ spec_layout_mode aspect vw vh = DefaultLayout)
  ∧ (∀ st videoId title,
       ∃ m, last (modals (player_of (step st (Open youtube videoId title)))) = Some m
            ∧ aspectRatio m = RFin (16 # 9)
            ∧ isPortrait m = false
            ∧ shown_mode (modal_styles m)
              = Some (spec_layout_mode (RFin (16 # 9))
                        (innerWidth (player_of st)) (innerHeight (player_of st)))
            ∧ shown_mode (modal_styles m) ≠ Some PortraitVideo)
  ∧ spec_layout_mode (RFin (16 # 9)) 1920 1080 = DefaultLayout
  ∧ spec_layout_mode (RFin (1 # 2)) 400 800 = PortraitVideo
  ∧ spec_layout_mode (RFin (16 # 9)) 900 400 = LandscapeVideoOnSmallScreen.
Proof.
  assert (Hmode : ∀ aspect vw vh s,
     shown_mode (updateLayout aspect (rlt aspect (real_of_Z 1)) vw vh s)
     = Some (spec_layout_mode aspect vw vh)).
  { intros aspect vw vh s. unfold updateLayout, spec_layout_mode.
    destruct (rlt aspect (real_of_Z 1)); [reflexivity|].
    destruct ((vh <? vw) && ((vw <? 768) || (vh <? 500))); reflexivity. }
  split; [exact Hmode|].
  split.
  { intros aspect vw vh s. unfold updateLayout, spec_layout_mode.
    destruct (rlt aspect (real_of_Z 1)); [split; discriminate|].
    destruct ((vh <? vw) && ((vw <? 768) || (vh <? 500)));
      split; (discriminate || reflexivity). }
  split.
  { intros st videoId title. rewrite step_open_youtube.
    set (p := remove_existing (player_of st)).
    assert (Hw : innerWidth p = innerWidth (player_of st)
                 ∧ innerHeight p = innerHeight (player_of st)).
    { unfold p, remove_existing. destruct (modals (player_of st)); split; reflexivity. }
    destruct Hw as [Hw Hh].
    exists (new_modal youtube videoId title (RFin (16 # 9)) false p).
    split; [apply last_snoc|].
    split; [reflexivity|]. split; [reflexivity|].
    assert (Hs : shown_mode (modal_styles
                   (new_modal youtube videoId title (RFin (16 # 9)) false p))
                 = Some (spec_layout_mode (RFin (16 # 9))
                           (innerWidth (player_of st)) (innerHeight (player_of st)))).
    { rewrite <- Hw, <- Hh. apply (Hmode (RFin (16 # 9))). }
    split; [exact Hs|].
    rewrite Hs. unfold spec_layout_mode.
    change (rlt (RFin (16 # 9)) (real_of_Z 1)) with false. cbv iota.
    destruct (_ && _); discriminate. }
  repeat split; reflexivity.
Qed.

(** ** Listeners and modals *)

Lemma without_map_modal_id id (ms : list modal) :
  without id (map modal_id ms) = map modal_id (filter (fun m => modal_id m ≠ id) ms).
Proof.
  unfold without. induction ms as [|m ms IH]; [reflexivity|].
  cbn [map]. rewrite !filter_cons.
  destruct (decide (modal_id m ≠ id)); cbn [map]; rewrite IH; reflexivity.
Qed.

Lemma detach_ok id p : window_listeners_ok p → window_listeners_ok (detach id p).
Proof.
  intros (Hr & Ho & Hlt). unfold window_listeners_ok, detach; cbn.
  rewrite Hr, Ho, !without_map_modal_id. repeat split.
  rewrite Forall_forall in Hlt |- *. intros x Hx. apply Hlt.
  apply list_elem_of_fmap in Hx as (m & -> & Hm).
  apply list_elem_of_fmap. exists m. split; [reflexivity|].
  apply list_elem_of_filter in Hm. tauto.
Qed.

Lemma remove_existing_ok p : window_listeners_ok p → window_listeners_ok (remove_existing p).
Proof.
  intros H. unfold remove_existing. destruct (modals p); [exact H|].
  apply detach_ok, H.
Qed.

Lemma build_modal_ok pf videoId title aspect portrait p :
  window_listeners_ok p →
  window_listeners_ok (build_modal pf videoId title aspect portrait p).
Proof.
  intros (Hr & Ho & Hlt). unfold window_listeners_ok, build_modal; cbn.
  rewrite Hr, Ho, !map_app. cbn. repeat split.
  apply Forall_app. split.
  - eapply Forall_impl; [exact Hlt|]. cbn. intros; lia.
  - repeat constructor.
Qed.

Lemma escHandler_ok id key p : window_listeners_ok p → window_listeners_ok (escHandler id key p).
Proof.
  intros H. unfold escHandler. destruct (String.eqb key "Escape"); [|exact H].
  apply (detach_ok id) in H. exact H.
Qed.

Lemma run_updateLayout_ok id p : window_listeners_ok p → window_listeners_ok (run_updateLayout id p).
Proof.
  intros (Hr & Ho & Hlt).
  assert (Hids : map modal_id
            (map (fun m => if decide (modal_id m = id)
                           then relayout (innerWidth p) (innerHeight p) m else m) (modals p))
          = map modal_id (modals p)).
  { rewrite map_map. apply map_ext. intros m. destruct (decide _); reflexivity. }
  unfold window_listeners_ok, run_updateLayout; cbn. rewrite Hids. auto.
Qed.

Lemma dispatch_ok listeners handler p :
  (∀ id q, window_listeners_ok q → window_listeners_ok (handler id q)) →
  window_listeners_ok p → window_listeners_ok (dispatch listeners handler p).
Proof.
  intros Hh. unfold dispatch. revert p.
  induction listeners as [|id l IH]; intros p Hp; cbn; [exact Hp|].
  apply IH, Hh, Hp.
Qed.

(** Every event keeps the window listeners in step with the modals of the
    document: whichever way a modal leaves the document, its resize and
    orientationchange listeners leave with it. *)
Lemma step_window_listeners st e :
  window_listeners_ok (player_of st) → window_listeners_ok (player_of (step st e)).
Proof.
  intros H. destruct e as [pf videoId title|k|id|id|key|vw vh|vw vh].
  - destruct pf.
    + rewrite step_open_youtube. apply build_modal_ok, remove_existing_ok, H.
    + rewrite step_open_vimeo. apply remove_existing_ok in H. exact H.
  - destruct (awaiting (player_of st) !! k) as [c|] eqn:Hk.
    + destruct (step_info_arrives st k c Hk) as (aspect & ->).
      apply build_modal_ok. exact H.
    + unfold step, handle, showVideoPlayer_resume, eff_bind, get_player.
      rewrite Hk. exact H.
  - rewrite step_click_close. destruct (is_attached id _); [apply detach_ok|]; exact H.
  - rewrite step_click_backdrop. destruct (is_attached id _); [apply detach_ok|]; exact H.
  - rewrite step_keydown. apply dispatch_ok; [|exact H].
    intros; apply escHandler_ok; assumption.
  - change (player_of (step st (Resize vw vh)))
      with (dispatch (on_resize (set_viewport vw vh (player_of st))) run_updateLayout
              (set_viewport vw vh (player_of st))).
    apply dispatch_ok; [intros; apply run_updateLayout_ok; assumption|exact H].
  - change (player_of (step st (OrientationChange vw vh)))
      with (dispatch (on_orientationchange (set_viewport vw vh (player_of st)))
              run_updateLayout (set_viewport vw vh (player_of st))).
    apply dispatch_ok; [intros; apply run_updateLayout_ok; assumption|exact H].
Qed.

Lemma run_events_window_listeners es : ∀ st,
  window_listeners_ok (player_of st) → window_listeners_ok (player_of (run_events st es)).
Proof.
  induction es as [|e es IH]; intros st H; [exact H|].
  cbn. apply IH, step_window_listeners, H.
Qed.

(** A click on the close button or on the backdrop, and an open that
    replaces a modal, leave the keydown listeners of the document as they
    were: no click path removes one. *)
Lemma click_keeps_keydown st id :
  on_keydown (player_of (step st (ClickClose id))) = on_keydown (player_of st)
  ∧ on_keydown (player_of (step st (ClickBackdrop id))) = on_keydown (player_of st).
Proof.
  rewrite step_click_close, step_click_backdrop.
  destruct (is_attached id (player_of st)); split; reflexivity.
Qed.

Lemma open_keeps_keydown st videoId title :
  on_keydown (player_of (step st (Open youtube videoId title)))
  = on_keydown (player_of st) ++ [next_id (player_of st)].
Proof.
  rewrite step_open_youtube. unfold build_modal, remove_existing. cbn.
  destruct (modals (player_of st)); reflexivity.
Qed.

(** C1, the defect. A YouTube video is opened and its modal is closed by a
    click on the close button, by a click on the backdrop, or replaced by a
    second open: the modal and its two window listeners are gone, and the
    Escape listener that the closed modal registered on the document is
    still registered (two of them after a replacement). Only the Escape key
    removes it. *)
Theorem escape_listener_outlives_modal :
  ∀ videoId title videoId' title',
    let opened := run_events (initial_page [] 1280 720) [Open youtube videoId title] in
    let closed := player_of (step opened (ClickClose 0)) in
    let dismissed := player_of (step opened (ClickBackdrop 0)) in
    let replaced := player_of (step opened (Open youtube videoId' title')) in
    let escaped := player_of (step opened (KeyDown "Escape")) in
    (modals closed = [] ∧ on_resize closed = [] ∧ on_orientationchange closed = []
     ∧ on_keydown closed = [0%nat])
    ∧ (modals dismissed = [] ∧ on_resize dismissed = [] ∧ on_orientationchange dismissed = []
       ∧ on_keydown dismissed = [0%nat])
    ∧ (map modal_id (modals replaced) = [1%nat] ∧ on_resize replaced = [1%nat]
       ∧ on_orientationchange replaced = [1%nat] ∧ on_keydown replaced = [0%nat; 1%nat])
    ∧ (modals escaped = [] ∧ on_resize escaped = [] ∧ on_orientationchange escaped = []
       ∧ on_keydown escaped = []).
Proof. intros. repeat split; reflexivity. Qed.

(** C3, the defect. Two Vimeo videos are opened one after the other before
    the dimensions of the first have arrived (a double click on a Vimeo card
    does this); when both calls resume, each appends its modal, and the
    document holds two modals. *)
Theorem overlapping_opens_leave_two_modals :
  ∀ cards vw vh videoId title videoId' title',
    let st := run_events (initial_page cards vw vh)
                [Open vimeo videoId title; Open vimeo videoId' title';
                 InfoArrives 0; InfoArrives 0] in
    map modal_id (modals (player_of st)) = [0%nat; 1%nat]
    ∧ map iframe_src (modals (player_of st))
      = ["https://player.vimeo.com/video/" +:+ to_string videoId +:+ "?autoplay=1";
         "https://player.vimeo.com/video/" +:+ to_string videoId' +:+ "?autoplay=1"].
Proof.
  intros cards vw vh videoId title videoId' title'.
  cbn [run_events foldl].
  set (st2 := step (step (initial_page cards vw vh) (Open vimeo videoId title))
                (Open vimeo videoId' title')).
  assert (H2 : player_of st2
               = {| modals := []; on_resize := []; on_orientationchange := [];
                    on_keydown := [];
                    awaiting := [ {| call_videoId := videoId; call_title := title |};
                                  {| call_videoId := videoId'; call_title := title' |} ];
                    innerWidth := vw; innerHeight := vh; next_id := 0 |}) by reflexivity.
  destruct (step_info_arrives st2 0 {| call_videoId := videoId; call_title := title |})
    as (a1 & H3); [rewrite H2; reflexivity|].
  set (st3 := step st2 (InfoArrives 0)) in *.
  rewrite H2 in H3.
  destruct (step_info_arrives st3 0 {| call_videoId := videoId'; call_title := title' |})
    as (a2 & H4); [rewrite H3; reflexivity|].
  rewrite H4, H3. split; reflexivity.
Qed.

(** When the opens do not overlap, there is one modal after each of them:
    a YouTube open replaces the modal of the document at once, and a Vimeo
    open whose dimensions arrive before anything else happens does too. *)
Lemma sequential_open_one_modal st pf videoId title :
  (length (modals (player_of st)) ≤ 1)%nat →
  awaiting (player_of st) = [] →
  let st' := match pf with
             | youtube => step st (Open youtube videoId title)
             | vimeo => step (step st (Open vimeo videoId title)) (InfoArrives 0)
             end in
  length (modals (player_of st')) = 1%nat ∧ awaiting (player_of st') = [].
Proof.
  intros Hlen Haw.
  assert (Hrm : modals (remove_existing (player_of st)) = []
                ∧ awaiting (remove_existing (player_of st)) = []).
  { unfold remove_existing. destruct (modals (player_of st)) as [|m [|m' ms]] eqn:Hm.
    - rewrite Hm. auto.
    - unfold detach; cbn. rewrite Hm, filter_cons. cbn.
      destruct (decide (modal_id m ≠ modal_id m)); [congruence|]. auto.
    - cbn in Hlen. lia. }
  destruct Hrm as [Hm0 Ha0].
  destruct pf; cbn zeta.
  - rewrite step_open_youtube. cbn. rewrite Hm0. auto.
  - set (st1 := step st (Open vimeo videoId title)).
    assert (H1 : player_of st1
                 = suspend {| call_videoId := videoId; call_title := title |}
                     (remove_existing (player_of st))) by apply step_open_vimeo.
    destruct (step_info_arrives st1 0 {| call_videoId := videoId; call_title := title |})
      as (a & ->).
    { rewrite H1. cbn. rewrite Ha0. reflexivity. }
    rewrite H1. cbn. rewrite Hm0, Ha0. auto.
Qed.

(** ** The passes over the cards *)

Lemma forEach_from_cons {A} i (a : A) l body st :
  forEach_from i (a :: l) body st
  = match body a i st with
    | (Ok _, st') => forEach_from (S i) l body st'
    | (Throw e, st') => (Throw e, st')
    end.
Proof. reflexivity. Qed.

Lemma alter_middle {A} (f : A → A) (pre : list A) (c : A) (l : list A) :
  alter f (length pre) (pre ++ c :: l) = pre ++ f c :: l.
Proof.
  replace (length pre) with (length pre + 0)%nat by lia.
  rewrite alter_app_r. reflexivity.
Qed.

Lemma snoc_app {A} (pre : list A) (c : A) (l : list A) :
  pre ++ c :: l = (pre ++ [c]) ++ l.
Proof. rewrite <- app_assoc. reflexivity. Qed.

Lemma animate_from l : ∀ pre st,
  grid st = pre ++ l →
  forEach_from (length pre) l
    (fun (_ : card) index =>
       update_card index hide_card ;;; setTimeout (100 + index * 100) index) st
  = (Ok tt,
     {| grid := pre ++ map hide_card l;
        timers := timers st ++ entrance_timers (length pre) (length l);
        console := console st;
        requests := requests st;
        player_of := player_of st |}).
Proof.
  induction l as [|c l IH]; intros pre st Hg.
  - cbn. unfold eff_ret, entrance_timers. cbn.
    rewrite app_nil_r in Hg. rewrite !app_nil_r, <- Hg.
    destruct st; reflexivity.
  - rewrite forEach_from_cons.
    unfold update_card, setTimeout, eff_bind, get_grid, set_grid. cbn [grid timers console requests player_of].
    rewrite Hg, alter_middle.
    specialize (IH (pre ++ [hide_card c])).
    rewrite length_app in IH. cbn [length] in IH.
    replace (length pre + 1)%nat with (S (length pre)) in IH by lia.
    rewrite IH by (cbn; apply snoc_app).
    cbn [grid timers console requests player_of].
    f_equal. f_equal.
    + rewrite <- app_assoc. reflexivity.
    + unfold entrance_timers. cbn [length seq map]. rewrite <- app_assoc. reflexivity.
Qed.

Lemma animateCardsIn_run st :
  animateCardsIn st
  = (Ok tt,
     {| grid := map hide_card (grid st);
        timers := timers st ++ entrance_timers 0 (length (grid st));
        console := console st;
        requests := requests st;
        player_of := player_of st |}).
Proof.
  unfold animateCardsIn, eff_bind, get_grid, forEach.
  apply (animate_from (grid st) [] st). reflexivity.
Qed.

Lemma fetchYouTubeViews_run videoId st :
  ∃ st', fetchYouTubeViews videoId st
         = (Ok (try_catch (views_of_response videoId) (fun _ => VNull)), st')
    ∧ grid st' = grid st ∧ timers st' = timers st ∧ player_of st' = player_of st
    ∧ requests st' = requests st ++ [views_api videoId].
Proof.
  unfold fetchYouTubeViews, try_eff, eff_bind, send_request, lift.
  destruct (views_of_response videoId) as [v|e]; cbn; eexists; repeat split.
Qed.

Lemma fetchVimeoThumbnail_run vimeoId st :
  ∃ st', fetchVimeoThumbnail vimeoId st
         = (Ok (try_catch (thumbnail_of_response vimeoId) (fun _ => VNull)), st')
    ∧ grid st' = grid st ∧ timers st' = timers st ∧ player_of st' = player_of st
    ∧ requests st' = requests st ++ [vimeo_api vimeoId].
Proof.
  unfold fetchVimeoThumbnail, try_eff, eff_bind, send_request, lift.
  destruct (thumbnail_of_response vimeoId) as [v|e]; cbn; eexists; repeat split.
Qed.

Lemma views_from l : ∀ pre st,
  grid st = pre ++ l →
  ∃ st', forEach_from (length pre) l views_callback st = (Ok tt, st')
    ∧ grid st' = pre ++ map views_pass l
    ∧ timers st' = timers st ∧ player_of st' = player_of st
    ∧ requests st'
      = requests st ++ map (fun c => views_api (dataset_videoId c))
                           (filter (fun c => has_platform "youtube" c = true) l).
Proof.
  induction l as [|c l IH]; intros pre st Hg.
  - exists st. cbn. rewrite app_nil_r in Hg. rewrite !app_nil_r. auto.
  - rewrite forEach_from_cons.
    assert (Hstep : ∃ st1, views_callback c (length pre) st = (Ok tt, st1)
              ∧ grid st1 = (pre ++ [views_pass c]) ++ l
              ∧ timers st1 = timers st ∧ player_of st1 = player_of st
              ∧ requests st1
                = requests st ++ (if has_platform "youtube" c
                                  then [views_api (dataset_videoId c)] else [])).
    { unfold views_callback, views_pass.
      destruct (has_platform "youtube" c).
      - destruct (fetchYouTubeViews_run (dataset_videoId c) st)
          as (st1 & Hrun & Hg1 & Ht1 & Hp1 & Hr1).
        unfold eff_bind at 1. rewrite Hrun.
        destruct (negb (is_null _)).
        + unfold update_card, eff_bind, get_grid, set_grid.
          eexists. split; [reflexivity|]. cbn.
          rewrite Hg1, Hg, alter_middle, <- snoc_app. auto.
        + exists st1. split; [reflexivity|].
          rewrite Hg1, Hg, <- snoc_app. auto.
      - exists st. split; [reflexivity|]. rewrite app_nil_r, <- snoc_app. auto. }
    destruct Hstep as (st1 & -> & Hg1 & Ht1 & Hp1 & Hr1).
    specialize (IH (pre ++ [views_pass c]) st1 Hg1).
    rewrite length_app in IH. cbn [length] in IH.
    replace (length pre + 1)%nat with (S (length pre)) in IH by lia.
    destruct IH as (st' & -> & Hg' & Ht' & Hp' & Hr').
    exists st'. split; [reflexivity|].
    rewrite Hg', Ht', Hp', Hr', Hr1, <- !app_assoc. cbn [map app].
    repeat split; try congruence.
    rewrite filter_cons. destruct (has_platform "youtube" c) eqn:Hy.
    + destruct (decide (true = true)); [|congruence]. reflexivity.
    + destruct (decide (false = true)); [congruence|]. reflexivity.
Qed.

Lemma updateAllViewCounts_run st :
  ∃ st', updateAllViewCounts st = (Ok tt, st')
    ∧ grid st' = map views_pass (grid st)
    ∧ timers st' = timers st ∧ player_of st' = player_of st
    ∧ requests st'
      = requests st ++ map (fun c => views_api (dataset_videoId c))
                           (filter (fun c => has_platform "youtube" c = true) (grid st)).
Proof. apply (views_from (grid st) [] st). reflexivity. Qed.

Lemma thumbnails_from l : ∀ pre st,
  grid st = pre ++ l →
  ∃ st', forEach_from (length pre) l thumbnail_callback st = (Ok tt, st')
    ∧ grid st' = pre ++ map thumbnail_pass l
    ∧ timers st' = timers st ∧ player_of st' = player_of st
    ∧ requests st'
      = requests st ++ map (fun c => vimeo_api (dataset_videoId c))
                           (filter (fun c => wants_thumbnail c = true) l).
Proof.
  induction l as [|c l IH]; intros pre st Hg.
  - exists st. cbn. rewrite app_nil_r in Hg. rewrite !app_nil_r. auto.
  - rewrite forEach_from_cons.
    assert (Hstep : ∃ st1, thumbnail_callback c (length pre) st = (Ok tt, st1)
              ∧ grid st1 = (pre ++ [thumbnail_pass c]) ++ l
              ∧ timers st1 = timers st ∧ player_of st1 = player_of st
              ∧ requests st1
                = requests st ++ (if wants_thumbnail c
                                  then [vimeo_api (dataset_videoId c)] else [])).
    { unfold thumbnail_callback, thumbnail_pass, wants_thumbnail.
      destruct (has_platform "vimeo" c); cbn [andb];
        [destruct (includes (thumb_background c) "linear-gradient")|].
      - destruct (fetchVimeoThumbnail_run (dataset_videoId c) st)
          as (st1 & Hrun & Hg1 & Ht1 & Hp1 & Hr1).
        unfold eff_bind at 1. rewrite Hrun.
        destruct (truthy _).
        + unfold update_card, eff_bind, get_grid, set_grid.
          eexists. split; [reflexivity|]. cbn.
          rewrite Hg1, Hg, alter_middle, <- snoc_app. auto.
        + exists st1. split; [reflexivity|].
          rewrite Hg1, Hg, <- snoc_app. auto.
      - exists st. split; [reflexivity|]. rewrite app_nil_r, <- snoc_app. auto.
      - exists st. split; [reflexivity|]. rewrite app_nil_r, <- snoc_app. auto. }
    destruct Hstep as (st1 & -> & Hg1 & Ht1 & Hp1 & Hr1).
    specialize (IH (pre ++ [thumbnail_pass c]) st1 Hg1).
    rewrite length_app in IH. cbn [length] in IH.
    replace (length pre + 1)%nat with (S (length pre)) in IH by lia.
    destruct IH as (st' & -> & Hg' & Ht' & Hp' & Hr').
    exists st'. split; [reflexivity|].
    rewrite Hg', Ht', Hp', Hr', Hr1, <- !app_assoc. cbn [map app].
    repeat split; try congruence.
    rewrite filter_cons. destruct (wants_thumbnail c) eqn:Hy.
    + destruct (decide (true = true)); [|congruence]. reflexivity.
    + destruct (decide (false = true)); [congruence|]. reflexivity.
Qed.

Lemma updateVimeoThumbnails_run st :
  ∃ st', updateVimeoThumbnails st = (Ok tt, st')
    ∧ grid st' = map thumbnail_pass (grid st)
    ∧ timers st' = timers st ∧ player_of st' = player_of st
    ∧ requests st'
      = requests st ++ map (fun c => vimeo_api (dataset_videoId c))
                           (filter (fun c => wants_thumbnail c = true) (grid st)).
Proof. apply (thumbnails_from (grid st) [] st). reflexivity. Qed.

(** The animation and the two passes, together: every card of the container
    is hidden for its entrance, then enriched; no card is added or removed. *)
Lemma post_render_run st :
  ∃ st', post_render st = (Ok tt, st')
    ∧ grid st' = map (fun c => thumbnail_pass (views_pass (hide_card c))) (grid st)
    ∧ timers st' = timers st ++ entrance_timers 0 (length (grid st))
    ∧ player_of st' = player_of st.
Proof.
  unfold post_render, eff_bind at 1. rewrite animateCardsIn_run.
  set (st1 := {| grid := map hide_card (grid st) |}).
  destruct (updateAllViewCounts_run st1) as (st2 & Hrun2 & Hg2 & Ht2 & Hp2 & _).
  unfold eff_bind. rewrite Hrun2.
  destruct (updateVimeoThumbnails_run st2) as (st3 & Hrun3 & Hg3 & Ht3 & Hp3 & _).
  exists st3. split; [exact Hrun3|].
  rewrite Hg3, Hg2, Ht3, Ht2, Hp3, Hp2. subst st1. cbn.
  rewrite !map_map. auto.
Qed.

(** ** View counts *)

Lemma fetchYouTubeViews_value videoId st :
  (fetchYouTubeViews videoId st).1
  = Ok (try_catch (views_of_response videoId) (fun _ => VNull)).
Proof.
  destruct (fetchYouTubeViews_run videoId st) as (st' & -> & _). reflexivity.
Qed.

(** The view-count fetch as the code has it. It never throws. When the
    request and the parse succeed and the body's [views] is a number other
    than 0, that number is returned; when it is 0 the result is null
    ([data.views || null]), which is where the code departs from C2; on a
    network failure and on a parse failure the result is null. And a card
    whose fetch returned null is left by the caller as it was, its
    view-count text included. *)
Theorem fetchYouTubeViews_result :
  ∀ videoId st,
    (∃ v, (fetchYouTubeViews videoId st).1 = Ok v)
    ∧ (∀ body kvs n,
         fetch_text (views_api videoId) = Ok body →
         JSON_parse body = Ok (VObj kvs) →
         assoc "views" kvs = VNum (Int n) →
         (fetchYouTubeViews videoId st).1
         = Ok (if n =? 0 then VNull else VNum (Int n)))
    ∧ (∀ e, fetch_text (views_api videoId) = Throw e →
            (fetchYouTubeViews videoId st).1 = Ok VNull)
    ∧ (∀ body e,
         fetch_text (views_api videoId) = Ok body →
         JSON_parse body = Throw e →
         (fetchYouTubeViews videoId st).1 = Ok VNull)
    ∧ (∀ i c,
         grid st !! i = Some c →
         (fetchYouTubeViews (dataset_videoId c) st).1 = Ok VNull →
         grid (updateAllViewCounts st).2 !! i = Some c).
Proof.
  intros videoId st. rewrite !fetchYouTubeViews_value.
  split; [eauto|].
  split.
  { intros body kvs n Hf Hp Hv. unfold views_of_response. rewrite Hf. cbn.
    rewrite Hp. cbn. rewrite Hv. unfold js_or. cbn.
    destruct (n =? 0); reflexivity. }
  split.
  { intros e Hf. unfold views_of_response. rewrite Hf. reflexivity. }
  split.
  { intros body e Hf Hp. unfold views_of_response. rewrite Hf. cbn. rewrite Hp. reflexivity. }
  intros i c Hi Hnull. rewrite fetchYouTubeViews_value in Hnull.
  destruct (updateAllViewCounts_run st) as (st' & -> & Hg & _). cbn.
  rewrite Hg, list_lookup_fmap, Hi. cbn. f_equal.
  unfold views_pass. destruct (has_platform "youtube" c); [|reflexivity].
  injection Hnull as ->. reflexivity.
Qed.

(** ** Catalog loader: failure *)

Lemma run_entrance l : ∀ pre,
  foldl (fun g (t : nat * nat) => alter show_card t.2 g) (pre ++ l)
        (entrance_timers (length pre) (length l))
  = pre ++ map show_card l.
Proof.
  induction l as [|c l IH]; intros pre; [reflexivity|].
  unfold entrance_timers. cbn [length seq map foldl snd].
  rewrite alter_middle, snoc_app.
  specialize (IH (pre ++ [show_card c])).
  rewrite length_app in IH. cbn [length] in IH.
  replace (length pre + 1)%nat with (S (length pre)) in IH by lia.
  unfold entrance_timers in IH. rewrite IH, <- app_assoc. reflexivity.
Qed.

Lemma catch_run msg st :
  (log msg ;;; animateCardsIn) st
  = (Ok tt,
     {| grid := map hide_card (grid st);
        timers := timers st ++ entrance_timers 0 (length (grid st));
        console := console st ++ [msg];
        requests := requests st;
        player_of := player_of st |}).
Proof. unfold eff_bind, log. rewrite animateCardsIn_run. reflexivity. Qed.

(** C6, as amended. When the response text does not match the envelope
    pattern, or the payload it holds is not valid JSON, the loader returns
    without throwing; the container is neither emptied nor rebuilt: it holds
    the same cards in the same order, each with its content as before and
    hidden for the entrance animation, which is run again on them (once its
    timers have fired each card carries the styles of a shown card); one
    line is logged, and the modal player is not touched. *)
Theorem load_failure_keeps_cards :
  ∀ st body,
    fetch_text SHEET_URL = Ok body →
    (js_match (VStr body) envelope_re = Ok None
     ∨ ∃ payload e, js_match (VStr body) envelope_re = Ok (Some payload)
                    ∧ JSON_parse (to_string payload) = Throw e) →
    ∃ st', loadVideosFromSheet st = (Ok tt, st')
      ∧ grid st' = map hide_card (grid st)
      ∧ timers st' = timers st ++ entrance_timers 0 (length (grid st))
      ∧ console st'
        = console st ++ ["Could not load from Google Sheets, using default content:"]
      ∧ requests st' = requests st ++ [SHEET_URL]
      ∧ player_of st' = player_of st
      ∧ (timers st = [] → grid (run_timers st') = map show_card (grid st)).
Proof.
  intros st body Hf Hcause.
  assert (Hrun : loadVideosFromSheet st
            = (log "Could not load from Google Sheets, using default content:" ;;;
               animateCardsIn)
                {| grid := grid st; timers := timers st; console := console st;
                   requests := requests st ++ [SHEET_URL]; player_of := player_of st |}).
  { unfold loadVideosFromSheet, try_eff, fetch, send_request, lift.
    unfold eff_bind at 1. unfold eff_bind at 1. rewrite Hf.
    unfold eff_bind at 1.
    destruct Hcause as [Hm|(payload & e & Hm & Hp)]; rewrite Hm.
    - reflexivity.
    - unfold eff_bind at 1. rewrite Hp. reflexivity. }
  rewrite Hrun, catch_run. eexists. split; [reflexivity|].
  cbn [grid timers console requests player_of].
  repeat split.
  intros Ht. unfold run_timers. cbn [grid timers]. rewrite Ht. cbn [app].
  pose proof (run_entrance (map hide_card (grid st)) []) as Hrun'.
  cbn [app length] in Hrun'. rewrite length_map in Hrun'.
  rewrite Hrun', map_map. reflexivity.
Qed.

(** ** Catalog loader: success *)

(** Up to the rebuilding of the container, a load whose response parses
    only sends its request and logs two lines. *)
Lemma load_parsed st body payload data table cols names rows :
  fetch_text SHEET_URL = Ok body →
  js_match (VStr body) envelope_re = Ok (Some payload) →
  JSON_parse (to_string payload) = Ok data →
  prop data "table" = Ok table →
  prop table "cols" = Ok cols →
  resolve_cols cols = Ok names →
  prop table "rows" = Ok rows →
  loadVideosFromSheet st
  = try_eff (rebuild_grid names rows ;;; post_render)
      (fun error =>
         log "Could not load from Google Sheets, using default content:" ;;;
         animateCardsIn)
      {| grid := grid st; timers := timers st;
         console := console st ++ ["Columns:"; "Rows:"];
         requests := requests st ++ [SHEET_URL]; player_of := player_of st |}.
Proof.
  intros Hf Hm Hp Ht Hc Hn Hr.
  unfold loadVideosFromSheet, try_eff, fetch, send_request, lift.
  unfold eff_bind at 1. unfold eff_bind at 1. rewrite Hf.
  unfold eff_bind at 1. rewrite Hm.
  unfold eff_bind at 1. rewrite Hp.
  unfold eff_bind at 1. rewrite Ht. cbn [mbind result_bind]. rewrite Hr.
  unfold eff_bind at 1. rewrite Hc. cbn [mbind result_bind]. rewrite Hn.
  unfold eff_bind at 1. unfold log at 1. cbn [grid timers console requests player_of].
  unfold eff_bind at 1. unfold log at 1. cbn [grid timers console requests player_of].
  rewrite <- app_assoc. reflexivity.
Qed.

(** C9. The response parses and its table has at most one row: the loader
    returns normally and the container is not emptied; what it holds
    afterwards are the cards it held before, in place, each hidden for the
    entrance animation and passed through the two enrichment steps. *)
Theorem short_table_keeps_cards :
  ∀ st body payload data table cols names rows,
    fetch_text SHEET_URL = Ok body →
    js_match (VStr body) envelope_re = Ok (Some payload) →
    JSON_parse (to_string payload) = Ok data →
    prop data "table" = Ok table →
    prop table "cols" = Ok cols →
    resolve_cols cols = Ok names →
    prop table "rows" = Ok (VArr rows) →
    (length rows ≤ 1)%nat →
    ∃ st', loadVideosFromSheet st = (Ok tt, st')
      ∧ grid st' = map (fun c => thumbnail_pass (views_pass (hide_card c))) (grid st)
      ∧ length (grid st') = length (grid st)
      ∧ timers st' = timers st ++ entrance_timers 0 (length (grid st))
      ∧ player_of st' = player_of st.
Proof.
  intros st body payload data table cols names rows Hf Hm Hp Ht Hc Hn Hr Hlen.
  rewrite (load_parsed st body payload data table cols names (VArr rows)) by assumption.
  set (st1 := {| grid := grid st |}).
  assert (Hskip : rebuild_grid names (VArr rows) st1 = (Ok tt, st1)).
  { unfold rebuild_grid. cbn [truthy]. unfold eff_bind, lift.
    change (prop (VArr rows) "length") with (Ok (VNum (Int (Z.of_nat (length rows))))).
    assert (Hgt : js_gt (VNum (Int (Z.of_nat (length rows)))) 1 = false).
    { unfold js_gt. cbn. apply Z.ltb_ge. lia. }
    cbv beta iota. rewrite Hgt. reflexivity. }
  unfold try_eff, eff_bind. rewrite Hskip.
  destruct (post_render_run st1) as (st' & -> & Hg & Htm & Hpl).
  exists st'. split; [reflexivity|]. subst st1. cbn in Hg, Htm, Hpl.
  rewrite Hg, length_map. auto.
Qed.

(** ** Rendering the rows *)

Lemma getYouTubeId_text s : ∃ v, getYouTubeId (VStr s) = Ok v.
Proof.
  unfold getYouTubeId. destruct (negb (truthy (VStr s))); [eauto|].
  cbn. eauto.
Qed.

Lemma getVimeoId_text s : ∃ v, getVimeoId (VStr s) = Ok v.
Proof.
  unfold getVimeoId. destruct (negb (truthy (VStr s))); [eauto|].
  cbn. eauto.
Qed.

Lemma getVideoPlatform_text s : ∃ r, getVideoPlatform (VStr s) = Ok r.
Proof.
  unfold getVideoPlatform.
  destruct (getYouTubeId_text s) as (y & ->). cbn.
  destruct (truthy y); [eauto|].
  destruct (getVimeoId_text s) as (v & ->). cbn.
  destruct (truthy v); eauto.
Qed.

Lemma video_url_text video :
  well_formed_record video → ∃ s, video_url video = VStr s.
Proof.
  intros (_ & H1 & H2). unfold video_url, js_or.
  assert (Hlast : ∀ v, text_or_falsy v →
            ∃ s, (if truthy v then v else VStr "") = VStr s).
  { intros v [Hv|(s & ->)].
    - rewrite Hv. eauto.
    - destruct (truthy (VStr s)); eauto. }
  destruct H1 as [H1|(s & H1)].
  - rewrite H1. apply Hlast, H2.
  - rewrite H1. destruct (truthy (VStr s)) eqn:Hs.
    + rewrite Hs. eauto.
    + apply Hlast, H2.
Qed.

Lemma palette_entry d :
  ∃ g, FALLBACK_GRADIENTS !! (d mod 6)%nat = Some g
       ∧ gradient_background d
         = "linear-gradient(135deg, " +:+ g.1 +:+ ", " +:+ g.2 +:+ ")".
Proof.
  unfold gradient_background. change (length FALLBACK_GRADIENTS) with 6%nat.
  pose proof (Nat.mod_upper_bound d 6) as Hlt.
  destruct (d mod 6)%nat as [|[|[|[|[|[|n]]]]]]; try (eexists; split; reflexivity).
  lia.
Qed.

Lemma createVideoCard_rendered video d :
  well_formed_record video → ∃ c, rendered (d, video) c.
Proof.
  intros Hwf. destruct (video_url_text video Hwf) as (s & Hs).
  unfold rendered, createVideoCard, lacks_thumbnail. cbn [fst snd]. rewrite Hs.
  destruct (getVideoPlatform_text s) as (r & ->). cbn [mbind result_bind].
  unfold getThumbnail.
  destruct (truthy (field video "thumbnail")) eqn:Hcustom.
  - cbn [mbind result_bind]. eexists. split; [reflexivity|].
    intros [Hno _]. discriminate.
  - destruct (getYouTubeId_text s) as (y & Hy). rewrite Hy. cbn [mbind result_bind].
    destruct (truthy y) eqn:Hty.
    + cbn [mbind result_bind]. eexists. split; [reflexivity|].
      intros [_ Hnull]. injection Hnull as ->. discriminate.
    + cbn [mbind result_bind]. eexists. split; [reflexivity|].
      intros _. cbn [thumb_background truthy]. apply palette_entry.
Qed.

Lemma truthy_title video :
  well_formed_record video → truthy (field video "title") = has_title video.
Proof.
  intros ([H|(s & H)] & _); unfold has_title.
  - destruct (field video "title") as [| |b|[|n]|s|l|kvs];
      cbn in H |- *; solve [reflexivity | discriminate | exact H].
  - rewrite H. reflexivity.
Qed.

Lemma render_rows_from names : ∀ data_rows videos d st,
  Forall2 (fun row video => parse_row names row = Ok video ∧ well_formed_record video)
          data_rows videos →
  ∃ cards st',
    forEach_from d data_rows (render_row names) st = (Ok tt, st')
    ∧ grid st' = grid st ++ cards
    ∧ Forall2 rendered (titled_from d videos) cards
    ∧ timers st' = timers st ∧ player_of st' = player_of st
    ∧ requests st' = requests st.
Proof.
  induction data_rows as [|row rows IH]; intros videos d st Hrows.
  - apply Forall2_nil_inv_l in Hrows as ->. exists [], st. cbn.
    rewrite app_nil_r. repeat split. constructor.
  - apply Forall2_cons_inv_l in Hrows as (video & videos' & [Hparse Hwf] & Hrest & ->).
    rewrite forEach_from_cons.
    unfold render_row at 1, eff_bind at 1, lift. rewrite Hparse.
    unfold eff_bind at 1, log at 1.
    rewrite (truthy_title video Hwf). cbn [titled_from].
    destruct (has_title video).
    + destruct (createVideoCard_rendered video d Hwf) as (c & Hc).
      pose proof Hc as [Hmake _]. cbn [fst snd] in Hmake.
      unfold eff_bind at 1. rewrite Hmake.
      unfold appendChild, eff_bind, get_grid, set_grid.
      cbn [grid timers console requests player_of].
      match goal with |- context [forEach_from (S d) rows (render_row names) ?s] =>
        destruct (IH videos' (S d) s Hrest) as (cards & st' & -> & Hg & Hall & Ht & Hp & Hr)
      end.
      cbn [grid timers console requests player_of] in Hg, Ht, Hp, Hr.
      exists (c :: cards), st'. split; [reflexivity|].
      rewrite Hg, <- app_assoc. repeat split; try assumption.
      constructor; assumption.
    + unfold eff_ret.
      match goal with |- context [forEach_from (S d) rows (render_row names) ?s] =>
        destruct (IH videos' (S d) s Hrest) as (cards & st' & -> & Hg & Hall & Ht & Hp & Hr)
      end.
      cbn [grid timers console requests player_of] in Hg, Ht, Hp, Hr.
      exists cards, st'. repeat split; assumption.
Qed.

(** C7, as amended. Given a response that parses to a table with a header
    row followed by data rows whose records are well formed, the loader
    skips the header row, drops the rows without a non-empty title, and
    renders one card per remaining row, in row order. A rendered card
    without a thumbnail takes the palette entry at position [d mod 6], where
    [d] is the row's position among the data rows, counted from 0 with the
    dropped rows included (the row's index in the table less one). The
    container then holds these cards (or, when there is no data row, the
    cards it held before), hidden for the entrance animation and enriched. *)
Theorem rows_render_in_order :
  ∀ st body payload data table cols names header data_rows videos,
    fetch_text SHEET_URL = Ok body →
    js_match (VStr body) envelope_re = Ok (Some payload) →
    JSON_parse (to_string payload) = Ok data →
    prop data "table" = Ok table →
    prop table "cols" = Ok cols →
    resolve_cols cols = Ok names →
    prop table "rows" = Ok (VArr (header :: data_rows)) →
    Forall2 (fun row video => parse_row names row = Ok video ∧ well_formed_record video)
            data_rows videos →
    ∃ cards st',
      loadVideosFromSheet st = (Ok tt, st')
      ∧ Forall2 rendered (titled_from 0 videos) cards
      ∧ grid st' = map (fun c => thumbnail_pass (views_pass (hide_card c)))
                       (match data_rows with [] => grid st | _ :: _ => cards end).
Proof.
  intros st body payload data table cols names header data_rows videos
         Hf Hm Hp Ht Hc Hn Hr Hrows.
  rewrite (load_parsed st body payload data table cols names
             (VArr (header :: data_rows))) by assumption.
  set (st1 := {| grid := grid st |}).
  assert (Hbuild : ∃ cards st2,
            rebuild_grid names (VArr (header :: data_rows)) st1 = (Ok tt, st2)
            ∧ Forall2 rendered (titled_from 0 videos) cards
            ∧ grid st2 = match data_rows with [] => grid st | _ :: _ => cards end).
  { unfold rebuild_grid. cbn [truthy]. unfold eff_bind at 1, lift.
    change (prop (VArr (header :: data_rows)) "length")
      with (Ok (VNum (Int (Z.of_nat (length (header :: data_rows)))))).
    cbv beta iota.
    destruct data_rows as [|row rows].
    - apply Forall2_nil_inv_l in Hrows as ->.
      exists [], st1. repeat split. constructor.
    - assert (Hgt : js_gt (VNum (Int (Z.of_nat (length (header :: row :: rows))))) 1 = true).
      { unfold js_gt. cbn [ToNumber]. apply Z.ltb_lt. cbn [length]. lia. }
      rewrite Hgt. unfold eff_bind, set_grid. cbn [grid timers console requests player_of drop].
      unfold forEach.
      match goal with |- context [forEach_from 0 (row :: rows) (render_row names) ?s] =>
        destruct (render_rows_from names (row :: rows) videos 0%nat s Hrows)
          as (cards & st2 & -> & Hg & Hall & _)
      end.
      exists cards, st2. repeat split; assumption. }
  destruct Hbuild as (cards & st2 & Hbuild & Hall & Hg2).
  unfold try_eff, eff_bind. rewrite Hbuild.
  destruct (post_render_run st2) as (st' & -> & Hg & _).
  exists cards, st'. split; [reflexivity|]. split; [exact Hall|].
  rewrite Hg, Hg2. reflexivity.
Qed.

(** ** Vimeo thumbnails *)

(** Cards whose thumbnail background does not contain the text
    [linear-gradient] are not fetched for and keep their thumbnail. *)
Lemma thumbnails_kept_without_gradient_text st :
  Forall (fun c => includes (thumb_background c) "linear-gradient" = false) (grid st) →
  ∃ st', updateVimeoThumbnails st = (Ok tt, st')
    ∧ grid st' = grid st ∧ requests st' = requests st.
Proof.
  intros Hall.
  destruct (updateVimeoThumbnails_run st) as (st' & Hrun & Hg & _ & _ & Hr).
  exists st'. split; [exact Hrun|]. rewrite Hg, Hr. clear Hrun Hg Hr.
  induction Hall as [|c l Hc Hall IH]; [split; [reflexivity|apply app_nil_r]|].
  destruct IH as [IHg IHr].
  assert (Hw : wants_thumbnail c = false).
  { unfold wants_thumbnail. rewrite Hc. apply andb_false_r. }
  cbn [map]. rewrite filter_cons, Hw.
  destruct (decide (false = true)); [congruence|].
  split; [|exact IHr].
  rewrite IHg. unfold thumbnail_pass. rewrite Hw. reflexivity.
Qed.

(** ** The matcher against the declarative reading of patterns *)

Lemma strip_prefix_app l s : strip_prefix l (l ++ s) = Some s.
Proof.
  induction l as [|a l IH]; [reflexivity|].
  cbn. rewrite Ascii.eqb_refl. exact IH.
Qed.

Lemma strip_prefix_inv l : ∀ s s', strip_prefix l s = Some s' → s = l ++ s'.
Proof.
  induction l as [|a l IH]; intros s s' H.
  - cbn in H. injection H as ->. reflexivity.
  - destruct s as [|b s]; [discriminate|]. cbn in H.
    destruct (Ascii.eqb a b) eqn:Hab; [|discriminate].
    apply Ascii.eqb_eq in Hab as ->. cbn. f_equal. apply IH, H.
Qed.

Lemma star_sound {A} p : ∀ s (k : list ascii → option A) x,
  star p s k = Some x →
  ∃ s1 rest, s = s1 ++ rest ∧ Forall (fun c => p c = true) s1 ∧ k rest = Some x.
Proof.
  induction s as [|c s IH]; intros k x H.
  - exists [], []. auto.
  - cbn in H. destruct (p c) eqn:Hc.
    + destruct (star p s k) as [y|] eqn:Hs.
      * injection H as ->. destruct (IH k x Hs) as (s1 & rest & -> & Hall & Hk).
        exists (c :: s1), rest. auto.
      * exists [], (c :: s). auto.
    + exists [], (c :: s). auto.
Qed.

Lemma star_complete {A} p : ∀ s1 rest (k : list ascii → option A),
  Forall (fun c => p c = true) s1 → is_Some (k rest) → is_Some (star p (s1 ++ rest) k).
Proof.
  induction s1 as [|c s1 IH]; intros rest k Hall Hk.
  - cbn. destruct rest as [|c rest]; [exact Hk|].
    cbn. destruct (p c); [|exact Hk].
    destruct (star p rest k); [eauto|exact Hk].
  - apply Forall_cons in Hall as [Hc Hall]. cbn. rewrite Hc.
    destruct (IH rest k Hall Hk) as (y & ->). eauto.
Qed.

(** With a continuation that accepts whatever is left, the greedy iteration
    takes the longest run. *)
Lemma star_greedy {A} p : ∀ s (k : list ascii → option A),
  (∀ t, is_Some (k t)) →
  ∃ s1 rest, s = s1 ++ rest ∧ Forall (fun c => p c = true) s1
             ∧ (rest = [] ∨ ∃ c rest', rest = c :: rest' ∧ p c = false)
             ∧ star p s k = k rest.
Proof.
  induction s as [|c s IH]; intros k Hk.
  - exists [], []. auto.
  - cbn. destruct (p c) eqn:Hc.
    + destruct (IH k Hk) as (s1 & rest & -> & Hall & Hend & ->).
      destruct (Hk rest) as (y & Hy). rewrite Hy.
      exists (c :: s1), rest. rewrite Hy. auto.
    + exists [], (c :: s). repeat split; eauto.
Qed.

Lemma run_sound {A} r : ∀ s cap (k : list ascii → capture → option A) x,
  run r s cap k = Some x →
  ∃ s1 rest cap', s = s1 ++ rest ∧ matches r s1 rest cap cap' ∧ k rest cap' = Some x.
Proof.
  induction r as [l|r1 IH1 r2 IH2|r1 IH1 r2 IH2|p|p|r IH|r IH|]; intros s cap k x H; cbn in H.
  - destruct (strip_prefix l s) as [s'|] eqn:Hl; [|discriminate].
    apply strip_prefix_inv in Hl as ->. exists l, s', cap.
    split; [reflexivity|]. split; [apply matches_Lit|exact H].
  - apply IH1 in H as (s1 & rest1 & c1 & -> & Hm1 & H).
    apply IH2 in H as (s2 & rest & c2 & -> & Hm2 & H).
    exists (s1 ++ s2), rest, c2. rewrite <- app_assoc.
    split; [reflexivity|]. split; [eapply matches_Seq; eassumption|exact H].
  - destruct (run r1 s cap k) as [y|] eqn:H1.
    + injection H as ->. apply IH1 in H1 as (s1 & rest & c' & -> & Hm & Hk).
      exists s1, rest, c'. split; [reflexivity|]. split; [apply matches_Alt_l, Hm|exact Hk].
    + apply IH2 in H as (s1 & rest & c' & -> & Hm & Hk).
      exists s1, rest, c'. split; [reflexivity|]. split; [apply matches_Alt_r, Hm|exact Hk].
  - apply star_sound in H as (s1 & rest & -> & Hall & Hk).
    exists s1, rest, cap. split; [reflexivity|]. split; [apply matches_Star, Hall|exact Hk].
  - destruct s as [|c s]; [discriminate|]. destruct (p c) eqn:Hc; [|discriminate].
    apply star_sound in H as (s1 & rest & -> & Hall & Hk).
    exists (c :: s1), rest, cap. split; [reflexivity|]. split; [|exact Hk].
    apply matches_Plus; [discriminate|]. constructor; assumption.
  - destruct (run r s cap k) as [y|] eqn:H1.
    + injection H as ->. apply IH in H1 as (s1 & rest & c' & -> & Hm & Hk).
      exists s1, rest, c'. split; [reflexivity|]. split; [apply matches_Opt_some, Hm|exact Hk].
    + exists [], s, cap. split; [reflexivity|]. split; [apply matches_Opt_none|exact H].
  - apply IH in H as (s1 & rest & c' & -> & Hm & Hk).
    rewrite length_app in Hk.
    replace (length s1 + length rest - length rest)%nat with (length s1) in Hk by lia.
    rewrite take_app_length in Hk.
    exists s1, rest, (Some s1). split; [reflexivity|]. split; [eapply matches_Group, Hm|exact Hk].
  - destruct s; [|discriminate]. exists [], [], cap.
    split; [reflexivity|]. split; [apply matches_Eos|exact H].
Qed.

Lemma run_complete {A} r s1 rest cap cap' :
  matches r s1 rest cap cap' →
  ∀ k : list ascii → capture → option A,
    is_Some (k rest cap') → is_Some (run r (s1 ++ rest) cap k).
Proof.
  induction 1 as [l rest cap|r1 r2 s1 s2 rest c0 c1 c2 _ IH1 _ IH2
                  |r1 r2 s rest c c' _ IH|r1 r2 s rest c c' _ IH
                  |p s rest cap Hall|p s rest cap Hne Hall
                  |r s rest c c' _ IH|r rest cap|r s rest c c' _ IH|cap];
    intros k Hk; cbn.
  - rewrite strip_prefix_app. exact Hk.
  - rewrite <- app_assoc. apply IH1, IH2, Hk.
  - destruct (IH k Hk) as (y & ->). eauto.
  - destruct (run r1 (s ++ rest) c k); [eauto|]. apply IH, Hk.
  - apply star_complete; assumption.
  - destruct s as [|c s]; [congruence|].
    apply Forall_cons in Hall as [Hc Hall]. cbn. rewrite Hc.
    apply star_complete; assumption.
  - destruct (IH k Hk) as (y & ->). eauto.
  - destruct (run r rest cap k); [eauto|]. exact Hk.
  - apply IH. rewrite length_app.
    replace (length s + length rest - length rest)%nat with (length s) by lia.
    rewrite take_app_length. exact Hk.
  - exact Hk.
Qed.

(** The search finds a match exactly when the pattern matches somewhere. *)
Lemma search_sound r : ∀ s cap,
  search r s = Some cap →
  ∃ pre m rest, s = pre ++ m ++ rest ∧ matches r m rest None cap.
Proof.
  induction s as [|c s IH]; intros cap H; cbn in H.
  - destruct (run r [] None _) as [y|] eqn:Hr; [|discriminate].
    injection H as ->. apply run_sound in Hr as (m & rest & c' & Hs & Hm & Hk).
    injection Hk as ->. exists [], m, rest. auto.
  - destruct (run r (c :: s) None _) as [y|] eqn:Hr.
    + injection H as ->. apply run_sound in Hr as (m & rest & c' & Hs & Hm & Hk).
      injection Hk as ->. exists [], m, rest. auto.
    + apply IH in H as (pre & m & rest & -> & Hm). exists (c :: pre), m, rest. auto.
Qed.

Lemma search_complete r : ∀ pre m rest cap,
  matches r m rest None cap → is_Some (search r (pre ++ m ++ rest)).
Proof.
  intros pre m rest cap Hm.
  assert (Hrun : is_Some (run r (m ++ rest) None (fun _ cap => Some cap))).
  { eapply run_complete; [exact Hm|]. eauto. }
  induction pre as [|c pre IH].
  - cbn [app]. destruct Hrun as (y & Hy).
    destruct (m ++ rest); cbn; rewrite Hy; eauto.
  - cbn. destruct (run r (c :: pre ++ m ++ rest) None _); [eauto|exact IH].
Qed.

(** ** Strings and their characters *)

Lemma text_chars s : text (chars s) = s.
Proof. apply String.string_of_list_ascii_of_string. Qed.

Lemma chars_text l : chars (text l) = l.
Proof. apply String.list_ascii_of_string_of_list_ascii. Qed.

Lemma chars_app a b : chars (a +:+ b) = chars a ++ chars b.
Proof.
  induction a as [|c a IH]; [reflexivity|].
  change (String c a +:+ b) with (String c (a +:+ b)).
  cbn. f_equal. exact IH.
Qed.

Lemma text_app a b : text (a ++ b) = text a +:+ text b.
Proof.
  rewrite <- (text_chars (text a +:+ text b)), chars_app, !chars_text. reflexivity.
Qed.

Lemma chars_inj a b : chars a = chars b → a = b.
Proof. intros H. rewrite <- (text_chars a), <- (text_chars b), H. reflexivity. Qed.

Lemma text_nonempty l : l ≠ [] → text l ≠ "".
Proof. intros Hl Ht. apply Hl. rewrite <- (chars_text l), Ht. reflexivity. Qed.

Lemma chars_nonempty s : s ≠ "" → chars s ≠ [].
Proof. intros Hs Hc. apply Hs. rewrite <- (text_chars s), Hc. reflexivity. Qed.

Lemma ends_run_chars p rest :
  (rest = [] ∨ ∃ c rest', rest = c :: rest' ∧ p c = false) ↔ ends_run p (text rest).
Proof.
  unfold ends_run. split.
  - intros [->|(c & rest' & -> & Hc)]; [left; reflexivity|].
    right. exists c, (text rest'). auto.
  - intros [H|(c & rest' & H & Hc)].
    + left. rewrite <- (chars_text rest), H. reflexivity.
    + right. exists c, (chars rest'). split; [|exact Hc].
      rewrite <- (chars_text rest), H. reflexivity.
Qed.

(** ** The two patterns of the resolver *)

Lemma search_position r : ∀ s cap,
  search r s = Some cap →
  ∃ pre s', s = pre ++ s' ∧ run r s' None (fun _ c => Some c) = Some cap.
Proof.
  induction s as [|c s IH]; intros cap H; cbn in H.
  - destruct (run r [] None _) as [y|] eqn:Hr; [|discriminate].
    injection H as ->. exists [], []. auto.
  - destruct (run r (c :: s) None _) as [y|] eqn:Hr.
    + injection H as ->. exists [], (c :: s). auto.
    + apply IH in H as (pre & s' & -> & Hrun). exists (c :: pre), s'. auto.
Qed.

Lemma take_front {A} (a b : list A) :
  take (length (a ++ b) - length b) (a ++ b) = a.
Proof.
  replace (length (a ++ b) - length b)%nat with (length a)
    by (rewrite length_app; lia).
  apply take_app_length.
Qed.

(** The capturing group [(p+)] at the end of a pattern takes the longest
    run of the class. *)
Lemma run_group_plus_last p s cap x :
  run (Group (Plus p)) s cap (fun _ c => Some c) = Some x →
  ∃ id rest, s = id ++ rest ∧ id ≠ [] ∧ Forall (fun c => p c = true) id
             ∧ (rest = [] ∨ ∃ c rest', rest = c :: rest' ∧ p c = false)
             ∧ x = Some id.
Proof.
  intros H. cbn [run] in H. destruct s as [|c s]; [discriminate|].
  destruct (p c) eqn:Hc; [|discriminate].
  match type of H with
  | star p s ?k = _ =>
      destruct (star_greedy p s k) as (s1 & rest & Hs & Hall & Hend & Hstar); [eauto|]
  end.
  subst s.
  rewrite Hstar in H. injection H as <-.
  exists (c :: s1), rest. repeat split; [discriminate|constructor; assumption|exact Hend|].
  f_equal. exact (take_front (c :: s1) rest).
Qed.

Lemma search_marked_sound marker p s cap :
  search (Seq marker (Group (Plus p))) s = Some cap →
  ∃ pre m id rest,
    s = pre ++ m ++ id ++ rest
    ∧ (∃ c, matches marker m (id ++ rest) None c)
    ∧ id ≠ [] ∧ Forall (fun c => p c = true) id
    ∧ (rest = [] ∨ ∃ c rest', rest = c :: rest' ∧ p c = false)
    ∧ cap = Some id.
Proof.
  intros H. apply search_position in H as (pre & s' & -> & Hrun).
  cbn [run] in Hrun.
  apply run_sound in Hrun as (m & s'' & c & -> & Hm & Hrun).
  apply (run_group_plus_last p s'' c cap) in Hrun
    as (id & rest & -> & Hne & Hall & Hend & ->).
  exists pre, m, id, rest. repeat split; eauto.
Qed.

Lemma search_marked_complete marker p pre m id rest c :
  matches marker m (id ++ rest) None c →
  id ≠ [] → Forall (fun c => p c = true) id →
  is_Some (search (Seq marker (Group (Plus p))) (pre ++ m ++ id ++ rest)).
Proof.
  intros Hm Hne Hall.
  replace (pre ++ m ++ id ++ rest) with (pre ++ (m ++ id) ++ rest)
    by (rewrite <- !app_assoc; reflexivity).
  eapply search_complete.
  eapply matches_Seq; [exact Hm|].
  apply (matches_Group _ _ _ c c), matches_Plus; assumption.
Qed.

Ltac inv_matches :=
  repeat match goal with
  | H : matches (Alt _ _) _ _ _ _ |- _ => inversion H; subst; clear H
  | H : matches (Seq _ _) _ _ _ _ |- _ => inversion H; subst; clear H
  | H : matches (Lit _) _ _ _ _ |- _ => inversion H; subst; clear H
  | H : matches (Plus _) _ _ _ _ |- _ => inversion H; subst; clear H
  end.

Lemma youtube_marker_sound m rest c c' :
  matches youtube_marker_re m rest c c' → youtube_marker (text m).
Proof.
  unfold youtube_marker_re. intros H. inv_matches.
  - left. reflexivity.
  - right. left. reflexivity.
  - right. right. left. reflexivity.
  - right. right. right. left. reflexivity.
  - right. right. right. right.
    match goal with Hne : ?mid ≠ [] |- _ => exists (text mid) end.
    split; [apply text_nonempty; assumption|].
    split; [rewrite chars_text; assumption|].
    rewrite !text_app. reflexivity.
Qed.

Lemma youtube_marker_complete m rest c :
  youtube_marker m → matches youtube_marker_re (chars m) rest c c.
Proof.
  unfold youtube_marker_re.
  intros [->|[->|[->|[->|(mid & Hne & Hdot & ->)]]]].
  - apply matches_Alt_l, matches_Lit.
  - apply matches_Alt_r.
    apply (matches_Seq _ _ (chars "youtube.com/") (chars "embed/") rest c c c);
      [apply matches_Lit|].
    apply matches_Alt_l, matches_Lit.
  - apply matches_Alt_r.
    apply (matches_Seq _ _ (chars "youtube.com/") (chars "v/") rest c c c);
      [apply matches_Lit|].
    apply matches_Alt_r, matches_Alt_l, matches_Lit.
  - apply matches_Alt_r.
    apply (matches_Seq _ _ (chars "youtube.com/") (chars "watch?v=") rest c c c);
      [apply matches_Lit|].
    apply matches_Alt_r, matches_Alt_r, matches_Alt_l, matches_Lit.
  - apply matches_Alt_r.
    change ("youtube.com/watch?" +:+ mid +:+ "&v=")
      with ("youtube.com/" +:+ "watch?" +:+ mid +:+ "&v=").
    rewrite !chars_app.
    apply (matches_Seq _ _ _ _ rest c c c); [apply matches_Lit|].
    apply matches_Alt_r, matches_Alt_r, matches_Alt_r.
    apply (matches_Seq _ _ _ _ rest c c c); [apply matches_Lit|].
    apply (matches_Seq _ _ _ _ rest c c c); [|apply matches_Lit].
    apply matches_Plus; [apply chars_nonempty; assumption|assumption].
Qed.

(** A pattern made of a marker and the capturing group [(p+)], searched in
    an address: either nothing matches, or the address splits into a prefix,
    a marker, the captured id and a rest before which the id cannot be
    extended. *)
Lemma search_marked_cases marker p url :
  search (Seq marker (Group (Plus p))) (chars url) = None
  ∨ ∃ pre m id rest,
      url = pre +:+ m +:+ id +:+ rest
      ∧ (∃ c, matches marker (chars m) (chars id ++ chars rest) None c)
      ∧ longest_run p id rest
      ∧ search (Seq marker (Group (Plus p))) (chars url) = Some (Some (chars id)).
Proof.
  destruct (search _ (chars url)) as [cap|] eqn:Hs; [right|left; reflexivity].
  apply search_marked_sound in Hs as (pre & m & id & rest & Hurl & (c & Hm) & Hne & Hall & Hend & ->).
  exists (text pre), (text m), (text id), (text rest).
  split.
  { apply chars_inj. rewrite !chars_app, !chars_text. exact Hurl. }
  split; [exists c; rewrite !chars_text; exact Hm|].
  split; [|rewrite chars_text; reflexivity].
  split; [apply text_nonempty, Hne|].
  split; [rewrite chars_text; exact Hall|].
  apply ends_run_chars, Hend.
Qed.

Lemma search_marked_found marker p pre m id rest c :
  matches marker (chars m) (chars id ++ chars rest) None c →
  longest_run p id rest →
  is_Some (search (Seq marker (Group (Plus p))) (chars (pre +:+ m +:+ id +:+ rest))).
Proof.
  intros Hm (Hne & Hall & _). rewrite !chars_app.
  eapply search_marked_complete; [exact Hm|apply chars_nonempty, Hne|exact Hall].
Qed.

Lemma truthy_text s : s ≠ "" → truthy (VStr s) = true.
Proof. intros Hs. cbn. destruct s; [congruence|reflexivity]. Qed.

Lemma app_nonempty_r a b : b ≠ "" → a +:+ b ≠ "".
Proof.
  intros Hb H. apply Hb. apply (f_equal chars) in H. rewrite chars_app in H.
  apply app_eq_nil in H as [_ H]. apply chars_inj. exact H.
Qed.

Lemma getYouTubeId_cases url :
  (getYouTubeId (VStr url) = Ok VNull ∧ ∀ id, ¬ youtube_form url id)
  ∨ ∃ id, getYouTubeId (VStr url) = Ok (VStr id) ∧ youtube_form url id.
Proof.
  destruct (search_marked_cases youtube_marker_re cls_not_amp_qm url)
    as [Hnone|(pre & m & id & rest & Hurl & (c & Hm) & Hrun & Hs)].
  - left. split.
    + unfold getYouTubeId. destruct (negb (truthy (VStr url))); [reflexivity|].
      cbn [js_match mbind result_bind]. fold youtube_re in Hnone. rewrite Hnone. reflexivity.
    + intros id (pre & m & rest & -> & Hm & Hrun).
      destruct (search_marked_found youtube_marker_re cls_not_amp_qm pre m id rest None)
        as (cap & Hcap); [apply youtube_marker_complete, Hm|exact Hrun|].
      congruence.
  - right. exists id. split.
    + unfold getYouTubeId.
      assert (Hne : url ≠ "").
      { rewrite Hurl. do 2 apply app_nonempty_r.
        destruct Hrun as (Hid & _). intros H. apply Hid.
        destruct id; [reflexivity|discriminate]. }
      rewrite (truthy_text url Hne). cbn [negb js_match mbind result_bind].
      fold youtube_re in Hs. rewrite Hs, text_chars. reflexivity.
    + exists pre, m, rest. split; [exact Hurl|]. split; [|exact Hrun].
      apply youtube_marker_sound in Hm. rewrite text_chars in Hm. exact Hm.
Qed.

Lemma matches_Lit_inv l s rest c c' :
  matches (Lit l) s rest c c' → s = l ∧ c' = c.
Proof. intros H. inversion H; subst. auto. Qed.

Lemma getVimeoId_cases url :
  (getVimeoId (VStr url) = Ok VNull ∧ ∀ id, ¬ vimeo_form url id)
  ∨ ∃ id, getVimeoId (VStr url) = Ok (VStr id) ∧ vimeo_form url id.
Proof.
  destruct (search_marked_cases (Lit (chars "vimeo.com/")) cls_digit url)
    as [Hnone|(pre & m & id & rest & Hurl & (c & Hm) & Hrun & Hs)].
  - left. split.
    + unfold getVimeoId. destruct (negb (truthy (VStr url))); [reflexivity|].
      cbn [js_match mbind result_bind]. fold vimeo_re in Hnone. rewrite Hnone. reflexivity.
    + intros id (pre & rest & -> & Hrun).
      destruct (search_marked_found (Lit (chars "vimeo.com/")) cls_digit
                  pre "vimeo.com/" id rest None)
        as (cap & Hcap); [apply matches_Lit|exact Hrun|].
      congruence.
  - right. exists id.
    assert (Hmark : m = "vimeo.com/").
    { apply matches_Lit_inv in Hm as [Hm _]. apply chars_inj, Hm. }
    subst m. split.
    + unfold getVimeoId.
      assert (Hne : url ≠ "").
      { rewrite Hurl. do 2 apply app_nonempty_r.
        destruct Hrun as (Hid & _). intros H. apply Hid.
        destruct id; [reflexivity|discriminate]. }
      rewrite (truthy_text url Hne). cbn [negb js_match mbind result_bind].
      fold vimeo_re in Hs. rewrite Hs, text_chars. reflexivity.
    + exists pre, rest. split; [exact Hurl|exact Hrun].
Qed.

(** ** Platform resolver *)

(** C5. For every address string: when it has one of the YouTube forms the
    resolver returns platform youtube with an id for which the address has
    that form (a marker, then the longest run of characters up to the next
    [&] or [?]), and whatever it returns as a YouTube id is such an id;
    otherwise, when it has the Vimeo form, it returns platform vimeo with
    the digits after [vimeo.com/]; YouTube comes first, so a Vimeo result
    means that no YouTube form is there; an address with neither form, the
    empty string, null and undefined give null. *)
Theorem platform_resolution :
  (∀ url id, youtube_form url id →
     ∃ id', getVideoPlatform (VStr url)
            = Ok (Some {| ref_platform := youtube; ref_id := VStr id' |})
            ∧ youtube_form url id')
  ∧ (∀ url id,
       getVideoPlatform (VStr url)
       = Ok (Some {| ref_platform := youtube; ref_id := id |}) →
       ∃ id', id = VStr id' ∧ youtube_form url id')
  ∧ (∀ url id, (∀ y, ¬ youtube_form url y) → vimeo_form url id →
       ∃ id', getVideoPlatform (VStr url)
              = Ok (Some {| ref_platform := vimeo; ref_id := VStr id' |})
              ∧ vimeo_form url id')
  ∧ (∀ url id,
       getVideoPlatform (VStr url)
       = Ok (Some {| ref_platform := vimeo; ref_id := id |}) →
       (∀ y, ¬ youtube_form url y) ∧ ∃ id', id = VStr id' ∧ vimeo_form url id')
  ∧ (∀ url, (∀ y, ¬ youtube_form url y) → (∀ v, ¬ vimeo_form url v) →
       getVideoPlatform (VStr url) = Ok None)
  ∧ getVideoPlatform (VStr "") = Ok None
  ∧ getVideoPlatform VNull = Ok None
  ∧ getVideoPlatform VUndef = Ok None
  ∧ getVideoPlatform (VStr "https://vimeo.com/76979871")
    = Ok (Some {| ref_platform := vimeo; ref_id := VStr "76979871" |})
  ∧ getVideoPlatform (VStr "https://www.youtube.com/watch?v=dQw4w9WgXcQ&t=42")
    = Ok (Some {| ref_platform := youtube; ref_id := VStr "dQw4w9WgXcQ" |})
  ∧ getVideoPlatform (VStr "https://vimeo.com/76979871?ref=youtu.be/abc")
    = Ok (Some {| ref_platform := youtube; ref_id := VStr "abc" |}).
Proof.
  assert (Hyes : ∀ url id, getYouTubeId (VStr url) = Ok (VStr id) → youtube_form url id →
                 getVideoPlatform (VStr url)
                 = Ok (Some {| ref_platform := youtube; ref_id := VStr id |})).
  { intros url id Hy (_ & _ & _ & _ & _ & (Hne & _)).
    unfold getVideoPlatform. rewrite Hy. cbn [mbind result_bind].
    rewrite (truthy_text id Hne). reflexivity. }
  assert (Hno : ∀ url, getYouTubeId (VStr url) = Ok VNull →
                getVideoPlatform (VStr url)
                = (vimeoId ← getVimeoId (VStr url);
                   if truthy vimeoId
                   then Ok (Some {| ref_platform := vimeo; ref_id := vimeoId |})
                   else Ok None)).
  { intros url Hy. unfold getVideoPlatform. rewrite Hy. reflexivity. }
  assert (Hvim : ∀ url id, getYouTubeId (VStr url) = Ok VNull →
                 getVimeoId (VStr url) = Ok (VStr id) → vimeo_form url id →
                 getVideoPlatform (VStr url)
                 = Ok (Some {| ref_platform := vimeo; ref_id := VStr id |})).
  { intros url id Hy Hv (_ & _ & _ & (Hne & _)).
    rewrite (Hno url Hy), Hv. cbn [mbind result_bind].
    rewrite (truthy_text id Hne). reflexivity. }
  split.
  { intros url id Hform.
    destruct (getYouTubeId_cases url) as [[_ Hnone]|(id' & Hy & Hform')].
    - destruct (Hnone id Hform).
    - exists id'. split; [apply Hyes; assumption|exact Hform']. }
  split.
  { intros url id Hres.
    destruct (getYouTubeId_cases url) as [[Hy _]|(id' & Hy & Hform')].
    - rewrite (Hno url Hy) in Hres.
      destruct (getVimeoId (VStr url)) as [v|]; [|discriminate].
      cbn [mbind result_bind] in Hres. destruct (truthy v); discriminate.
    - rewrite (Hyes url id' Hy Hform') in Hres. injection Hres as <-. eauto. }
  split.
  { intros url id Hnoyt Hform.
    destruct (getYouTubeId_cases url) as [[Hy _]|(y & _ & Hy)]; [|destruct (Hnoyt y Hy)].
    destruct (getVimeoId_cases url) as [[_ Hnone]|(id' & Hv & Hform')].
    - destruct (Hnone id Hform).
    - exists id'. split; [apply Hvim; assumption|exact Hform']. }
  split.
  { intros url id Hres.
    destruct (getYouTubeId_cases url) as [[Hy Hnoyt]|(y & Hy & Hform)].
    - split; [exact Hnoyt|].
      destruct (getVimeoId_cases url) as [[Hv _]|(id' & Hv & Hform')].
      + rewrite (Hno url Hy), Hv in Hres. discriminate.
      + rewrite (Hvim url id' Hy Hv Hform') in Hres. injection Hres as <-. eauto.
    - rewrite (Hyes url y Hy Hform) in Hres. discriminate. }
  split.
  { intros url Hnoyt Hnov.
    destruct (getYouTubeId_cases url) as [[Hy _]|(y & _ & Hy)]; [|destruct (Hnoyt y Hy)].
    destruct (getVimeoId_cases url) as [[Hv _]|(v & _ & Hv)]; [|destruct (Hnov v Hv)].
    rewrite (Hno url Hy), Hv. reflexivity. }
  repeat split; vm_compute; reflexivity.
Qed.

(** ** Doubles *)

Lemma rne_spec N D : 0 < D → Z.abs (2 * (rne N D * D - N)) ≤ D.
Proof.
  intros HD. unfold rne.
  pose proof (Z.div_mod N D ltac:(lia)) as Hdm.
  pose proof (Z.mod_pos_bound N D HD) as Hr.
  destruct (2 * (N mod D) <? D) eqn:H1; [apply Z.ltb_lt in H1; lia|].
  apply Z.ltb_ge in H1.
  destruct (D <? 2 * (N mod D)) eqn:H2; [apply Z.ltb_lt in H2; lia|].
  apply Z.ltb_ge in H2.
  destruct (Z.even (N / D)); lia.
Qed.

Lemma rne_nonneg N D : 0 ≤ N → 0 < D → 0 ≤ rne N D.
Proof.
  intros HN HD. unfold rne.
  assert (0 ≤ N / D) by (apply Z.div_pos; lia).
  repeat destruct (_ <? _); try destruct (Z.even _); lia.
Qed.

Lemma scale_den_pos b e : 0 < b → 0 < scale_den b e.
Proof.
  intros Hb. unfold scale_den. destruct (e <? 0) eqn:He; [exact Hb|].
  apply Z.ltb_ge in He. pose proof (Z.pow_pos_nonneg 2 e). nia.
Qed.

(** One more unit of exponent halves the scaled quotient. *)
Lemma scale_succ a b e :
  scale_num a e * scale_den b (e + 1) = 2 * scale_num a (e + 1) * scale_den b e.
Proof.
  unfold scale_num, scale_den.
  destruct (e <? 0) eqn:He; destruct (e + 1 <? 0) eqn:He1;
    try apply Z.ltb_lt in He; try apply Z.ltb_ge in He;
    try apply Z.ltb_lt in He1; try apply Z.ltb_ge in He1; try lia.
  - replace (- e) with (Z.succ (- (e + 1))) by lia.
    rewrite Z.pow_succ_r by lia. nia.
  - replace e with (-1) by lia. cbn. nia.
  - rewrite Z.pow_add_r by lia. cbn. nia.
Qed.

(** At the exponent that [div_pos] starts from, the scaled quotient is
    between [2 ^ 52] and [2 ^ 54]. *)
Lemma scale_first a b :
  0 < a → 0 < b →
  let e0 := Z.log2 a - Z.log2 b - 53 in
  2 ^ 52 * scale_den b e0 ≤ scale_num a e0 < 2 ^ 54 * scale_den b e0.
Proof.
  intros Ha Hb e0.
  destruct (Z.log2_spec a Ha) as [Ha1 Ha2]. destruct (Z.log2_spec b Hb) as [Hb1 Hb2].
  pose proof (Z.log2_nonneg a) as Hla. pose proof (Z.log2_nonneg b) as Hlb.
  set (la := Z.log2 a) in *. set (lb := Z.log2 b) in *.
  rewrite Z.pow_succ_r in Ha2, Hb2 by lia.
  assert (Hpa : 0 < 2 ^ la) by (apply Z.pow_pos_nonneg; lia).
  assert (Hpb : 0 < 2 ^ lb) by (apply Z.pow_pos_nonneg; lia).
  unfold scale_num, scale_den. destruct (e0 <? 0) eqn:He.
  - apply Z.ltb_lt in He.
    assert (Hp : 2 ^ la * 2 ^ (- e0) = 2 ^ 53 * 2 ^ lb).
    { rewrite <- !Z.pow_add_r by lia. f_equal. lia. }
    assert (0 < 2 ^ (- e0)) by (apply Z.pow_pos_nonneg; lia).
    split; nia.
  - apply Z.ltb_ge in He.
    assert (Hp : 2 ^ la = 2 ^ 53 * (2 ^ lb * 2 ^ e0)).
    { rewrite <- !Z.pow_add_r by lia. f_equal. lia. }
    assert (0 < 2 ^ e0) by (apply Z.pow_pos_nonneg; lia).
    split; nia.
Qed.

(** [div_pos] is the correctly rounded quotient: at its exponent the scaled
    quotient has 53 bits before the binary point, and the significand is
    the nearest integer to it (ties to even, by [rne]). *)
Lemma div_pos_normal a b :
  0 < a → 0 < b →
  let e := expn (div_pos a b) in
  mant (div_pos a b) = rne (scale_num a e) (scale_den b e)
  ∧ 2 ^ 52 * scale_den b e ≤ scale_num a e < 2 ^ 53 * scale_den b e.
Proof.
  intros Ha Hb. unfold div_pos. cbn [expn mant]. cbv zeta.
  split; [reflexivity|].
  pose proof (scale_first a b Ha Hb) as Hfirst. cbv zeta in Hfirst.
  set (e0 := Z.log2 a - Z.log2 b - 53) in *.
  pose proof (scale_den_pos b e0 Hb) as HD0.
  pose proof (scale_den_pos b (e0 + 1) Hb) as HD1.
  pose proof (scale_succ a b e0) as Hsucc.
  pose proof (Z.div_mod (scale_num a e0) (scale_den b e0) ltac:(lia)) as Hdm.
  pose proof (Z.mod_pos_bound (scale_num a e0) (scale_den b e0) HD0) as Hr.
  set (N0 := scale_num a e0) in *. set (D0 := scale_den b e0) in *.
  destruct (2 ^ 53 <=? N0 / D0) eqn:Hq.
  - apply Z.leb_le in Hq.
    set (N1 := scale_num a (e0 + 1)) in *. set (D1 := scale_den b (e0 + 1)) in *.
    assert (Hlow : 2 ^ 53 * D0 ≤ N0) by nia.
    split.
    + apply (Z.mul_le_mono_pos_r _ _ (2 * D0)); [lia|].
      replace (N1 * (2 * D0)) with (N0 * D1) by lia.
      replace (2 ^ 52 * D1 * (2 * D0)) with (2 ^ 53 * D0 * D1) by lia.
      apply Z.mul_le_mono_nonneg_r; lia.
    + apply (Z.mul_lt_mono_pos_r (2 * D0)); [lia|].
      replace (N1 * (2 * D0)) with (N0 * D1) by lia.
      replace (2 ^ 53 * D1 * (2 * D0)) with (2 ^ 54 * D0 * D1) by lia.
      apply Z.mul_lt_mono_pos_r; lia.
  - apply Z.leb_gt in Hq. split; [lia|].
    assert (N0 / D0 + 1 ≤ 2 ^ 53) by lia. nia.
Qed.

(** The exponent of a quotient [n / b] of a safe integer by a divisor with
    [2 ^ lb <= b] is at most [- lb]: the quotient keeps [lb] binary places. *)
Lemma div_pos_expn n b lb :
  0 < n ≤ MAX_SAFE_INTEGER → 0 < b → lb ≤ Z.log2 b →
  expn (div_pos n b) ≤ - lb.
Proof.
  intros [Hn Hmax] Hb Hlb. unfold div_pos. cbn [expn].
  assert (Z.log2 n < 53).
  { apply Z.log2_lt_pow2; [lia|]. unfold MAX_SAFE_INTEGER in Hmax. lia. }
  destruct (_ <=? _); lia.
Qed.

(** The printed tenths are a nearest number of tenths to the exact quotient:
    [| k / 10 - n / b | <= 1 / 20]. The divisor is a multiple of 20 that is
    smaller than [2 ^ (lb + 1)], as 1000 and 1000000 are. *)
Lemma tenths_nearest n b lb :
  0 < n ≤ MAX_SAFE_INTEGER → 0 < b → 0 < lb → lb ≤ Z.log2 b →
  b < 2 ^ (lb + 1) → b mod 20 = 0 →
  let k := tenths (div_pos n b) in
  0 ≤ k ∧ 2 * Z.abs (k * b - 10 * n) ≤ b.
Proof.
  intros Hn Hb Hlb0 Hlb Hsmall H20 k.
  pose proof (div_pos_expn n b lb Hn Hb Hlb) as He.
  subst k. unfold tenths. destruct (expn (div_pos n b) <? 0) eqn:Hneg;
    [|apply Z.ltb_ge in Hneg; lia].
  unfold div_pos in *. cbn [expn mant] in *.
  set (e := if 2 ^ 53 <=? _ then _ else _) in *.
  unfold scale_num, scale_den. rewrite Hneg.
  set (P := 2 ^ (- e)).
  assert (HP : 2 ^ lb ≤ P) by (apply Z.pow_le_mono_r; lia).
  assert (HP0 : 0 < 2 ^ lb) by (apply Z.pow_pos_nonneg; lia).
  replace (2 ^ (1 - e)) with (2 * P)
    by (unfold P; rewrite <- Z.pow_succ_r by lia; f_equal; lia).
  set (m := rne (n * P) b).
  pose proof (rne_spec (n * P) b Hb) as Hm. fold m in Hm.
  assert (Hm0 : 0 ≤ m) by (apply rne_nonneg; nia).
  set (k := (20 * m + P) / (2 * P)).
  pose proof (Z.div_mod (20 * m + P) (2 * P) ltac:(lia)) as Hdm.
  pose proof (Z.mod_pos_bound (20 * m + P) (2 * P) ltac:(lia)) as Hr.
  fold k in Hdm.
  assert (Hk0 : 0 ≤ k) by (apply Z.div_pos; lia).
  split; [exact Hk0|].
  (* the divisor is 20 * b', and so the error is a multiple of 10 *)
  apply Z.mod_divide in H20; [|lia]. destruct H20 as [b' Hb'].
  assert (Hpow : 2 ^ (lb + 1) = 2 * 2 ^ lb) by (rewrite Z.pow_add_r by lia; lia).
  set (T := k * b' * 2 - n) in *.
  assert (HT : k * b - 10 * n = 10 * T) by (unfold T; lia).
  rewrite HT.
  assert (Hup : 2 * P * (k * b - 10 * n) ≤ 10 * b + P * b) by nia.
  assert (Hlo : - (10 * b + P * b) < 2 * P * (k * b - 10 * n) + 0) by nia.
  rewrite HT in Hup, Hlo.
  assert (HTup : T ≤ b') by nia.
  assert (HTlo : - b' ≤ T) by nia.
  lia.
Qed.

(** ** Numerals *)

Lemma pretty_N_char_no_dot x : pretty_N_char x ≠ "."%char.
Proof. unfold pretty_N_char. repeat case_match; discriminate. Qed.

Lemma pretty_N_go_no_dot x : ∀ s, no_dot s → no_dot (pretty_N_go x s).
Proof.
  induction (N.lt_wf_0 x) as [x _ IH]; intros s Hs.
  destruct (decide (x = 0)%N) as [->|Hx]; [rewrite pretty_N_go_0; exact Hs|].
  rewrite pretty_N_go_step by lia. apply IH.
  - apply N.div_lt; lia.
  - constructor; [apply pretty_N_char_no_dot|exact Hs].
Qed.

Lemma pretty_nonneg_no_dot (x : Z) : 0 ≤ x → no_dot (pretty x).
Proof.
  intros Hx. destruct x as [|p|p]; [repeat constructor; discriminate| |lia].
  unfold pretty, pretty_Z, pretty, pretty_positive, pretty, pretty_N.
  destruct (decide (N.pos p = 0%N)); [discriminate|].
  apply pretty_N_go_no_dot. constructor.
Qed.

Lemma pretty_digit (r : Z) :
  0 ≤ r < 10 →
  ∃ d, pretty r = String d "" ∧ d ≠ "."%char ∧ (Ascii.eqb d "0" = (r =? 0)).
Proof.
  intros Hr.
  assert (r = 0 ∨ r = 1 ∨ r = 2 ∨ r = 3 ∨ r = 4 ∨ r = 5 ∨ r = 6 ∨ r = 7 ∨ r = 8 ∨ r = 9)
    as Hcases by lia.
  repeat destruct Hcases as [->|Hcases]; try subst r;
    (eexists; split; [reflexivity|]; split; [discriminate|reflexivity]).
Qed.

Lemma replace_dot0_end_decimal a d :
  no_dot a → d ≠ "."%char →
  replace_dot0_end (a +:+ String "." (String d ""))
  = if Ascii.eqb d "0" then a else a +:+ String "." (String d "").
Proof.
  intros Ha Hd. induction a as [|c a IH].
  - change ("" +:+ String "." (String d "")) with (String "." (String d "")).
    cbn [replace_dot0_end]. rewrite Ascii.eqb_refl. cbn [andb String.eqb].
    destruct (Ascii.eqb d "0") eqn:Hd0; [reflexivity|].
    apply Ascii.eqb_neq in Hd. rewrite Hd. reflexivity.
  - change (String c a +:+ String "." (String d ""))
      with (String c (a +:+ String "." (String d ""))).
    cbn [replace_dot0_end].
    apply Forall_cons in Ha as [Hc Ha]. apply Ascii.eqb_neq in Hc. rewrite Hc.
    cbn [andb]. rewrite (IH Ha).
    destruct (Ascii.eqb d "0"); reflexivity.
Qed.

Lemma toFixed1_stripped x :
  0 ≤ tenths x → replace_dot0_end (toFixed1 x) = one_decimal (tenths x).
Proof.
  intros Hk. unfold toFixed1, one_decimal. set (k := tenths x) in *.
  destruct (pretty_digit (k mod 10)) as (d & Hd & Hdot & Hzero);
    [apply Z.mod_pos_bound; lia|].
  rewrite Hd.
  change ("." +:+ String d "") with (String "." (String d "")).
  rewrite replace_dot0_end_decimal;
    [|apply pretty_nonneg_no_dot, Z.div_pos; lia|exact Hdot].
  rewrite Hzero. reflexivity.
Qed.

(** ** formatViews *)

(** C4. [formatViews] is a function of its argument alone. A count of at
    least 1,000,000 is printed as the count divided by 1,000,000 with one
    decimal place ([k] tenths, nearest to the quotient), a trailing [.0]
    left out, and the suffix [M]; a count of at least 1,000 likewise with
    divisor 1,000 and suffix [K]; a smaller count as the plain integer
    numeral; NaN, null, undefined and 0 as ["0"]. The six sample values
    print as the specification lists them. *)
Theorem formatViews_rendering :
  (∀ n, 1000000 ≤ n ≤ MAX_SAFE_INTEGER →
     ∃ k, formatViews (VNum (Int n)) = one_decimal k +:+ "M"
          ∧ 0 ≤ k ∧ 2 * Z.abs (k * 1000000 - 10 * n) ≤ 1000000)
  ∧ (∀ n, 1000 ≤ n < 1000000 →
       ∃ k, formatViews (VNum (Int n)) = one_decimal k +:+ "K"
            ∧ 0 ≤ k ∧ 2 * Z.abs (k * 1000 - 10 * n) ≤ 1000)
  ∧ (∀ n, - MAX_SAFE_INTEGER ≤ n < 1000 → n ≠ 0 →
       formatViews (VNum (Int n)) = pretty n)
  ∧ formatViews (VNum NaN) = "0"
  ∧ formatViews VNull = "0"
  ∧ formatViews VUndef = "0"
  ∧ formatViews (VNum (Int 0)) = "0"
  ∧ formatViews (VNum (Int 999)) = "999"
  ∧ formatViews (VNum (Int 1000)) = "1K"
  ∧ formatViews (VNum (Int 1500)) = "1.5K"
  ∧ formatViews (VNum (Int 1000000)) = "1M"
  ∧ formatViews (VNum (Int 2500000)) = "2.5M".
Proof.
  assert (Hbig : ∀ n b, b ≤ n → 0 < b →
            truthy (VNum (Int n)) = true ∧ js_ge (VNum (Int n)) b = true).
  { intros n b Hn Hb. cbn. split; [|apply Z.leb_le, Hn].
    destruct (n =? 0) eqn:H0; [apply Z.eqb_eq in H0; lia|reflexivity]. }
  split.
  { intros n [Hlo Hhi].
    destruct (tenths_nearest n 1000000 19) as [Hk0 Hk];
      [unfold MAX_SAFE_INTEGER in *; lia|lia|lia|reflexivity|reflexivity|reflexivity|].
    exists (tenths (div_pos n 1000000)).
    split; [|split; assumption].
    unfold formatViews. destruct (Hbig n 1000000 Hlo) as [-> ->]; [lia|].
    cbn [negb orb isNaN ToNumber]. unfold div_toFixed1. cbn [ToNumber].
    rewrite toFixed1_stripped by exact Hk0. reflexivity. }
  split.
  { intros n [Hlo Hhi].
    destruct (tenths_nearest n 1000 9) as [Hk0 Hk];
      [unfold MAX_SAFE_INTEGER; lia|lia|lia|reflexivity|reflexivity|reflexivity|].
    exists (tenths (div_pos n 1000)).
    split; [|split; assumption].
    unfold formatViews. destruct (Hbig n 1000 Hlo) as [-> ->]; [lia|].
    cbn [negb orb isNaN ToNumber].
    assert (Hsmall : js_ge (VNum (Int n)) 1000000 = false)
      by (cbn; apply Z.leb_gt; lia).
    rewrite Hsmall. unfold div_toFixed1. cbn [ToNumber].
    rewrite toFixed1_stripped by exact Hk0. reflexivity. }
  split.
  { intros n [_ Hn] H0. unfold formatViews, js_ge, isNaN. cbn [truthy ToNumber].
    apply Z.eqb_neq in H0. rewrite H0. cbn [negb orb].
    assert (H1 : (1000000 <=? n) = false) by (apply Z.leb_gt; lia).
    assert (H2 : (1000 <=? n) = false) by (apply Z.leb_gt; lia).
    rewrite H1, H2. reflexivity. }
  repeat split; vm_compute; reflexivity.
Qed.

(** * Further properties of the script *)

(** ** The modal player *)

(** A property of the player that each of the script's operations on it
    keeps is kept by every event. *)
Lemma step_preserves (P : player → Prop) :
  (∀ id p, P p → P (detach id p)) →
  (∀ id p, P p → P (unlisten_keydown id (detach id p))) →
  (∀ pf videoId title aspect p,
     P p → P (build_modal pf videoId title aspect (rlt aspect (real_of_Z 1)) p)) →
  (∀ c p, P p → P (suspend c p)) →
  (∀ k p, P p → P (resumed k p)) →
  (∀ vw vh p, P p →
     P (dispatch (on_resize (set_viewport vw vh p)) run_updateLayout (set_viewport vw vh p))) →
  (∀ vw vh p, P p →
     P (dispatch (on_orientationchange (set_viewport vw vh p)) run_updateLayout
          (set_viewport vw vh p))) →
  ∀ st e, P (player_of st) → P (player_of (step st e)).
Proof.
  intros Hdetach Hunlisten Hbuild Hsuspend Hresumed Hresize Horient st e H.
  assert (Hrm : P (remove_existing (player_of st))).
  { unfold remove_existing. destruct (modals (player_of st)); [exact H|apply Hdetach, H]. }
  destruct e as [pf videoId title|k|id|id|key|vw vh|vw vh].
  - destruct pf.
    + rewrite step_open_youtube. apply (Hbuild youtube videoId title (RFin (16 # 9))), Hrm.
    + rewrite step_open_vimeo. apply Hsuspend, Hrm.
  - destruct (awaiting (player_of st) !! k) as [c|] eqn:Hk.
    + destruct (step_info_arrives st k c Hk) as (aspect & ->).
      apply Hbuild, Hresumed, H.
    + unfold step, handle, showVideoPlayer_resume, eff_bind, get_player.
      rewrite Hk. exact H.
  - rewrite step_click_close. destruct (is_attached id _); [apply Hdetach|]; exact H.
  - rewrite step_click_backdrop. destruct (is_attached id _); [apply Hdetach|]; exact H.
  - rewrite step_keydown. unfold dispatch.
    generalize (on_keydown (player_of st)). intros l.
    revert H. generalize (player_of st).
    induction l as [|id l IH]; intros p Hp; cbn [foldl]; [exact Hp|].
    apply IH. unfold escHandler. destruct (String.eqb key "Escape"); [|exact Hp].
    apply Hunlisten, Hp.
  - apply Hresize, H.
  - apply Horient, H.
Qed.

Lemma run_events_preserves (P : player → Prop) :
  (∀ st e, P (player_of st) → P (player_of (step st e))) →
  ∀ es st, P (player_of st) → P (player_of (run_events st es)).
Proof.
  intros Hstep es. induction es as [|e es IH]; intros st H; [exact H|].
  cbn. apply IH, Hstep, H.
Qed.

Lemma relayout_laid_out vw vh m :
  isPortrait m = rlt (aspectRatio m) (real_of_Z 1) → laid_out vw vh (relayout vw vh m).
Proof.
  intros Hp. split; [exact Hp|]. cbn [relayout modal_styles aspectRatio].
  rewrite Hp. unfold updateLayout, spec_layout_mode.
  destruct (rlt (aspectRatio m) (real_of_Z 1)); [reflexivity|].
  destruct ((vh <? vw) && ((vw <? 768) || (vh <? 500))); reflexivity.
Qed.

(** What a round of [updateLayout] listeners does: nothing but the styles of
    the modals changes, and a modal whose listener is among those that ran is
    laid out for the current viewport. *)
Lemma dispatch_relayout l : ∀ q,
  let q' := dispatch l run_updateLayout q in
  on_resize q' = on_resize q
  ∧ on_orientationchange q' = on_orientationchange q
  ∧ on_keydown q' = on_keydown q
  ∧ awaiting q' = awaiting q
  ∧ innerWidth q' = innerWidth q
  ∧ innerHeight q' = innerHeight q
  ∧ next_id q' = next_id q
  ∧ Forall2 (fun m m' =>
       modal_id m' = modal_id m
       ∧ aspectRatio m' = aspectRatio m
       ∧ isPortrait m' = isPortrait m
       ∧ (isPortrait m = rlt (aspectRatio m) (real_of_Z 1) →
          laid_out (innerWidth q) (innerHeight q) m ∨ modal_id m ∈ l →
          laid_out (innerWidth q) (innerHeight q) m'))
      (modals q) (modals q').
Proof.
  induction l as [|id l IH]; intros q; cbn zeta.
  - cbn. do 7 (split; [reflexivity|]).
    apply Forall_Forall2_diag, Forall_forall. intros m _.
    do 3 (split; [reflexivity|]). intros _ [Hl|Hl]; [exact Hl|].
    apply elem_of_nil in Hl. destruct Hl.
  - change (dispatch (id :: l) run_updateLayout q)
      with (dispatch l run_updateLayout (run_updateLayout id q)).
    specialize (IH (run_updateLayout id q)). cbn zeta in IH.
    destruct IH as (-> & -> & -> & -> & -> & -> & -> & IH).
    do 7 (split; [reflexivity|]).
    cbn [run_updateLayout modals innerWidth innerHeight] in IH.
    apply Forall2_fmap_l in IH.
    eapply Forall2_impl; [exact IH|].
    cbn. intros m m' (Hid & Ha & Hp & Hl).
    destruct (decide (modal_id m = id)) as [Heq|Hne].
    + cbn [relayout modal_id aspectRatio isPortrait] in *.
      do 3 (split; [assumption|]).
      intros Hrel _. apply Hl; [exact Hrel|].
      left. apply relayout_laid_out, Hrel.
    + do 3 (split; [assumption|]).
      intros Hrel [Hlaid|Hin]; apply Hl; try exact Hrel.
      * left. exact Hlaid.
      * right. apply elem_of_cons in Hin as [Hin|Hin]; [congruence|exact Hin].
Qed.

Lemma dispatch_relayout_ids l q :
  map modal_id (modals (dispatch l run_updateLayout q)) = map modal_id (modals q).
Proof.
  destruct (dispatch_relayout l q) as (_ & _ & _ & _ & _ & _ & _ & H).
  induction H as [|m m' ms ms' (Hid & _) _ IH]; [reflexivity|].
  cbn. rewrite Hid, IH. reflexivity.
Qed.

Lemma relayout_round_ok l q :
  window_listeners_ok q → window_listeners_ok (dispatch l run_updateLayout q).
Proof.
  intros H. apply dispatch_ok; [|exact H].
  intros; apply run_updateLayout_ok; assumption.
Qed.

Lemma step_listeners_in_step st e :
  listeners_in_step (player_of st) → listeners_in_step (player_of (step st e)).
Proof.
  apply step_preserves; unfold listeners_in_step.
  - intros id p [Hw Hd]. split; [apply detach_ok, Hw|].
    cbn [detach modals]. rewrite <- without_map_modal_id. apply NoDup_filter, Hd.
  - intros id p [Hw Hd]. split; [apply (detach_ok id), Hw|].
    cbn [unlisten_keydown detach modals]. rewrite <- without_map_modal_id.
    apply NoDup_filter, Hd.
  - intros pf videoId title aspect p [Hw Hd]. split; [apply build_modal_ok, Hw|].
    cbn [build_modal modals]. rewrite map_app. apply NoDup_app. split; [exact Hd|].
    split; [|apply NoDup_singleton].
    intros x Hx Hx'. apply list_elem_of_singleton in Hx'. subst x.
    destruct Hw as (_ & _ & Hlt). rewrite Forall_forall in Hlt.
    apply Hlt in Hx. cbn in Hx. lia.
  - intros c p H. exact H.
  - intros k p H. exact H.
  - intros vw vh p [Hw Hd]. split; [apply relayout_round_ok, Hw|].
    rewrite dispatch_relayout_ids. exact Hd.
  - intros vw vh p [Hw Hd]. split; [apply relayout_round_ok, Hw|].
    rewrite dispatch_relayout_ids. exact Hd.
Qed.


Lemma initial_listeners_in_step cards vw vh :
  listeners_in_step (player_of (initial_page cards vw vh)).
Proof. repeat split; constructor. Qed.

(** X1. After any sequence of events on a freshly loaded page, the resize
    listeners and the orientationchange listeners registered on the window
    are exactly those of the modals that are in the document, in document
    order, and no two modals share an identity: whichever way a modal leaves
    the document, its two window listeners leave with it. *)
Theorem window_listeners_follow_modals :
  ∀ cards vw vh es,
    let p := player_of (run_events (initial_page cards vw vh) es) in
    on_resize p = map modal_id (modals p)
    ∧ on_orientationchange p = map modal_id (modals p)
    ∧ NoDup (map modal_id (modals p)).
Proof.
  intros cards vw vh es p.
  assert (H : listeners_in_step p).
  { apply run_events_preserves; [apply step_listeners_in_step|].
    apply initial_listeners_in_step. }
  destruct H as ((Hr & Ho & _) & Hd). auto.
Qed.

(** *** The Escape key *)

Lemma step_escape_covers st e :
  escape_covers (player_of st) → escape_covers (player_of (step st e)).
Proof.
  apply step_preserves; unfold escape_covers.
  - intros id p H x Hx. cbn [detach modals on_keydown] in *.
    apply H. apply list_elem_of_fmap in Hx as (m & -> & Hm).
    apply list_elem_of_filter in Hm as [_ Hm].
    apply list_elem_of_fmap. eauto.
  - intros id p H x Hx. cbn [unlisten_keydown detach modals on_keydown] in *.
    apply list_elem_of_fmap in Hx as (m & -> & Hm).
    apply list_elem_of_filter in Hm as [Hne Hm].
    apply list_elem_of_filter. split; [exact Hne|].
    apply H, list_elem_of_fmap. eauto.
  - intros pf videoId title aspect p H x Hx. cbn [build_modal modals on_keydown] in *.
    rewrite map_app in Hx. apply elem_of_app in Hx as [Hx|Hx]; apply elem_of_app.
    + left. apply H, Hx.
    + right. exact Hx.
  - intros c p H. exact H.
  - intros k p H. exact H.
  - intros vw vh p H x Hx. rewrite dispatch_relayout_ids in Hx.
    destruct (dispatch_relayout (on_resize (set_viewport vw vh p)) (set_viewport vw vh p))
      as (_ & _ & -> & _). apply H, Hx.
  - intros vw vh p H x Hx. rewrite dispatch_relayout_ids in Hx.
    destruct (dispatch_relayout (on_orientationchange (set_viewport vw vh p))
                (set_viewport vw vh p)) as (_ & _ & -> & _). apply H, Hx.
Qed.

(** What a round of Escape handlers leaves: of the modals and of the
    keydown listeners, those that are not among the handlers that ran. *)
Lemma dispatch_escape l : ∀ p,
  let q := dispatch l (fun id => escHandler id "Escape") p in
  (∀ m, m ∈ modals q → m ∈ modals p ∧ modal_id m ∉ l)
  ∧ (∀ x, x ∈ on_keydown q → x ∈ on_keydown p ∧ x ∉ l)
  ∧ awaiting q = awaiting p
  ∧ innerWidth q = innerWidth p ∧ innerHeight q = innerHeight p.
Proof.
  induction l as [|id l IH]; intros p; cbn zeta.
  - cbn. repeat split; try assumption; apply not_elem_of_nil.
  - change (dispatch (id :: l) (fun id => escHandler id "Escape") p)
      with (dispatch l (fun id => escHandler id "Escape")
              (unlisten_keydown id (detach id p))).
    specialize (IH (unlisten_keydown id (detach id p))). cbn zeta in IH.
    destruct IH as (Hm & Hk & -> & -> & ->).
    split; [|split; [|repeat split]].
    + intros m Hin. apply Hm in Hin as [Hin Hl].
      cbn [unlisten_keydown detach modals] in Hin.
      apply list_elem_of_filter in Hin as [Hne Hin].
      split; [exact Hin|]. apply not_elem_of_cons. auto.
    + intros x Hin. apply Hk in Hin as [Hin Hl].
      cbn [unlisten_keydown detach on_keydown] in Hin.
      apply list_elem_of_filter in Hin as [Hne Hin].
      split; [exact Hin|]. apply not_elem_of_cons. auto.
Qed.

Lemma dispatch_other_key l key : ∀ p,
  String.eqb key "Escape" = false →
  dispatch l (fun id => escHandler id key) p = p.
Proof.
  intros p Hkey. unfold dispatch. induction l as [|id l IH]; [reflexivity|].
  cbn [foldl]. unfold escHandler at 2. rewrite Hkey. exact IH.
Qed.

(** X2. On a page reached by any sequence of events, the Escape key closes
    the player whatever was open: no modal stays in the document, and no
    keydown, resize or orientationchange listener stays registered, those
    that earlier closes had left behind included. A call of [showVideoPlayer]
    that is waiting for its dimensions stays suspended. Any other key changes
    nothing. *)
Theorem escape_closes_every_modal :
  ∀ cards vw vh es,
    let st := run_events (initial_page cards vw vh) es in
    let p := player_of (step st (KeyDown "Escape")) in
    (modals p = [] ∧ on_keydown p = [] ∧ on_resize p = [] ∧ on_orientationchange p = []
     ∧ awaiting p = awaiting (player_of st))
    ∧ ∀ key, String.eqb key "Escape" = false →
             player_of (step st (KeyDown key)) = player_of st.
Proof.
  intros cards vw vh es st p. split.
  - assert (Hc : escape_covers (player_of st)).
    { apply run_events_preserves; [apply step_escape_covers|].
      intros x Hx. exact Hx. }
    assert (Hw : listeners_in_step p).
    { apply step_listeners_in_step, run_events_preserves;
        [apply step_listeners_in_step|apply initial_listeners_in_step]. }
    destruct Hw as ((Hr & Ho & _) & _).
    subst p. rewrite step_keydown in *.
    destruct (dispatch_escape (on_keydown (player_of st)) (player_of st))
      as (Hm & Hk & Ha & _).
    assert (Hnil : modals (dispatch (on_keydown (player_of st))
                             (fun id => escHandler id "Escape") (player_of st)) = []).
    { apply elem_of_nil_inv. intros m Hin. apply Hm in Hin as [Hin Hl].
      apply Hl, Hc, list_elem_of_fmap. eauto. }
    rewrite Hr, Ho, Hnil. repeat split; try reflexivity; [|exact Ha].
    apply elem_of_nil_inv. intros x Hin. apply Hk in Hin as [Hin Hl]. auto.
  - intros key Hkey. rewrite step_keydown. apply dispatch_other_key, Hkey.
Qed.

(** *** One modal at a time *)

Lemma remove_existing_single p :
  (length (modals p) ≤ 1)%nat →
  modals (remove_existing p) = [] ∧ awaiting (remove_existing p) = awaiting p.
Proof.
  intros Hlen. unfold remove_existing.
  destruct (modals p) as [|m [|m' ms]] eqn:Hm.
  - rewrite Hm. auto.
  - unfold detach; cbn. rewrite Hm, filter_cons. cbn.
    destruct (decide (modal_id m ≠ modal_id m)); [congruence|]. auto.
  - cbn in Hlen. lia.
Qed.

(** A click and a key take modals away at most, and a resize none; the
    suspended calls are not touched. *)
Lemma step_no_open st e :
  (∀ pf videoId title, e ≠ Open pf videoId title) →
  (∀ k, e ≠ InfoArrives k) →
  (length (modals (player_of (step st e))) ≤ length (modals (player_of st)))%nat
  ∧ awaiting (player_of (step st e)) = awaiting (player_of st).
Proof.
  intros Hopen Hinfo.
  assert (Hdetach : ∀ id p,
            (length (modals (detach id p)) ≤ length (modals p))%nat
            ∧ awaiting (detach id p) = awaiting p).
  { intros id p. split; [apply length_filter|reflexivity]. }
  destruct e as [pf videoId title|k|id|id|key|vw vh|vw vh].
  - destruct (Hopen pf videoId title eq_refl).
  - destruct (Hinfo k eq_refl).
  - rewrite step_click_close. destruct (is_attached id _); [apply Hdetach|auto].
  - rewrite step_click_backdrop. destruct (is_attached id _); [apply Hdetach|auto].
  - rewrite step_keydown. unfold dispatch.
    generalize (on_keydown (player_of st)). intros l. generalize (player_of st).
    induction l as [|id l IH]; intros p; cbn [foldl]; [auto|].
    destruct (IH (escHandler id key p)) as [Hlen ->].
    unfold escHandler in *. destruct (String.eqb key "Escape"); [|auto].
    destruct (Hdetach id p) as [Hlen' Ha].
    cbn [unlisten_keydown modals awaiting] in *. split; [lia|exact Ha].
  - change (player_of (step st (Resize vw vh)))
      with (dispatch (on_resize (set_viewport vw vh (player_of st))) run_updateLayout
              (set_viewport vw vh (player_of st))).
    pose proof (dispatch_relayout_ids (on_resize (set_viewport vw vh (player_of st)))
                  (set_viewport vw vh (player_of st))) as Hids.
    apply (f_equal length) in Hids. rewrite !length_map in Hids.
    destruct (dispatch_relayout (on_resize (set_viewport vw vh (player_of st)))
                (set_viewport vw vh (player_of st))) as (_ & _ & _ & -> & _).
    cbn [set_viewport modals awaiting] in *. split; [lia|reflexivity].
  - change (player_of (step st (OrientationChange vw vh)))
      with (dispatch (on_orientationchange (set_viewport vw vh (player_of st)))
              run_updateLayout (set_viewport vw vh (player_of st))).
    pose proof (dispatch_relayout_ids
                  (on_orientationchange (set_viewport vw vh (player_of st)))
                  (set_viewport vw vh (player_of st))) as Hids.
    apply (f_equal length) in Hids. rewrite !length_map in Hids.
    destruct (dispatch_relayout (on_orientationchange (set_viewport vw vh (player_of st)))
                (set_viewport vw vh (player_of st))) as (_ & _ & _ & -> & _).
    cbn [set_viewport modals awaiting] in *. split; [lia|reflexivity].
Qed.

Lemma run_opens_apart es : ∀ st pending,
  length (awaiting (player_of st)) = pending →
  (length (modals (player_of st)) + pending ≤ 1)%nat →
  opens_apart pending es = true →
  (length (modals (player_of (run_events st es))) ≤ 1)%nat.
Proof.
  induction es as [|e es IH]; intros st pending Hpend Hone Hes; [cbn; lia|].
  cbn [run_events foldl]. fold (run_events (step st e) es).
  destruct e as [pf videoId title|k|id|id|key|vw vh|vw vh].
  - assert (Hp0 : pending = 0%nat).
    { destruct pf; cbn in Hes; apply andb_true_iff in Hes as [Hp _];
        apply Nat.eqb_eq in Hp; exact Hp. }
    subst pending. rewrite Hp0 in *.
    destruct (remove_existing_single (player_of st)) as [Hm Ha]; [lia|].
    apply length_zero_iff_nil in Hp0.
    destruct pf; cbn in Hes.
    + apply (IH _ 0%nat); [| |exact Hes]; rewrite step_open_youtube; cbn.
      * rewrite Ha, Hp0. reflexivity.
      * rewrite Hm. cbn. lia.
    + apply (IH _ 1%nat); [| |exact Hes]; rewrite step_open_vimeo; cbn.
      * rewrite Ha, Hp0. reflexivity.
      * rewrite Hm. cbn. lia.
  - cbn [opens_apart] in Hes.
    destruct (awaiting (player_of st) !! k) as [c|] eqn:Hk.
    + assert (Hlt : (k < pending)%nat) by (subst pending; eapply lookup_lt_Some, Hk).
      apply Nat.ltb_lt in Hlt as Hlt'. rewrite Hlt' in Hes.
      assert (Hm : modals (player_of st) = []) by (apply length_zero_iff_nil; lia).
      destruct (step_info_arrives st k c Hk) as (aspect & Hstep).
      apply (IH _ (pending - 1)%nat); [| |exact Hes]; rewrite Hstep; cbn.
      * rewrite length_delete by eauto. lia.
      * rewrite Hm. cbn. lia.
    + assert (Hge : (pending ≤ k)%nat) by (subst pending; apply lookup_ge_None, Hk).
      apply Nat.ltb_ge in Hge as Hge'. rewrite Hge' in Hes.
      assert (Hsame : player_of (step st (InfoArrives k)) = player_of st).
      { unfold step, handle, showVideoPlayer_resume, eff_bind, get_player.
        rewrite Hk. reflexivity. }
      apply (IH _ pending); [| |exact Hes]; rewrite Hsame; assumption.
  - destruct (step_no_open st (ClickClose id)) as [Hl Ha]; [discriminate..|].
    apply (IH _ pending); [rewrite Ha; exact Hpend|lia|exact Hes].
  - destruct (step_no_open st (ClickBackdrop id)) as [Hl Ha]; [discriminate..|].
    apply (IH _ pending); [rewrite Ha; exact Hpend|lia|exact Hes].
  - destruct (step_no_open st (KeyDown key)) as [Hl Ha]; [discriminate..|].
    apply (IH _ pending); [rewrite Ha; exact Hpend|lia|exact Hes].
  - destruct (step_no_open st (Resize vw vh)) as [Hl Ha]; [discriminate..|].
    apply (IH _ pending); [rewrite Ha; exact Hpend|lia|exact Hes].
  - destruct (step_no_open st (OrientationChange vw vh)) as [Hl Ha]; [discriminate..|].
    apply (IH _ pending); [rewrite Ha; exact Hpend|lia|exact Hes].
Qed.

(** X3. As long as no video is opened while an earlier open is still
    waiting for its dimensions, the document never holds more than one
    modal, whatever clicks, keys, resizes and arrivals come in between: a
    YouTube open replaces the modal of the document at once, and a Vimeo
    open that is resumed before the next open does too. *)
Theorem opens_apart_one_modal :
  ∀ cards vw vh es,
    opens_apart 0 es = true →
    (length (modals (player_of (run_events (initial_page cards vw vh) es))) ≤ 1)%nat.
Proof.
  intros cards vw vh es Hes.
  apply (run_opens_apart es _ 0%nat); [reflexivity|cbn; lia|exact Hes].
Qed.

(** *** Layout and viewport *)

(** Each modal of the document is laid out for the current viewport, and
    the window listeners are those of the modals. *)
Lemma step_laid_out st e :
  let ok p := window_listeners_ok p
              ∧ Forall (laid_out (innerWidth p) (innerHeight p)) (modals p) in
  ok (player_of st) → ok (player_of (step st e)).
Proof.
  cbn zeta. apply step_preserves.
  - intros id p [Hw Hl]. split; [apply detach_ok, Hw|].
    cbn [detach modals innerWidth innerHeight].
    rewrite Forall_forall in Hl |- *. intros m Hm.
    apply list_elem_of_filter in Hm as [_ Hm]. apply Hl, Hm.
  - intros id p [Hw Hl]. split; [apply (detach_ok id), Hw|].
    cbn [unlisten_keydown detach modals innerWidth innerHeight].
    rewrite Forall_forall in Hl |- *. intros m Hm.
    apply list_elem_of_filter in Hm as [_ Hm]. apply Hl, Hm.
  - intros pf videoId title aspect p [Hw Hl]. split; [apply build_modal_ok, Hw|].
    cbn [build_modal modals innerWidth innerHeight].
    apply Forall_app. split; [exact Hl|]. constructor; [|constructor].
    split; [reflexivity|].
    cbn [new_modal modal_styles aspectRatio].
    unfold updateLayout, spec_layout_mode.
    destruct (rlt aspect (real_of_Z 1)); [reflexivity|].
    destruct ((innerHeight p <? innerWidth p)
              && ((innerWidth p <? 768) || (innerHeight p <? 500))); reflexivity.
  - intros c p H. exact H.
  - intros k p H. exact H.
  - intros vw vh p [Hw Hl]. split; [apply relayout_round_ok, Hw|].
    set (q := set_viewport vw vh p).
    destruct Hw as (Hr & _).
    destruct (dispatch_relayout (on_resize q) q) as (_ & _ & _ & _ & -> & -> & _ & H2).
    apply Forall_lookup. intros i m' Hi.
    destruct (Forall2_lookup_r _ _ _ _ _ H2 Hi) as (m & Hm & _ & _ & _ & Hlaid).
    rewrite Forall_lookup in Hl. apply Hlaid.
    + exact (proj1 (Hl i m Hm)).
    + right. change (on_resize q) with (on_resize p). rewrite Hr.
      apply list_elem_of_fmap. exists m. split; [reflexivity|].
      eapply list_elem_of_lookup_2, Hm.
  - intros vw vh p [Hw Hl]. split; [apply relayout_round_ok, Hw|].
    set (q := set_viewport vw vh p).
    destruct Hw as (_ & Ho & _).
    destruct (dispatch_relayout (on_orientationchange q) q)
      as (_ & _ & _ & _ & -> & -> & _ & H2).
    apply Forall_lookup. intros i m' Hi.
    destruct (Forall2_lookup_r _ _ _ _ _ H2 Hi) as (m & Hm & _ & _ & _ & Hlaid).
    rewrite Forall_lookup in Hl. apply Hlaid.
    + exact (proj1 (Hl i m Hm)).
    + right. change (on_orientationchange q) with (on_orientationchange p). rewrite Ho.
      apply list_elem_of_fmap. exists m. split; [reflexivity|].
      eapply list_elem_of_lookup_2, Hm.
Qed.

(** X4. After any sequence of events on a freshly loaded page, every modal
    in the document shows the layout mode that the classification gives for
    its own aspect ratio at the current viewport, with [isPortrait] the
    comparison of that ratio with 1: a resize or an orientation change
    reaches every modal of the document. A resize makes the new size the
    current viewport and takes no modal out of the document. *)
Theorem modals_laid_out_for_viewport :
  ∀ cards vw vh es,
    let st := run_events (initial_page cards vw vh) es in
    let p := player_of st in
    Forall (laid_out (innerWidth p) (innerHeight p)) (modals p)
    ∧ ∀ vw' vh',
        let p' := player_of (step st (Resize vw' vh')) in
        innerWidth p' = vw' ∧ innerHeight p' = vh'
        ∧ map modal_id (modals p') = map modal_id (modals p)
        ∧ Forall (laid_out vw' vh') (modals p').
Proof.
  intros cards vw vh es st p.
  assert (H : window_listeners_ok p
              ∧ Forall (laid_out (innerWidth p) (innerHeight p)) (modals p)).
  { apply (run_events_preserves
             (fun p => window_listeners_ok p
                       ∧ Forall (laid_out (innerWidth p) (innerHeight p)) (modals p))).
    - intros st0 e. apply (step_laid_out st0 e).
    - split; [repeat split; constructor|constructor]. }
  split; [exact (proj2 H)|].
  intros vw' vh' p'.
  pose proof (step_laid_out st (Resize vw' vh') H) as [_ Hl'].
  fold p' in Hl'.
  assert (Hp' : p' = dispatch (on_resize (set_viewport vw' vh' p)) run_updateLayout
                       (set_viewport vw' vh' p)) by reflexivity.
  destruct (dispatch_relayout (on_resize (set_viewport vw' vh' p)) (set_viewport vw' vh' p))
    as (_ & _ & _ & _ & Hw & Hh & _).
  rewrite <- Hp' in Hw, Hh. cbn [set_viewport innerWidth innerHeight] in Hw, Hh.
  rewrite Hw, Hh in Hl'.
  repeat split; try assumption.
  rewrite Hp', dispatch_relayout_ids. reflexivity.
Qed.

(** *** The dimensions of a Vimeo video *)

Lemma Qzero_inject_Z n : Qzero (inject_Z n) = (n =? 0).
Proof.
  unfold Qzero. destruct (Qeq_bool (inject_Z n) 0) eqn:H.
  - apply Qeq_bool_eq in H. unfold Qeq in H. cbn in H.
    symmetry. apply Z.eqb_eq. lia.
  - symmetry. apply Z.eqb_neq. intros ->. discriminate.
Qed.

Lemma js_or_truthy a b : truthy b = true → truthy (js_or a b) = true.
Proof. intros Hb. unfold js_or. destruct (truthy a) eqn:Ha; assumption. Qed.

(** X5. [fetchVimeoInfo] never throws and touches neither the cards nor the
    player. The width and the height it returns are never falsy, a missing
    or zero dimension being replaced by 1920 or 1080, so that for integer
    dimensions the aspect ratio is their finite quotient and no division by
    zero occurs. When the request or the parse fails, the result is
    1920 x 1080 with ratio 16/9, and one line is logged. *)
Theorem fetchVimeoInfo_dimensions :
  ∀ vimeoId st,
    ∃ info st',
      fetchVimeoInfo_settle vimeoId st = (Ok info, st')
      ∧ grid st' = grid st ∧ player_of st' = player_of st
      ∧ truthy (info_width info) = true
      ∧ truthy (info_height info) = true
      ∧ (∀ w h, info_width info = VNum (Int w) → info_height info = VNum (Int h) →
           w ≠ 0 ∧ h ≠ 0
           ∧ ∃ q, info_aspectRatio info = RFin q ∧ (q == inject_Z w / inject_Z h)%Q)
      ∧ (∀ e, info_of_response vimeoId = Throw e →
           info = {| info_width := VNum (Int 1920);
                     info_height := VNum (Int 1080);
                     info_aspectRatio := RFin (16 # 9) |}
           ∧ console st'
             = console st ++ ["Could not fetch Vimeo info for " +:+ to_string vimeoId]).
Proof.
  intros vimeoId st. unfold fetchVimeoInfo_settle, try_eff, lift.
  destruct (info_of_response vimeoId) as [info|e] eqn:Hinfo.
  - exists info, st. do 3 (split; [reflexivity|]).
    unfold info_of_response in Hinfo.
    destruct (fetch_text (vimeo_api vimeoId)) as [body|]; [|discriminate].
    cbn in Hinfo. destruct (JSON_parse body) as [data|]; [|discriminate].
    cbn in Hinfo. destruct (index data 0) as [first|]; [|discriminate].
    cbn in Hinfo. injection Hinfo as <-. cbn [info_width info_height info_aspectRatio].
    split; [apply js_or_truthy; reflexivity|].
    split; [apply js_or_truthy; reflexivity|].
    split; [|discriminate].
    intros w h Hw Hh.
    assert (Hw0 : w ≠ 0).
    { pose proof (js_or_truthy (opt_prop first "width") (VNum (Int 1920)) eq_refl) as Ht.
      rewrite Hw in Ht. cbn in Ht. intros ->. discriminate. }
    assert (Hh0 : h ≠ 0).
    { pose proof (js_or_truthy (opt_prop first "height") (VNum (Int 1080)) eq_refl) as Ht.
      rewrite Hh in Ht. cbn in Ht. intros ->. discriminate. }
    do 2 (split; [assumption|]).
    rewrite Hw, Hh. cbn [ToNumber real_of_number rdiv].
    rewrite Qzero_inject_Z. apply Z.eqb_neq in Hh0. rewrite Hh0.
    eexists. split; [reflexivity|]. reflexivity.
  - eexists _, _. split; [reflexivity|].
    cbn [grid player_of info_width info_height info_aspectRatio truthy console].
    do 4 (split; [reflexivity|]).
    split.
    + intros w h Hw Hh. injection Hw as <-. injection Hh as <-.
      do 2 (split; [discriminate|]).
      eexists. split; [reflexivity|]. reflexivity.
    + intros e' _. split; reflexivity.
Qed.

(** ** The catalog loader, whatever the response *)

(** Rendering a row, whether it succeeds or throws, queues no timer, sends
    no request and leaves the player alone. *)
Lemma render_row_frame cols row d st :
  ∃ r st', render_row cols row d st = (r, st')
    ∧ timers st' = timers st ∧ player_of st' = player_of st
    ∧ requests st' = requests st.
Proof.
  unfold render_row. unfold eff_bind at 1. unfold lift at 1.
  destruct (parse_row cols row) as [video|e]; [|eexists _, _; split; [reflexivity|]; auto].
  unfold eff_bind at 1. unfold log at 1.
  destruct (truthy (field video "title")); [|eexists _, _; split; [reflexivity|]; auto].
  unfold eff_bind at 1. unfold lift at 1.
  destruct (createVideoCard video d) as [c|e]; eexists _, _; (split; [reflexivity|]); auto.
Qed.

Lemma render_rows_frame cols rows : ∀ d st,
  ∃ r st', forEach_from d rows (render_row cols) st = (r, st')
    ∧ timers st' = timers st ∧ player_of st' = player_of st
    ∧ requests st' = requests st.
Proof.
  induction rows as [|row rows IH]; intros d st.
  - eexists _, _. split; [reflexivity|]. auto.
  - rewrite forEach_from_cons.
    destruct (render_row_frame cols row d st) as (r & st1 & -> & Ht & Hp & Hr).
    destruct r as [[]|e].
    + destruct (IH (S d) st1) as (r' & st2 & -> & Ht' & Hp' & Hr').
      eexists _, _. split; [reflexivity|]. rewrite Ht', Hp', Hr'. auto.
    + eexists _, _. split; [reflexivity|]. auto.
Qed.

Lemma rebuild_grid_frame cols rows st :
  ∃ r st', rebuild_grid cols rows st = (r, st')
    ∧ timers st' = timers st ∧ player_of st' = player_of st
    ∧ requests st' = requests st.
Proof.
  unfold rebuild_grid.
  destruct (truthy rows); [|eexists _, _; split; [reflexivity|]; auto].
  unfold eff_bind at 1. unfold lift at 1.
  destruct (prop rows "length") as [len|e]; [|eexists _, _; split; [reflexivity|]; auto].
  destruct (js_gt len 1); [|eexists _, _; split; [reflexivity|]; auto].
  unfold eff_bind at 1. unfold set_grid at 1.
  destruct rows as [| | | | |l|]; try (eexists _, _; split; [reflexivity|]; auto).
  unfold forEach.
  match goal with
  | |- context [forEach_from 0 (drop 1 l) (render_row cols) ?st0] =>
      destruct (render_rows_frame cols (drop 1 l) 0 st0) as (r & st1 & -> & Ht & Hp & Hr)
  end.
  eexists _, _. split; [reflexivity|]. auto.
Qed.

(** The two ways in which a load ends: in the catch block, or in the steps
    that follow the rebuilding of the container. The page [st1] on which
    either runs has the timers and the player of the page the load started
    on. *)
Lemma load_outcome st :
  ∃ out st1,
    loadVideosFromSheet st = out
    ∧ (out = (log "Could not load from Google Sheets, using default content:" ;;;
              animateCardsIn) st1
       ∨ out = post_render st1)
    ∧ timers st1 = timers st ∧ player_of st1 = player_of st
    ∧ requests st1 = requests st ++ [SHEET_URL].
Proof.
  unfold loadVideosFromSheet, try_eff, fetch.
  unfold eff_bind at 1. unfold eff_bind at 1. unfold send_request at 1. unfold lift at 1.
  destruct (fetch_text SHEET_URL) as [body|e];
    [|eexists _, _; split; [reflexivity|]; split; [left; reflexivity|]; auto].
  unfold eff_bind at 1. unfold lift at 1.
  destruct (js_match (VStr body) envelope_re) as [[payload|]|e];
    try (eexists _, _; split; [reflexivity|]; split; [left; reflexivity|]; auto).
  unfold eff_bind at 1. unfold lift at 1.
  destruct (JSON_parse (to_string payload)) as [data|e];
    [|eexists _, _; split; [reflexivity|]; split; [left; reflexivity|]; auto].
  unfold eff_bind at 1. unfold lift at 1.
  destruct (table ← prop data "table"; prop table "rows") as [rows|e];
    [|eexists _, _; split; [reflexivity|]; split; [left; reflexivity|]; auto].
  unfold eff_bind at 1. unfold lift at 1.
  destruct (table ← prop data "table"; c ← prop table "cols"; resolve_cols c) as [cols|e];
    [|eexists _, _; split; [reflexivity|]; split; [left; reflexivity|]; auto].
  unfold eff_bind at 1. unfold log at 1.
  unfold eff_bind at 1. unfold log at 1.
  unfold eff_bind at 1.
  match goal with
  | |- context [rebuild_grid cols rows ?st0] =>
      destruct (rebuild_grid_frame cols rows st0) as (r & st1 & -> & Ht & Hp & Hr)
  end.
  cbn [timers player_of requests] in Ht, Hp, Hr.
  destruct r as [[]|e];
    [|eexists _, st1; split; [reflexivity|]; split; [left; reflexivity|]; auto].
  destruct (post_render_run st1) as (st' & Hpost & _).
  eexists _, st1. split; [rewrite Hpost; reflexivity|].
  split; [right; rewrite Hpost; reflexivity|auto].
Qed.

Lemma views_pass_styles c :
  style_opacity (views_pass c) = style_opacity c
  ∧ style_transform (views_pass c) = style_transform c
  ∧ style_transition (views_pass c) = style_transition c.
Proof.
  unfold views_pass. destruct (has_platform "youtube" c); [|auto].
  destruct (negb _); auto.
Qed.

Lemma thumbnail_pass_styles c :
  style_opacity (thumbnail_pass c) = style_opacity c
  ∧ style_transform (thumbnail_pass c) = style_transform c
  ∧ style_transition (thumbnail_pass c) = style_transition c.
Proof.
  unfold thumbnail_pass. destruct (wants_thumbnail c); [|auto].
  destruct (truthy _); auto.
Qed.

(** The entrance timers of [n] cards show every one of them. *)
Lemma entrance_shows_all (g : list card) :
  Forall (fun c => style_opacity c = "1" ∧ style_transform c = "translateY(0)"
                   ∧ style_transition c = "all 0.5s ease")
    (foldl (fun g (t : nat * nat) => alter show_card t.2 g) g
       (entrance_timers 0 (length g))).
Proof.
  pose proof (run_entrance g []) as H. cbn [app length] in H. rewrite H.
  apply Forall_forall. intros c Hc.
  apply list_elem_of_fmap in Hc as (c' & -> & _). auto.
Qed.

(** What every load ends with: the entrance animation, run on the page
    [st1] that the load has made of the container, followed at most by the
    enrichment, which leaves the inline styles alone. *)
Lemma load_ends st :
  ∃ st1 st' (f : card → card),
    loadVideosFromSheet st = (Ok tt, st')
    ∧ player_of st' = player_of st
    ∧ timers st' = timers st ++ entrance_timers 0 (length (grid st1))
    ∧ grid st' = map (fun c => f (hide_card c)) (grid st1)
    ∧ (∀ c, style_opacity (f c) = style_opacity c
            ∧ style_transform (f c) = style_transform c)
    ∧ ∃ more, requests st' = requests st ++ SHEET_URL :: more.
Proof.
  destruct (load_outcome st) as (out & st1 & -> & [-> | ->] & Ht & Hp & Hr).
  - rewrite catch_run. exists st1. eexists. exists (fun c => c).
    split; [reflexivity|].
    cbn [grid timers player_of requests]. rewrite Ht, Hp, Hr.
    do 3 (split; [reflexivity|]). split; [auto|exists []; reflexivity].
  - unfold post_render, eff_bind at 1. rewrite animateCardsIn_run.
    set (st2 := {| grid := map hide_card (grid st1) |}).
    destruct (updateAllViewCounts_run st2) as (st3 & Hrun3 & Hg3 & Ht3 & Hp3 & Hr3).
    unfold eff_bind. rewrite Hrun3.
    destruct (updateVimeoThumbnails_run st3) as (st4 & Hrun4 & Hg4 & Ht4 & Hp4 & Hr4).
    exists st1, st4, (fun c => thumbnail_pass (views_pass c)).
    split; [exact Hrun4|].
    rewrite Hg4, Hg3, Ht4, Ht3, Hp4, Hp3, Hr4, Hr3. subst st2.
    cbn [grid timers player_of requests]. rewrite Ht, Hp, Hr, !map_map.
    do 3 (split; [reflexivity|]). split.
    + intros c. destruct (thumbnail_pass_styles (views_pass c)) as (-> & -> & _).
      destruct (views_pass_styles c) as (-> & -> & _). auto.
    + eexists. rewrite <- !app_assoc. reflexivity.
Qed.

(** X6. Whatever the network answers and whatever the answer holds, the
    loader returns without throwing and leaves the modal player alone; its
    first request is the one for the sheet; and when it returns, every card
    of the container is hidden for the entrance animation, and the timers it
    has queued are one per card of the container, staggered by 100 ms. *)
Theorem load_always_animates :
  ∀ st,
    ∃ st',
      loadVideosFromSheet st = (Ok tt, st')
      ∧ player_of st' = player_of st
      ∧ timers st' = timers st ++ entrance_timers 0 (length (grid st'))
      ∧ Forall (fun c => style_opacity c = "0" ∧ style_transform c = "translateY(20px)")
          (grid st')
      ∧ ∃ more, requests st' = requests st ++ SHEET_URL :: more.
Proof.
  intros st.
  destruct (load_ends st) as (st1 & st' & f & Hrun & Hp & Ht & Hg & Hf & Hr).
  exists st'. split; [exact Hrun|]. split; [exact Hp|].
  split; [rewrite Ht, Hg, length_map; reflexivity|].
  split; [|exact Hr].
  rewrite Hg. apply Forall_forall. intros c Hc.
  apply list_elem_of_fmap in Hc as (c' & -> & _).
  destruct (Hf (hide_card c')) as [-> ->]. auto.
Qed.

(** X7. On a page with no timer pending, once the timers that the load has
    queued have fired, every card of the container is shown: opacity 1, no
    offset, and the entrance transition. No outcome of the load leaves a
    card invisible. *)
Theorem load_shows_every_card :
  ∀ st,
    timers st = [] →
    Forall (fun c => style_opacity c = "1" ∧ style_transform c = "translateY(0)"
                     ∧ style_transition c = "all 0.5s ease")
      (grid (run_timers (loadVideosFromSheet st).2)).
Proof.
  intros st Hnone.
  destruct (load_ends st) as (st1 & st' & f & -> & _ & Ht & Hg & _).
  unfold run_timers. cbn [snd grid]. rewrite Ht, Hnone. cbn [app].
  replace (length (grid st1)) with (length (grid st')) by (rewrite Hg; apply length_map).
  apply entrance_shows_all.
Qed.

(** What the catch block leaves of a page on which nothing but the request
    has happened. *)
Lemma load_caught_early st :
  loadVideosFromSheet st
  = (log "Could not load from Google Sheets, using default content:" ;;;
     animateCardsIn)
      {| grid := grid st; timers := timers st; console := console st;
         requests := requests st ++ [SHEET_URL]; player_of := player_of st |} →
  ∃ st', loadVideosFromSheet st = (Ok tt, st')
    ∧ grid st' = map hide_card (grid st)
    ∧ timers st' = timers st ++ entrance_timers 0 (length (grid st))
    ∧ console st'
      = console st ++ ["Could not load from Google Sheets, using default content:"]
    ∧ requests st' = requests st ++ [SHEET_URL]
    ∧ player_of st' = player_of st.
Proof.
  intros ->. rewrite catch_run. eexists. split; [reflexivity|].
  cbn [grid timers console requests player_of]. auto.
Qed.

(** X8. The failures that come before the container is touched, other than
    a bad envelope or bad JSON, end in the same way: when the request for
    the sheet fails, and when the parsed payload has no table, no rows or
    no usable column list (reading [data.table.rows] throws, or reading and
    naming [data.table.cols] throws), the loader returns normally, the
    container holds the cards it held, hidden for a new entrance animation,
    one line is logged, and no request but the one for the sheet is sent. *)
Theorem load_failure_before_rebuild :
  ∀ st e,
    (fetch_text SHEET_URL = Throw e
     ∨ ∃ body payload data,
         fetch_text SHEET_URL = Ok body
         ∧ js_match (VStr body) envelope_re = Ok (Some payload)
         ∧ JSON_parse (to_string payload) = Ok data
         ∧ ((table ← prop data "table"; prop table "rows") = Throw e
            ∨ (table ← prop data "table"; c ← prop table "cols"; resolve_cols c)
              = Throw e)) →
    ∃ st', loadVideosFromSheet st = (Ok tt, st')
      ∧ grid st' = map hide_card (grid st)
      ∧ timers st' = timers st ++ entrance_timers 0 (length (grid st))
      ∧ console st'
        = console st ++ ["Could not load from Google Sheets, using default content:"]
      ∧ requests st' = requests st ++ [SHEET_URL]
      ∧ player_of st' = player_of st.
Proof.
  intros st e Hcause. apply load_caught_early.
  unfold loadVideosFromSheet, try_eff, fetch.
  unfold eff_bind at 1. unfold eff_bind at 1. unfold send_request at 1. unfold lift at 1.
  destruct Hcause as [Hf|(body & payload & data & Hf & Hm & Hp & Hcause)]; rewrite Hf;
    [reflexivity|].
  unfold eff_bind at 1. unfold lift at 1. rewrite Hm.
  unfold eff_bind at 1. unfold lift at 1. rewrite Hp.
  unfold eff_bind at 1. unfold lift at 1.
  destruct (table ← prop data "table"; prop table "rows") as [rows|e'] eqn:Hrows;
    [|reflexivity].
  destruct Hcause as [Hcause|Hcause]; [discriminate|].
  unfold eff_bind at 1. unfold lift at 1. rewrite Hcause. reflexivity.
Qed.

(** *** A row that cannot be rendered *)

Lemma forEach_from_app {A} (l1 l2 : list A) body : ∀ d st,
  forEach_from d (l1 ++ l2) body st
  = match forEach_from d l1 body st with
    | (Ok _, st1) => forEach_from (d + length l1) l2 body st1
    | (Throw e, st1) => (Throw e, st1)
    end.
Proof.
  induction l1 as [|a l1 IH]; intros d st.
  - cbn. rewrite Nat.add_0_r. reflexivity.
  - cbn [app length]. rewrite !forEach_from_cons.
    destruct (body a d st) as [[[]|e] st1]; [|reflexivity].
    rewrite IH. replace (S d + length l1)%nat with (d + S (length l1))%nat by lia.
    reflexivity.
Qed.

(** A row whose record cannot be built, or whose card cannot, throws and
    appends nothing. *)
Lemma render_row_throws names row d e st :
  (parse_row names row = Throw e
   ∨ ∃ video, parse_row names row = Ok video
              ∧ truthy (field video "title") = true
              ∧ createVideoCard video d = Throw e) →
  ∃ st', render_row names row d st = (Throw e, st')
    ∧ grid st' = grid st ∧ timers st' = timers st
    ∧ requests st' = requests st ∧ player_of st' = player_of st.
Proof.
  intros [Hp|(video & Hp & Ht & Hc)]; unfold render_row;
    unfold eff_bind at 1; unfold lift at 1; rewrite Hp.
  - eexists. split; [reflexivity|]. auto.
  - unfold eff_bind at 1. unfold log at 1. rewrite Ht.
    unfold eff_bind at 1. unfold lift at 1. rewrite Hc.
    eexists. split; [reflexivity|]. auto.
Qed.

(** X9. A data row that cannot be rendered (its record cannot be built, or
    it has a title and building its card throws, as for a video address that
    is a number) ends the rebuilding where it stands: the loader returns
    normally; the cards the container held before the load are gone; it
    holds the cards of the well-formed rows before the failing one, hidden
    for the entrance animation; the rows after the failing one are not
    rendered; and the enrichment steps are not run, so that no request but
    the one for the sheet is sent. *)
Theorem failing_row_ends_rebuild :
  ∀ st body payload data table cols names header good videos bad rest e,
    fetch_text SHEET_URL = Ok body →
    js_match (VStr body) envelope_re = Ok (Some payload) →
    JSON_parse (to_string payload) = Ok data →
    prop data "table" = Ok table →
    prop table "cols" = Ok cols →
    resolve_cols cols = Ok names →
    prop table "rows" = Ok (VArr (header :: good ++ bad :: rest)) →
    Forall2 (fun row video => parse_row names row = Ok video ∧ well_formed_record video)
            good videos →
    (parse_row names bad = Throw e
     ∨ ∃ video, parse_row names bad = Ok video
                ∧ truthy (field video "title") = true
                ∧ createVideoCard video (length good) = Throw e) →
    ∃ cards st',
      loadVideosFromSheet st = (Ok tt, st')
      ∧ Forall2 rendered (titled_from 0 videos) cards
      ∧ grid st' = map hide_card cards
      ∧ timers st' = timers st ++ entrance_timers 0 (length cards)
      ∧ last (console st')
        = Some "Could not load from Google Sheets, using default content:"
      ∧ requests st' = requests st ++ [SHEET_URL].
Proof.
  intros st body payload data table cols names header good videos bad rest e
         Hf Hm Hp Ht Hc Hn Hr Hrows Hbad.
  rewrite (load_parsed st body payload data table cols names
             (VArr (header :: good ++ bad :: rest))) by assumption.
  set (st1 := {| grid := grid st |}).
  assert (Hbuild : ∃ cards st2,
            rebuild_grid names (VArr (header :: good ++ bad :: rest)) st1 = (Throw e, st2)
            ∧ Forall2 rendered (titled_from 0 videos) cards
            ∧ grid st2 = cards ∧ timers st2 = timers st
            ∧ requests st2 = requests st ++ [SHEET_URL]).
  { unfold rebuild_grid. cbn [truthy]. unfold eff_bind at 1, lift.
    change (prop (VArr (header :: good ++ bad :: rest)) "length")
      with (Ok (VNum (Int (Z.of_nat (length (header :: good ++ bad :: rest)))))).
    cbv beta iota.
    assert (Hgt : js_gt (VNum (Int (Z.of_nat (length (header :: good ++ bad :: rest))))) 1
                  = true).
    { unfold js_gt. cbn [ToNumber]. apply Z.ltb_lt.
      cbn [length]. rewrite length_app. cbn [length]. lia. }
    rewrite Hgt. unfold eff_bind, set_grid. cbn [grid timers console requests player_of drop].
    unfold forEach. rewrite drop_0, forEach_from_app.
    match goal with |- context [forEach_from 0 good (render_row names) ?s] =>
      destruct (render_rows_from names good videos 0%nat s Hrows)
        as (cards & st2 & -> & Hg & Hall & Ht2 & _ & Hr2)
    end.
    cbn [grid timers requests app] in Hg, Ht2, Hr2.
    rewrite forEach_from_cons.
    destruct (render_row_throws names bad (0 + length good) e st2 Hbad)
      as (st3 & -> & Hg3 & Ht3 & Hr3 & _).
    exists cards, st3. split; [reflexivity|].
    rewrite Hg3, Ht3, Hr3, Hg, Ht2, Hr2. auto. }
  destruct Hbuild as (cards & st2 & Hbuild & Hall & Hg2 & Ht2 & Hr2).
  unfold try_eff. unfold eff_bind at 1. rewrite Hbuild, catch_run.
  exists cards. eexists. split; [reflexivity|].
  cbn [grid timers console requests]. rewrite Hg2, Ht2, Hr2.
  split; [exact Hall|]. do 2 (split; [reflexivity|]).
  split; [apply last_snoc|reflexivity].
Qed.

(** ** Columns and records *)

Lemma map_from_lookup {A B} (f : A → nat → result B) (l : list A) : ∀ i bs,
  map_from i l f = Ok bs →
  length bs = length l
  ∧ ∀ j a, l !! j = Some a → ∃ b, bs !! j = Some b ∧ f a (i + j)%nat = Ok b.
Proof.
  induction l as [|a l IH]; intros i bs H.
  - injection H as <-. split; [reflexivity|]. intros j a' Hj. discriminate.
  - cbn [map_from] in H. destruct (f a i) as [b|] eqn:Hb; [|discriminate].
    cbn in H. destruct (map_from (S i) l f) as [bs'|] eqn:Hbs; [|discriminate].
    cbn in H. injection H as <-. destruct (IH (S i) bs' Hbs) as [Hlen Hall].
    split; [cbn; rewrite Hlen; reflexivity|].
    intros [|j] a' Hj.
    + injection Hj as <-. exists b. rewrite Nat.add_0_r. auto.
    + cbn in Hj. destruct (Hall j a' Hj) as (b' & Hb' & Hf).
      exists b'. split; [exact Hb'|].
      replace (i + S j)%nat with (S i + j)%nat by lia. exact Hf.
Qed.

Lemma column_name_nonempty c i n : column_name c i = Ok n → n ≠ "".
Proof.
  unfold column_name. destruct (prop c "label") as [l|]; [|discriminate].
  cbn [mbind result_bind]. destruct (js_or l (VStr "")) as [| | | |s| |]; try discriminate.
  destruct (truthy (VStr (trim (toLowerCase s)))) eqn:Ht.
  - intros [= <-]. cbn in Ht. intros Heq. rewrite Heq in Ht. discriminate.
  - intros [= <-].
    destruct i as [|[|[|[|[|[|i]]]]]]; cbn; discriminate.
Qed.

(** X10. When the column list resolves, there is one name per column, no
    name is empty, and a column whose label is missing or empty is named by
    its position: [title], [tags], [icon], [views], [videourl], [thumbnail]
    for the first six, and [col] followed by its index beyond them. *)
Theorem resolved_columns_named :
  ∀ l names,
    resolve_cols (VArr l) = Ok names →
    length names = length l
    ∧ Forall (fun n => n ≠ "") names
    ∧ ∀ i c lbl,
        l !! i = Some c → prop c "label" = Ok lbl → truthy lbl = false →
        names !! i = Some (default ("col" +:+ pretty i) (colMap !! i)).
Proof.
  intros l names H. cbn [resolve_cols] in H.
  destruct (map_from_lookup column_name l 0 names H) as [Hlen Hall].
  split; [exact Hlen|]. split.
  - apply Forall_lookup. intros j n Hj.
    destruct (lookup_lt_is_Some_2 l j) as [c Hc];
      [rewrite <- Hlen; eapply lookup_lt_Some, Hj|].
    destruct (Hall j c Hc) as (n' & Hn' & Hname).
    rewrite Hj in Hn'. injection Hn' as <-.
    eapply column_name_nonempty, Hname.
  - intros i c lbl Hi Hlbl Hfalsy.
    destruct (Hall i c Hi) as (n & Hn & Hname). rewrite Hn. f_equal.
    cbn [Nat.add] in Hname. unfold column_name in Hname. rewrite Hlbl in Hname.
    cbn [mbind result_bind] in Hname. unfold js_or in Hname. rewrite Hfalsy in Hname.
    change (trim (toLowerCase "")) with "" in Hname. cbn [truthy String.eqb negb] in Hname.
    injection Hname as <-. destruct (colMap !! i); reflexivity.
Qed.

Lemma fill_record_entries names : ∀ cells i video video',
  fill_record names i cells video = Ok video' →
  ∀ k v, video' !! k = Some v →
    video !! k = Some v
    ∨ (k ≠ ""
       ∧ ∃ j cell, names !! (i + j)%nat = Some k ∧ cells !! j = Some cell
                   ∧ truthy cell = true ∧ cell_value cell = Ok v).
Proof.
  induction cells as [|cell cells IH]; intros i video video' H k v Hk.
  - injection H as <-. left. exact Hk.
  - cbn [fill_record] in H.
    assert (Hlater : ∀ video1,
              fill_record names (S i) cells video1 = Ok video' →
              video1 !! k = Some v
              ∨ (k ≠ ""
                 ∧ ∃ j cell', names !! (i + j)%nat = Some k
                              ∧ (cell :: cells) !! j = Some cell'
                              ∧ truthy cell' = true ∧ cell_value cell' = Ok v)).
    { intros video1 H1. destruct (IH (S i) video1 video' H1 k v Hk)
        as [Hv|(Hne & j & cell' & Hn & Hc & Ht & Hval)]; [left; exact Hv|].
      right. split; [exact Hne|]. exists (S j), cell'.
      replace (i + S j)%nat with (S i + j)%nat by lia. auto. }
    destruct (names !! i) as [name|] eqn:Hname; [|cbn in H; apply Hlater, H].
    destruct (truthy (VStr name) && truthy cell) eqn:Hboth; [|cbn in H; apply Hlater, H].
    apply andb_true_iff in Hboth as [Hn Hc].
    destruct (cell_value cell) as [v0|] eqn:Hval; [|discriminate].
    cbn in H. destruct (Hlater _ H) as [Hv|Hv]; [|right; exact Hv].
    apply lookup_insert_Some in Hv as [[<- <-]|[_ Hv]]; [|left; exact Hv].
    right. split.
    + intros ->. discriminate.
    + exists 0%nat, cell. rewrite Nat.add_0_r. auto.
Qed.

(** X11. Every entry of the record built from a row comes from the row: its
    key is the non-empty name of a column, and its value is what a cell of
    the row that is not null, in the position of a column of that name,
    contributes. Null cells and cells beyond the last column leave no
    entry. *)
Theorem record_entries_come_from_cells :
  ∀ names row video,
    parse_row names row = Ok video →
    ∃ cells,
      prop row "c" = Ok (VArr cells)
      ∧ ∀ k v, video !! k = Some v →
          k ≠ ""
          ∧ ∃ i cell, names !! i = Some k ∧ cells !! i = Some cell
                      ∧ truthy cell = true ∧ cell_value cell = Ok v.
Proof.
  intros names row video H. unfold parse_row in H.
  destruct (prop row "c") as [c|]; [|discriminate]. cbn [mbind result_bind] in H.
  destruct c as [| | | | |cells|]; try discriminate.
  exists cells. split; [reflexivity|]. intros k v Hk.
  destruct (fill_record_entries names cells 0 ∅ video H k v Hk) as [Hempty|Hentry].
  - rewrite lookup_empty in Hempty. discriminate.
  - exact Hentry.
Qed.

(** ** Cards *)

(** X12. The click handler of a card built by [createVideoCard] agrees with
    the data attributes of the card, and it does not throw. When a click
    opens the player, the card carries that platform and that id in its
    [data-platform] and [data-video-id], the title passed on is the record's,
    and a YouTube card starts with the [Loading...] placeholder; when a click
    opens the address in a new window, or shows the coming-soon alert, the
    card has no platform and no id, and it has a [data-video-url] exactly in
    the first case. *)
Theorem card_click_matches_dataset :
  ∀ video index c,
    createVideoCard video index = Ok c →
    ∃ effect,
      card_click c = Ok effect
      ∧ match effect with
        | OpensPlayer pf id title =>
            data_platform c = Some (platform_name pf)
            ∧ data_videoId c = Some (to_string id)
            ∧ title = field video "title"
            ∧ (pf = youtube → view_count c = "⭐ Loading... views")
        | OpensWindow url =>
            data_platform c = None ∧ data_videoId c = None
            ∧ data_videoUrl c = Some (to_string url)
        | ComingSoon =>
            data_platform c = None ∧ data_videoId c = None
            ∧ data_videoUrl c = None
        end.
Proof.
  intros video index c H. unfold createVideoCard in H.
  destruct (getVideoPlatform (video_url video)) as [platform|] eqn:Hp; [|discriminate].
  cbn [mbind result_bind] in H.
  destruct (getThumbnail (video_url video) (field video "thumbnail")) as [thumbnail|];
    [|discriminate].
  cbn [mbind result_bind] in H. injection H as <-.
  unfold card_click. cbn [click_url click_title]. rewrite Hp. cbn [mbind result_bind].
  destruct platform as [[pf id]|].
  - eexists. split; [reflexivity|]. cbn.
    do 3 (split; [reflexivity|]). intros ->. reflexivity.
  - destruct (truthy (video_url video)); eexists; (split; [reflexivity|]); cbn; auto.
Qed.

Lemma gradient_includes index :
  includes (gradient_background index) "linear-gradient" = true.
Proof. reflexivity. Qed.

(** X13. Where the thumbnail of a card built by [createVideoCard] comes
    from. A custom thumbnail of the record is shown whatever the platform;
    without one, a YouTube card shows the [hqdefault.jpg] of its own video
    id; and without either the card shows a palette gradient, in which case
    a Vimeo card is one that the thumbnail enrichment fetches for. *)
Theorem thumbnail_precedence :
  ∀ video index c,
    createVideoCard video index = Ok c →
    (truthy (field video "thumbnail") = true →
       thumb_background c
       = "url('" +:+ to_string (field video "thumbnail") +:+ "') center/cover")
    ∧ (truthy (field video "thumbnail") = false → has_platform "youtube" c = true →
         ∃ id, data_videoId c = Some id
               ∧ thumb_background c
                 = "url('" +:+ ("https://img.youtube.com/vi/" +:+ id +:+ "/hqdefault.jpg")
                   +:+ "') center/cover")
    ∧ (truthy (field video "thumbnail") = false → has_platform "youtube" c = false →
         thumb_background c = gradient_background index
         ∧ wants_thumbnail c = has_platform "vimeo" c).
Proof.
  intros video index c H. unfold createVideoCard in H.
  destruct (getVideoPlatform (video_url video)) as [platform|] eqn:Hp; [|discriminate].
  cbn [mbind result_bind] in H.
  destruct (getThumbnail (video_url video) (field video "thumbnail")) as [thumbnail|] eqn:Hth;
    [|discriminate].
  cbn [mbind result_bind] in H. injection H as <-.
  unfold has_platform, wants_thumbnail, has_platform.
  cbn [thumb_background data_videoId data_platform].
  unfold getVideoPlatform in Hp. unfold getThumbnail in Hth.
  destruct (truthy (field video "thumbnail")) eqn:Hcustom.
  { injection Hth as <-. rewrite Hcustom.
    split; [reflexivity|]. split; intros; discriminate. }
  split; [discriminate|].
  destruct (getYouTubeId (video_url video)) as [ytId|]; [|discriminate].
  cbn [mbind result_bind] in Hp, Hth.
  destruct (truthy ytId) eqn:Hyt.
  - injection Hp as <-. injection Hth as <-. cbn. split.
    + intros _ _. eexists. split; reflexivity.
    + intros _ Hno. discriminate.
  - injection Hth as <-.
    destruct (getVimeoId (video_url video)) as [vimeoId|]; [|discriminate].
    cbn [mbind result_bind] in Hp.
    destruct (truthy vimeoId); injection Hp as <-; cbn [truthy fmap option_fmap option_map].
    + split; [intros _ Hyes; discriminate|]. intros _ _.
      split; [reflexivity|]. rewrite gradient_includes. apply andb_true_r.
    + split; [intros _ Hyes; discriminate|]. intros _ _.
      split; reflexivity.
Qed.

(** ** The two enrichment passes *)

Lemma views_pass_cases c :
  views_pass c = c ∨ ∃ t, views_pass c = set_view_count t c.
Proof.
  unfold views_pass. destruct (has_platform "youtube" c); [|auto].
  destruct (negb _); eauto.
Qed.

Lemma thumbnail_pass_cases c :
  thumbnail_pass c = c ∨ ∃ b, thumbnail_pass c = set_thumb_background b c.
Proof.
  unfold thumbnail_pass. destruct (wants_thumbnail c); [|auto].
  destruct (truthy _); eauto.
Qed.

Lemma views_pass_set_thumb b c :
  views_pass (set_thumb_background b c) = set_thumb_background b (views_pass c).
Proof.
  unfold views_pass, has_platform, dataset_videoId.
  cbn [set_thumb_background data_platform data_videoId].
  destruct (data_platform c) as [p|]; [|reflexivity].
  destruct (String.eqb p "youtube"); [|reflexivity].
  destruct (negb _); reflexivity.
Qed.

Lemma thumbnail_pass_set_views t c :
  thumbnail_pass (set_view_count t c) = set_view_count t (thumbnail_pass c).
Proof.
  unfold thumbnail_pass, wants_thumbnail, has_platform, dataset_videoId.
  cbn [set_view_count data_platform data_videoId thumb_background].
  destruct (data_platform c) as [p|]; [|reflexivity].
  destruct (String.eqb p "vimeo" && includes (thumb_background c) "linear-gradient");
    [|reflexivity].
  destruct (truthy _); reflexivity.
Qed.

Lemma passes_commute c : views_pass (thumbnail_pass c) = thumbnail_pass (views_pass c).
Proof.
  destruct (thumbnail_pass_cases c) as [Ht|(b & Ht)],
           (views_pass_cases c) as [Hv|(t & Hv)];
    rewrite Ht, ?views_pass_set_thumb, Hv, ?thumbnail_pass_set_views, ?Ht; reflexivity.
Qed.

Lemma views_pass_frame c :
  enriched_from c (views_pass c)
  ∧ thumb_background (views_pass c) = thumb_background c
  ∧ (has_platform "youtube" c = false → views_pass c = c).
Proof.
  unfold views_pass, enriched_from. destruct (has_platform "youtube" c).
  - destruct (negb _); cbn; repeat split; discriminate.
  - repeat split.
Qed.

Lemma thumbnail_pass_frame c :
  enriched_from c (thumbnail_pass c)
  ∧ view_count (thumbnail_pass c) = view_count c
  ∧ (has_platform "vimeo" c = false → thumbnail_pass c = c).
Proof.
  unfold thumbnail_pass, wants_thumbnail, enriched_from.
  destruct (has_platform "vimeo" c); cbn [andb].
  - destruct (includes _ _); [|repeat split; discriminate].
    destruct (truthy _); cbn; repeat split; discriminate.
  - repeat split.
Qed.

(** X14. The two enrichment passes do not interfere: run in either order
    they leave the same cards in the container, so that it does not matter
    which responses arrive first. Together they change nothing of a card but
    the view-count text of a YouTube card and the thumbnail background of a
    Vimeo card; the number and the order of the cards, their data
    attributes, titles and inline styles stay as they were. *)
Theorem enrichment_passes_commute :
  ∀ st,
    let after := (updateAllViewCounts ;;; updateVimeoThumbnails) st in
    let swapped := (updateVimeoThumbnails ;;; updateAllViewCounts) st in
    after.1 = Ok tt ∧ swapped.1 = Ok tt
    ∧ grid after.2 = grid swapped.2
    ∧ Forall2 (fun c c' =>
         enriched_from c c'
         ∧ (has_platform "youtube" c = false → view_count c' = view_count c)
         ∧ (has_platform "vimeo" c = false → thumb_background c' = thumb_background c))
        (grid st) (grid after.2).
Proof.
  intros st after swapped. subst after swapped. unfold eff_bind.
  destruct (updateAllViewCounts_run st) as (st1 & -> & Hg1 & _).
  destruct (updateVimeoThumbnails_run st1) as (st2 & -> & Hg2 & _).
  destruct (updateVimeoThumbnails_run st) as (st3 & -> & Hg3 & _).
  destruct (updateAllViewCounts_run st3) as (st4 & -> & Hg4 & _).
  cbn [fst snd]. do 2 (split; [reflexivity|]).
  rewrite Hg2, Hg1, Hg4, Hg3, !map_map. split.
  - apply map_ext. intros c. symmetry. apply passes_commute.
  - apply Forall2_fmap_r, Forall_Forall2_diag, Forall_forall. intros c _.
    destruct (views_pass_frame c) as (Hv & Hvb & Hvno).
    destruct (thumbnail_pass_frame (views_pass c)) as (Ht & Htv & Htno).
    unfold enriched_from in *.
    destruct Hv as (V1 & V2 & V3 & V4 & V5 & V6 & V7 & V8 & V9 & V10 & V11).
    destruct Ht as (T1 & T2 & T3 & T4 & T5 & T6 & T7 & T8 & T9 & T10 & T11).
    split; [repeat split; congruence|]. split.
    + intros Hno. rewrite Htv, (Hvno Hno). reflexivity.
    + intros Hno. rewrite Htno, Hvb; [reflexivity|].
      unfold has_platform in *. rewrite V3. exact Hno.
Qed.

(** ** The envelope pattern *)

Lemma star_any_suffix {A} (a b : list ascii) (k : list ascii → option A) x :
  star cls_any b k = Some x → star cls_any (a ++ b) k = Some x.
Proof.
  intros H. induction a as [|c a IH]; [exact H|].
  cbn [app star cls_any]. rewrite IH. reflexivity.
Qed.

Lemma envelope_run payload tail :
  tail = chars ")" ∨ tail = chars ");" →
  run envelope_re (chars setResponse_open ++ payload ++ tail) None (fun _ c => Some c)
  = Some (Some payload).
Proof.
  intros Htail. unfold envelope_re. cbn [run]. rewrite strip_prefix_app.
  rewrite <- (take_front payload tail) at 2.
  apply star_any_suffix.
  destruct Htail as [-> | ->]; reflexivity.
Qed.

Lemma envelope_skip c s :
  c ≠ "g"%char →
  run envelope_re (c :: s) None (fun _ cap => Some cap) = None.
Proof.
  intros Hc. unfold envelope_re. cbn [run].
  change (chars "google.visualization.Query.setResponse(")
    with ("g"%char :: chars "oogle.visualization.Query.setResponse(").
  cbn [strip_prefix].
  assert (Hne : Ascii.eqb "g" c = false) by (apply Ascii.eqb_neq; congruence).
  rewrite Hne. reflexivity.
Qed.

Lemma envelope_search pre payload tail :
  Forall (fun c => c ≠ "g"%char) pre →
  tail = chars ")" ∨ tail = chars ");" →
  search envelope_re (pre ++ chars setResponse_open ++ payload ++ tail)
  = Some (Some payload).
Proof.
  intros Hpre Htail. induction Hpre as [|c pre Hc _ IH].
  - cbn [app]. change (chars setResponse_open)
      with ("g"%char :: chars "oogle.visualization.Query.setResponse(").
    cbn [app search].
    change ("g"%char :: chars "oogle.visualization.Query.setResponse(" ++ payload ++ tail)
      with (chars setResponse_open ++ payload ++ tail).
    rewrite envelope_run by exact Htail. reflexivity.
  - cbn [app search]. rewrite envelope_skip by exact Hc. exact IH.
Qed.

(** What the envelope pattern matches: the opening text, the payload, a
    closing parenthesis and at most one semicolon, up to the end of the
    input. *)
Lemma envelope_matches m rest cap :
  matches envelope_re m rest None cap →
  ∃ payload tail,
    m = chars setResponse_open ++ payload ++ tail
    ∧ (tail = chars ")" ∨ tail = chars ");")
    ∧ rest = [] ∧ cap = Some payload.
Proof.
  unfold envelope_re. intros H.
  inversion H as [|? ? s1 s2' ? ? c1 ? H1 H2| | | | | | | |]; subst; clear H.
  apply matches_Lit_inv in H1 as [-> ->].
  inversion H2 as [|? ? s2 s3' ? ? c2 ? H3 H4| | | | | | | |]; subst; clear H2.
  inversion H3 as [| | | | | | | |? ? ? ? ? H3'|]; subst; clear H3.
  inversion H4 as [|? ? s3 s4' ? ? c3 ? H5 H6| | | | | | | |]; subst; clear H4.
  apply matches_Lit_inv in H5 as [-> ->].
  inversion H6 as [|? ? s4 s5 ? ? c4 ? H7 H8| | | | | | | |]; subst; clear H6.
  inversion H8; subst; clear H8.
  exists s2. inversion H7 as [| | | | | |? ? ? ? ? H9|? ? ?|  |]; subst; clear H7.
  - apply matches_Lit_inv in H9 as [-> Hcap]. subst.
    exists (chars ");"). repeat split; auto.
  - exists (chars ")"). repeat split; auto.
Qed.

(** X15. What the envelope pattern extracts. From a text made of a prefix
    without the letter g (the comment that the sheet service sends first is
    one), the opening [google.visualization.Query.setResponse(], a payload
    and a closing [)] or [);], the match is the payload, whatever characters
    the payload holds. Conversely, whenever the pattern matches, the text
    ends with [)] or [);] right after the payload that is extracted; and a
    text whose last character is neither [)] nor [;] (a trailing newline is
    enough) does not match, so that the load fails. *)
Theorem envelope_extracts_payload :
  (∀ pre payload tail,
     Forall (fun c => c ≠ "g"%char) (chars pre) →
     tail = ")" ∨ tail = ");" →
     js_match (VStr (pre +:+ setResponse_open +:+ payload +:+ tail)) envelope_re
     = Ok (Some (VStr payload)))
  ∧ (∀ body found,
       js_match (VStr body) envelope_re = Ok (Some found) →
       ∃ pre payload tail,
         body = pre +:+ setResponse_open +:+ payload +:+ tail
         ∧ (tail = ")" ∨ tail = ");")
         ∧ found = VStr payload)
  ∧ (∀ body c,
       c ≠ ")"%char → c ≠ ";"%char →
       js_match (VStr (body +:+ String c "")) envelope_re = Ok None).
Proof.
  assert (Hsound : ∀ body cap,
            search envelope_re (chars body) = Some cap →
            ∃ pre payload tail,
              body = pre +:+ setResponse_open +:+ payload +:+ tail
              ∧ (tail = ")" ∨ tail = ");")
              ∧ cap = Some (chars payload)).
  { intros body cap H.
    apply search_sound in H as (pre & m & rest & Hbody & Hm).
    apply envelope_matches in Hm as (payload & tail & -> & Htail & -> & ->).
    exists (text pre), (text payload), (text tail).
    split; [|split].
    - apply chars_inj. rewrite !chars_app, !chars_text, Hbody, app_nil_r, <- ?app_assoc.
      reflexivity.
    - destruct Htail as [-> | ->]; [left|right]; reflexivity.
    - rewrite chars_text. reflexivity. }
  split; [|split].
  - intros pre payload tail Hpre Htail. cbn [js_match].
    rewrite !chars_app, envelope_search, text_chars; [reflexivity|exact Hpre|].
    destruct Htail as [-> | ->]; [left|right]; reflexivity.
  - intros body found H. cbn [js_match] in H.
    destruct (search envelope_re (chars body)) as [cap|] eqn:Hs; [|discriminate].
    destruct (Hsound body cap Hs) as (pre & payload & tail & Hbody & Htail & ->).
    injection H as <-. exists pre, payload, tail. rewrite text_chars. auto.
  - intros body c Hc1 Hc2. cbn [js_match].
    destruct (search envelope_re (chars (body +:+ String c ""))) as [cap|] eqn:Hs;
      [|reflexivity].
    exfalso.
    destruct (Hsound _ cap Hs) as (pre & payload & tail & Hbody & Htail & _).
    apply (f_equal chars) in Hbody. rewrite !chars_app in Hbody.
    apply (f_equal last) in Hbody.
    change (chars (String c "")) with [c] in Hbody. rewrite last_snoc in Hbody.
    rewrite !app_assoc in Hbody.
    destruct Htail as [-> | ->].
    + change (chars ")") with [")"%char] in Hbody. rewrite last_snoc in Hbody.
      congruence.
    + change (chars ");") with ([")"%char] ++ [";"%char]) in Hbody.
      rewrite app_assoc, last_snoc in Hbody. congruence.
Qed.

(** ** Rounding in formatViews *)

(** In the two bands with a suffix, what is printed is the numeral of the
    tenths that [toFixed(1)] computes for the quotient. *)
Lemma formatViews_band n b lb suffix :
  0 < n ≤ MAX_SAFE_INTEGER → 0 < b → 0 < lb → lb ≤ Z.log2 b →
  b < 2 ^ (lb + 1) → b mod 20 = 0 →
  (replace_dot0_end (div_toFixed1 (VNum (Int n)) b) +:+ suffix
   = one_decimal (tenths (div_pos n b)) +:+ suffix)
  ∧ 0 ≤ tenths (div_pos n b)
  ∧ 2 * Z.abs (tenths (div_pos n b) * b - 10 * n) ≤ b.
Proof.
  intros Hn Hb Hlb0 Hlb Hsmall H20.
  destruct (tenths_nearest n b lb Hn Hb Hlb0 Hlb Hsmall H20) as [Hk0 Hk].
  split; [|split; assumption].
  unfold div_toFixed1. cbn [ToNumber]. rewrite toFixed1_stripped by exact Hk0.
  reflexivity.
Qed.

Lemma formatViews_K n :
  1000 ≤ n < 1000000 →
  formatViews (VNum (Int n)) = one_decimal (tenths (div_pos n 1000)) +:+ "K"
  ∧ 0 ≤ tenths (div_pos n 1000)
  ∧ 2 * Z.abs (tenths (div_pos n 1000) * 1000 - 10 * n) ≤ 1000.
Proof.
  intros [Hlo Hhi].
  destruct (formatViews_band n 1000 9 "K") as (Hs & Hk0 & Hk);
    [unfold MAX_SAFE_INTEGER; lia|lia|lia|reflexivity|reflexivity|reflexivity|].
  split; [|split; assumption]. rewrite <- Hs.
  unfold formatViews, js_ge, isNaN. cbn [truthy ToNumber].
  assert (H0 : (n =? 0) = false) by (apply Z.eqb_neq; lia).
  assert (H1 : (1000000 <=? n) = false) by (apply Z.leb_gt; lia).
  assert (H2 : (1000 <=? n) = true) by (apply Z.leb_le; lia).
  rewrite H0, H1, H2. reflexivity.
Qed.

Lemma formatViews_M n :
  1000000 ≤ n ≤ MAX_SAFE_INTEGER →
  formatViews (VNum (Int n)) = one_decimal (tenths (div_pos n 1000000)) +:+ "M"
  ∧ 0 ≤ tenths (div_pos n 1000000)
  ∧ 2 * Z.abs (tenths (div_pos n 1000000) * 1000000 - 10 * n) ≤ 1000000.
Proof.
  intros [Hlo Hhi].
  destruct (formatViews_band n 1000000 19 "M") as (Hs & Hk0 & Hk);
    [lia|lia|lia|reflexivity|reflexivity|reflexivity|].
  split; [|split; assumption]. rewrite <- Hs.
  unfold formatViews, js_ge, isNaN. cbn [truthy ToNumber].
  assert (H0 : (n =? 0) = false) by (apply Z.eqb_neq; lia).
  assert (H1 : (1000000 <=? n) = true) by (apply Z.leb_le; lia).
  rewrite H0, H1. reflexivity.
Qed.

(** X16. Away from the ties, [formatViews] rounds to the nearest tenth: a
    count in the K band that is not exactly halfway between two tenths of a
    thousand prints the numeral of [(n + 50) / 100] tenths, and a count in
    the M band (up to the largest safe integer) that is not halfway between
    two tenths of a million the numeral of [(n + 50000) / 100000] tenths.
    The band is chosen before the rounding, so that the counts from 999,950
    to 999,999 print as [1000K], not as [1M]. *)
Theorem formatViews_rounds_to_nearest :
  (∀ n, 1000 ≤ n < 1000000 → n mod 100 ≠ 50 →
     formatViews (VNum (Int n)) = one_decimal ((n + 50) / 100) +:+ "K")
  ∧ (∀ n, 1000000 ≤ n ≤ MAX_SAFE_INTEGER → n mod 100000 ≠ 50000 →
       formatViews (VNum (Int n)) = one_decimal ((n + 50000) / 100000) +:+ "M")
  ∧ (∀ n, 999950 ≤ n < 1000000 → formatViews (VNum (Int n)) = "1000K").
Proof.
  assert (HK : ∀ n, 1000 ≤ n < 1000000 → n mod 100 ≠ 50 →
     formatViews (VNum (Int n)) = one_decimal ((n + 50) / 100) +:+ "K").
  { intros n Hn Htie. destruct (formatViews_K n Hn) as (-> & Hk0 & Hk).
    set (k := tenths (div_pos n 1000)) in *.
    assert (Hq : k = (n + 50) / 100).
    { apply (Z.div_unique _ _ _ (n + 50 - 100 * k)); [|lia].
      assert (100 * k - n ≠ - 50).
      { intros Heq. apply Htie. replace n with (50 + k * 100) by lia.
        rewrite Z.mod_add by lia. reflexivity. }
      lia. }
    rewrite <- Hq. reflexivity. }
  split; [exact HK|]. split.
  - intros n Hn Htie. destruct (formatViews_M n Hn) as (-> & Hk0 & Hk).
    set (k := tenths (div_pos n 1000000)) in *.
    assert (Hq : k = (n + 50000) / 100000).
    { apply (Z.div_unique _ _ _ (n + 50000 - 100000 * k)); [|lia].
      assert (100000 * k - n ≠ - 50000).
      { intros Heq. apply Htie. replace n with (50000 + k * 100000) by lia.
        rewrite Z.mod_add by lia. reflexivity. }
      lia. }
    rewrite <- Hq. reflexivity.
  - intros n Hn. destruct (Z.eq_dec n 999950) as [->|Hne].
    + apply formatViews_999950.
    + rewrite HK.
      * replace ((n + 50) / 100) with 10000; [reflexivity|].
        apply (Z.div_unique _ _ _ (n + 50 - 1000000)); lia.
      * lia.
      * intros Htie. apply Hne.
        pose proof (Z.div_mod n 100 ltac:(lia)) as Hdm. rewrite Htie in Hdm.
        assert (n / 100 = 9999); [|lia].
        symmetry. apply (Z.div_unique _ _ _ (n - 999900)); lia.
Qed.

(** ** The tag filter *)

Lemma includes_chars_spec sub s :
  includes_chars sub s = true ↔ ∃ a b, s = a ++ sub ++ b.
Proof.
  split.
  - induction s as [|c s IH]; cbn [includes_chars].
    + destruct (strip_prefix sub []) as [r|] eqn:Hr; [|discriminate].
      intros _. apply strip_prefix_inv in Hr. exists [], r. exact Hr.
    + destruct (strip_prefix sub (c :: s)) as [r|] eqn:Hr.
      * intros _. apply strip_prefix_inv in Hr. exists [], r. exact Hr.
      * intros H. destruct (IH H) as (a & b & ->). exists (c :: a), b. reflexivity.
  - intros (a & b & ->). induction a as [|c a IH].
    + cbn [app]. destruct (sub ++ b) eqn:Hs; cbn [includes_chars];
        rewrite <- Hs, strip_prefix_app; reflexivity.
    + cbn [app includes_chars]. destruct (strip_prefix sub _); [reflexivity|exact IH].
Qed.

Lemma includes_spec s sub :
  includes s sub = true ↔ ∃ a b, s = a +:+ sub +:+ b.
Proof.
  unfold includes. rewrite includes_chars_spec. split.
  - intros (a & b & H). exists (text a), (text b).
    apply chars_inj. rewrite !chars_app, !chars_text. exact H.
  - intros (a & b & ->). exists (chars a), (chars b). rewrite !chars_app. reflexivity.
Qed.

Lemma filter_card_again tag tag' lc :
  filter_card tag (filter_card tag' lc) = filter_card tag lc.
Proof.
  unfold filter_card.
  destruct (is_all tag').
  - cbn [set_hidden element]. destruct (is_all tag); [reflexivity|].
    destruct (includes _ _); reflexivity.
  - destruct (includes _ (to_string tag')); cbn [set_hidden element];
      (destruct (is_all tag); [reflexivity|]);
      destruct (includes _ _); reflexivity.
Qed.

Lemma filter_card_element tag lc : element (filter_card tag lc) = element lc.
Proof.
  unfold filter_card. destruct (is_all tag); [reflexivity|].
  destruct (includes _ _); reflexivity.
Qed.

Lemma deactivate_activated i (bs : list tag_btn) :
  map (set_active false) (alter (set_active true) i (map (set_active false) bs))
  = map (set_active false) bs.
Proof.
  rewrite (list_fmap_alter (set_active false) (set_active true) id)
    by (apply Forall_forall; intros; reflexivity).
  rewrite list_alter_id by reflexivity.
  rewrite map_map. apply map_ext. intros b. reflexivity.
Qed.

Lemma tags_after_click j (bs : list tag_btn) :
  map btn_tag (alter (set_active true) j (map (set_active false) bs)) = map btn_tag bs.
Proof.
  rewrite (list_fmap_alter btn_tag (set_active true) id)
    by (apply Forall_forall; intros; reflexivity).
  rewrite list_alter_id by reflexivity.
  rewrite map_map. apply map_ext. intros b. reflexivity.
Qed.

(** X17. A click on a filter button decides the state of the filter alone:
    after it, the clicked button is the one button that is active, every
    button has the tag it had, the cards are the same elements in the same
    order, and a second click leaves what it would have left without the
    first: which cards are shown depends on the last button clicked only,
    not on which cards were hidden before. *)
Theorem tag_filter_last_click_wins :
  ∀ g i j,
    (j < length (buttons g))%nat →
    click_tag j (click_tag i g) = click_tag j g
    ∧ map btn_tag (buttons (click_tag j g)) = map btn_tag (buttons g)
    ∧ map element (listing (click_tag j g)) = map element (listing g)
    ∧ ∀ k b, buttons (click_tag j g) !! k = Some b → btn_active b = bool_decide (k = j).
Proof.
  intros g i j Hj.
  destruct (lookup_lt_is_Some_2 (buttons g) j Hj) as [bj Hbj].
  assert (Hclick : click_tag j g
            = {| buttons := alter (set_active true) j (map (set_active false) (buttons g));
                 listing := map (filter_card (dataset_tag bj)) (listing g) |}).
  { unfold click_tag. rewrite Hbj. reflexivity. }
  split; [|rewrite Hclick; cbn [buttons listing]; split; [|split]].
  - rewrite Hclick. unfold click_tag at 2.
    destruct (buttons g !! i) as [bi|] eqn:Hbi; [|exact Hclick].
    assert (Hj' : ∃ b, alter (set_active true) i (map (set_active false) (buttons g)) !! j
                       = Some b ∧ btn_tag b = btn_tag bj).
    { destruct (decide (i = j)) as [->|Hne].
      - rewrite list_lookup_alter_eq, list_lookup_fmap, Hbj. cbn. eauto.
      - rewrite list_lookup_alter_ne by exact Hne.
        rewrite list_lookup_fmap, Hbj. cbn. eauto. }
    destruct Hj' as (b & Hb & Htag).
    unfold click_tag. cbn [buttons listing]. rewrite Hb.
    rewrite deactivate_activated. f_equal.
    rewrite map_map. apply map_ext. intros lc.
    unfold dataset_tag. rewrite Htag. apply filter_card_again.
  - apply tags_after_click.
  - rewrite map_map. apply map_ext. intros lc. apply filter_card_element.
  - intros k b Hk. rewrite list_lookup_alter in Hk.
    destruct (decide (j = k)) as [->|Hne].
    + rewrite list_lookup_fmap in Hk.
      destruct (buttons g !! k); [|discriminate]. cbn in Hk. injection Hk as <-.
      cbn. rewrite bool_decide_eq_true_2; reflexivity.
    + rewrite list_lookup_fmap in Hk.
      destruct (buttons g !! k); [|discriminate]. cbn in Hk. injection Hk as <-.
      cbn. rewrite bool_decide_eq_false_2; [reflexivity|congruence].
Qed.

(** X18. Which cards a filter button shows. The button [all] shows every
    card. Any other button shows a card exactly when the text of its tag
    occurs somewhere in the card's tags, also inside a longer word, and
    hides it otherwise; so a button with an empty tag shows every card, and
    a card without tags is shown by such a button and by [all] only. *)
Theorem tag_filter_shows_matching_cards :
  ∀ g j btn,
    buttons g !! j = Some btn →
    Forall2 (fun lc lc' =>
       element lc' = element lc
       ∧ (hidden lc' = false
          ↔ btn_tag btn = Some "all"
            ∨ ∃ a b, data_tags (element lc)
                     = a +:+ to_string (dataset_tag btn) +:+ b))
      (listing g) (listing (click_tag j g))
    ∧ (btn_tag btn = Some "" →
       Forall (fun lc => hidden lc = false) (listing (click_tag j g)))
    ∧ (∀ t, btn_tag btn = Some t → t ≠ "all" → t ≠ "" →
       Forall (fun lc => data_tags (element lc) = "" → hidden lc = true)
         (listing (click_tag j g))).
Proof.
  intros g j btn Hbtn. unfold click_tag. rewrite Hbtn. cbn [listing].
  assert (Hall : is_all (dataset_tag btn) = true ↔ btn_tag btn = Some "all").
  { unfold is_all, dataset_tag. destruct (btn_tag btn) as [t|].
    - rewrite String.eqb_eq. split; congruence.
    - split; discriminate. }
  assert (Hone : ∀ lc,
            hidden (filter_card (dataset_tag btn) lc) = false
            ↔ btn_tag btn = Some "all"
              ∨ ∃ a b, data_tags (element lc) = a +:+ to_string (dataset_tag btn) +:+ b).
  { intros lc. unfold filter_card.
    assert (Htags : to_string (js_or (VStr (data_tags (element lc))) (VStr ""))
                    = data_tags (element lc)).
    { unfold js_or. cbn [truthy].
      destruct (String.eqb_spec (data_tags (element lc)) "") as [Heq|_];
        [rewrite Heq|]; reflexivity. }
    rewrite Htags. rewrite <- includes_spec.
    destruct (is_all (dataset_tag btn)) eqn:His.
    - cbn. split; [intros _; left; apply Hall; reflexivity|reflexivity].
    - destruct (includes _ _); cbn; split; try reflexivity; try discriminate; auto.
      intros [Hyes|Hno]; [|discriminate].
      apply Hall in Hyes. discriminate. }
  split; [|split].
  - apply Forall2_fmap_r, Forall_Forall2_diag, Forall_forall. intros lc _.
    split; [apply filter_card_element|apply Hone].
  - intros Hempty. apply Forall_forall. intros lc' Hin.
    apply list_elem_of_fmap in Hin as (lc & -> & _). apply Hone. right.
    unfold dataset_tag. rewrite Hempty. exists "", (data_tags (element lc)). reflexivity.
  - intros t Ht Hnall Hne. apply Forall_forall. intros lc' Hin.
    apply list_elem_of_fmap in Hin as (lc & -> & _).
    rewrite filter_card_element. intros Hnone.
    destruct (hidden (filter_card (dataset_tag btn) lc)) eqn:Hh; [reflexivity|].
    apply Hone in Hh as [Hyes|(a & b & Hsub)]; [congruence|].
    exfalso. rewrite Hnone in Hsub. unfold dataset_tag in Hsub. rewrite Ht in Hsub.
    cbn [to_string] in Hsub. destruct a; [|discriminate].
    destruct t; [congruence|discriminate].
Qed.

(** ** The alert box *)

Lemma showY2KAlert_single message o :
  (length (alerts o) ≤ 1)%nat →
  map alert_message (alerts (showY2KAlert message o)) = [message].
Proof.
  intros Hlen. unfold showY2KAlert.
  destruct (alerts o) as [|a [|a' l]] eqn:Ha.
  - rewrite Ha. reflexivity.
  - cbn [remove_alert alerts next_alert]. rewrite Ha, filter_cons.
    destruct (decide (alert_id a ≠ alert_id a)); [congruence|]. reflexivity.
  - cbn in Hlen. lia.
Qed.

Lemma run_alerts_snoc es e : run_alerts (es ++ [e]) = alert_step (run_alerts es) e.
Proof. unfold run_alerts. rewrite foldl_app. reflexivity. Qed.

Lemma run_alerts_single es : (length (alerts (run_alerts es)) ≤ 1)%nat.
Proof.
  induction es as [|e es IH] using rev_ind; [cbn; lia|].
  rewrite run_alerts_snoc. destruct e as [message|id]; cbn [alert_step].
  - pose proof (showY2KAlert_single message _ IH) as H.
    apply (f_equal length) in H. rewrite length_map in H. cbn [length] in H. lia.
  - cbn [remove_alert alerts].
    pose proof (length_filter (fun a => alert_id a ≠ id) (alerts (run_alerts es))). lia.
Qed.

(** X19. The document never holds more than one alert box, whatever
    sequence of alerts the script shows and of OK buttons the user clicks:
    [showY2KAlert] removes the alert that is there and appends the new one
    in the same turn, so that after each call the one alert of the document
    is the one with the message of that call. *)
Theorem at_most_one_alert :
  ∀ es,
    (length (alerts (run_alerts es)) ≤ 1)%nat
    ∧ ∀ message,
        map alert_message (alerts (run_alerts (es ++ [ShowAlert message]))) = [message].
Proof.
  intros es. split; [apply run_alerts_single|].
  intros message. rewrite run_alerts_snoc. apply showY2KAlert_single, run_alerts_single.
Qed.

(** ** Requests of the enrichment *)

Lemma filter_fmap_requests (api : card → string) (P : card → bool) (f : card → card)
    (l : list card) :
  (∀ c, P (f c) = P c) → (∀ c, api (f c) = api c) →
  map api (filter (fun c => P c = true) (map f l))
  = map api (filter (fun c => P c = true) l).
Proof.
  intros HP Hapi. induction l as [|c l IH]; [reflexivity|].
  cbn [map]. rewrite !filter_cons.
  destruct (decide (P (f c) = true)) as [H|H], (decide (P c = true)) as [H'|H'];
    try (rewrite HP in H; contradiction).
  - cbn [map]. rewrite IH, Hapi. reflexivity.
  - exact IH.
Qed.

Lemma disjoint_filters_length (P Q : card → bool) (l : list card) :
  (∀ c, P c = true → Q c = true → False) →
  (length (filter (fun c => P c = true) l) + length (filter (fun c => Q c = true) l)
   ≤ length l)%nat.
Proof.
  intros Hdis. induction l as [|c l IH]; [cbn; lia|].
  rewrite !filter_cons.
  destruct (decide (P c = true)) as [HP|HP], (decide (Q c = true)) as [HQ|HQ];
    cbn [length]; try lia.
  destruct (Hdis c HP HQ).
Qed.

(** X20. The requests of the steps that follow the rebuilding: one request
    to the view-count worker for each card with [data-platform] youtube, in
    document order, then one request to Vimeo for each card with
    [data-platform] vimeo whose thumbnail background contains
    [linear-gradient]; nothing is requested for any other card, and never
    more than one request for a card. *)
Theorem enrichment_requests :
  ∀ st,
    ∃ st',
      post_render st = (Ok tt, st')
      ∧ requests st'
        = requests st
          ++ map (fun c => views_api (dataset_videoId c))
                 (filter (fun c => has_platform "youtube" c = true) (grid st))
          ++ map (fun c => vimeo_api (dataset_videoId c))
                 (filter (fun c => wants_thumbnail c = true) (grid st))
      ∧ (length (requests st') ≤ length (requests st) + length (grid st))%nat.
Proof.
  intros st. unfold post_render, eff_bind at 1. rewrite animateCardsIn_run.
  set (st1 := {| grid := map hide_card (grid st) |}).
  destruct (updateAllViewCounts_run st1) as (st2 & Hrun2 & Hg2 & _ & _ & Hr2).
  unfold eff_bind. rewrite Hrun2.
  destruct (updateVimeoThumbnails_run st2) as (st3 & Hrun3 & _ & _ & _ & Hr3).
  exists st3. split; [exact Hrun3|].
  assert (Hreq : requests st3
        = requests st
          ++ map (fun c => views_api (dataset_videoId c))
                 (filter (fun c => has_platform "youtube" c = true) (grid st))
          ++ map (fun c => vimeo_api (dataset_videoId c))
                 (filter (fun c => wants_thumbnail c = true) (grid st))).
  { rewrite Hr3, Hr2, Hg2. subst st1. cbn [grid requests]. rewrite <- app_assoc.
    f_equal. f_equal.
    - apply (filter_fmap_requests (fun c => views_api (dataset_videoId c))
               (has_platform "youtube") hide_card); reflexivity.
    - rewrite map_map.
      apply (filter_fmap_requests (fun c => vimeo_api (dataset_videoId c))
               wants_thumbnail (fun c => views_pass (hide_card c))).
      + intros c. destruct (views_pass_frame (hide_card c)) as (Hv & Hb & _).
        unfold wants_thumbnail, has_platform. rewrite Hb.
        destruct Hv as (_ & _ & -> & _). reflexivity.
      + intros c. destruct (views_pass_frame (hide_card c)) as (Hv & _).
        unfold dataset_videoId. destruct Hv as (_ & _ & _ & -> & _). reflexivity. }
  split; [exact Hreq|].
  rewrite Hreq, !length_app, !length_map.
  pose proof (disjoint_filters_length (has_platform "youtube") wants_thumbnail (grid st)) as Hd.
  enough ((∀ c, has_platform "youtube" c = true → wants_thumbnail c = true → False)) by
    (specialize (Hd H); lia).
  intros c Hy Hw. unfold wants_thumbnail, has_platform in *.
  destruct (data_platform c) as [p|]; [|discriminate].
  apply String.eqb_eq in Hy. subst p. discriminate.
Qed.

(** ** The Vimeo thumbnail fetch *)

(** X21. [fetchVimeoThumbnail] never throws, sends its one request and
    touches neither the cards nor the player. What it returns is null or a
    truthy value, never an empty string or undefined: the large thumbnail
    of the first entry of the answer when it has one, else the medium one,
    else null; and null, with one line logged, when the request or the
    parse fails or the answer is null. *)
Theorem fetchVimeoThumbnail_result :
  ∀ vimeoId st,
    ∃ v st',
      fetchVimeoThumbnail vimeoId st = (Ok v, st')
      ∧ (v = VNull ∨ truthy v = true)
      ∧ grid st' = grid st ∧ player_of st' = player_of st
      ∧ requests st' = requests st ++ [vimeo_api vimeoId]
      ∧ (∀ body data first,
           fetch_text (vimeo_api vimeoId) = Ok body →
           JSON_parse body = Ok data →
           index data 0 = Ok first →
           console st' = console st
           ∧ v = if truthy (opt_prop first "thumbnail_large")
                 then opt_prop first "thumbnail_large"
                 else if truthy (opt_prop first "thumbnail_medium")
                      then opt_prop first "thumbnail_medium"
                      else VNull)
      ∧ (∀ e, thumbnail_of_response vimeoId = Throw e →
           v = VNull
           ∧ console st'
             = console st ++ ["Could not fetch Vimeo thumbnail for " +:+ to_string vimeoId]).
Proof.
  intros vimeoId st. unfold fetchVimeoThumbnail, try_eff.
  unfold eff_bind at 1. unfold send_request at 1. unfold lift at 1.
  destruct (thumbnail_of_response vimeoId) as [v|e] eqn:Hv.
  - eexists v, _. split; [reflexivity|]. cbn [grid player_of requests console].
    unfold thumbnail_of_response in Hv.
    destruct (fetch_text (vimeo_api vimeoId)) as [body|]; [|discriminate].
    cbn [mbind result_bind] in Hv.
    destruct (JSON_parse body) as [data|] eqn:Hp; [|discriminate].
    cbn [mbind result_bind] in Hv.
    destruct (index data 0) as [first|] eqn:Hi; [|discriminate].
    cbn [mbind result_bind] in Hv. injection Hv as <-.
    split.
    { generalize (js_or (opt_prop first "thumbnail_large")
                        (opt_prop first "thumbnail_medium")).
      intros x. unfold js_or. destruct (truthy x) eqn:Hx; auto. }
    do 3 (split; [reflexivity|]). split; [|discriminate].
    intros body' data' first' [= <-] Hp' Hi'.
    rewrite Hp in Hp'. injection Hp' as <-. rewrite Hi in Hi'. injection Hi' as <-.
    split; [reflexivity|].
    unfold js_or.
    destruct (truthy (opt_prop first "thumbnail_large")) eqn:Hl; cbv beta iota;
      [rewrite Hl; reflexivity|].
    destruct (truthy (opt_prop first "thumbnail_medium")); reflexivity.
  - eexists VNull, _. split; [reflexivity|]. cbn [grid player_of requests console].
    split; [left; reflexivity|]. do 3 (split; [reflexivity|]). split.
    + intros body data first Hf Hp Hi. unfold thumbnail_of_response in Hv.
      rewrite Hf in Hv. cbn [mbind result_bind] in Hv. rewrite Hp in Hv.
      cbn [mbind result_bind] in Hv. rewrite Hi in Hv. discriminate.
    + intros e' _. split; reflexivity.
Qed.


(** ** From a card to the player *)

Lemma remove_existing_awaiting p : awaiting (remove_existing p) = awaiting p.
Proof. unfold remove_existing. destruct (modals p); reflexivity. Qed.

(** The id and the title that the click handler of a card passes to the
    player. *)
Lemma created_card_opens video index c pf id title :
  createVideoCard video index = Ok c →
  card_click c = Ok (OpensPlayer pf id title) →
  data_videoId c = Some (to_string id) ∧ title = field video "title".
Proof.
  intros H Hclick. unfold createVideoCard in H.
  destruct (getVideoPlatform (video_url video)) as [platform|] eqn:Hp; [|discriminate].
  cbn [mbind result_bind] in H.
  destruct (getThumbnail (video_url video) (field video "thumbnail")); [|discriminate].
  cbn [mbind result_bind] in H. injection H as <-.
  unfold card_click in Hclick. cbn [click_url click_title] in Hclick.
  rewrite Hp in Hclick. cbn [mbind result_bind] in Hclick.
  destruct platform as [[pf' id']|].
  - injection Hclick as <- <- <-. auto.
  - destruct (truthy (video_url video)); discriminate.
Qed.

(** X22. A click on a card plays the card's own video. When the click
    handler of a card built by [createVideoCard] opens the player, the
    modal that comes up (at once for YouTube, for Vimeo when the dimensions
    arrive) embeds the address of the platform's player for the id in the
    card's [data-video-id]; when the record has a title, the modal is
    titled as the card is; and for Vimeo the request sent is the one for
    that id. *)
Theorem clicked_card_plays_its_video :
  ∀ video index c pf id title st,
    createVideoCard video index = Ok c →
    card_click c = Ok (OpensPlayer pf id title) →
    let opened := step st (Open pf id title) in
    let shown :=
      match pf with
      | youtube => opened
      | vimeo => step opened (InfoArrives (length (awaiting (player_of st))))
      end in
    ∃ videoId m,
      data_videoId c = Some videoId
      ∧ last (modals (player_of shown)) = Some m
      ∧ iframe_src m
        = match pf with
          | youtube => "https://www.youtube.com/embed/" +:+ videoId +:+ "?autoplay=1&rel=0"
          | vimeo => "https://player.vimeo.com/video/" +:+ videoId +:+ "?autoplay=1"
          end
      ∧ (truthy (field video "title") = true → modal_title m = title_text c)
      ∧ (pf = vimeo →
         requests opened
         = requests st ++ ["https://vimeo.com/api/v2/video/" +:+ videoId +:+ ".json"]).
Proof.
  intros video index c pf id title st Hc Hclick opened shown.
  destruct (created_card_opens video index c pf id title Hc Hclick) as [Hid ->].
  assert (Htitle : truthy (field video "title") = true →
            to_string (js_or (field video "title") (VStr "Now Playing")) = title_text c).
  { intros Ht. unfold createVideoCard in Hc.
    destruct (getVideoPlatform (video_url video)); [|discriminate].
    cbn [mbind result_bind] in Hc.
    destruct (getThumbnail _ _); [|discriminate].
    cbn [mbind result_bind] in Hc. injection Hc as <-. cbn [title_text].
    unfold js_or. rewrite Ht. reflexivity. }
  exists (to_string id). destruct pf; subst shown opened.
  - rewrite step_open_youtube. eexists. split; [exact Hid|].
    split; [apply last_snoc|]. split; [reflexivity|]. split; [exact Htitle|discriminate].
  - set (st1 := step st (Open vimeo id (field video "title"))).
    assert (H1 : player_of st1
                 = suspend {| call_videoId := id; call_title := field video "title" |}
                     (remove_existing (player_of st))) by apply step_open_vimeo.
    assert (Hk : awaiting (player_of st1) !! length (awaiting (player_of st))
                 = Some {| call_videoId := id; call_title := field video "title" |}).
    { rewrite H1. cbn [suspend awaiting]. rewrite remove_existing_awaiting.
      apply list_lookup_middle. reflexivity. }
    destruct (step_info_arrives st1 _ _ Hk) as (aspect & ->).
    eexists. split; [exact Hid|]. split; [apply last_snoc|].
    split; [reflexivity|]. split; [exact Htitle|]. intros _. reflexivity.
Qed.

(** ** The resolver on values that are not addresses *)

(** X23. On a string the resolver never throws; on every falsy value (null,
    undefined, the empty string, 0, NaN, false) it returns null; and on a
    truthy value that is not a string (a number from a sheet cell, true, an
    array, an object) it throws a TypeError, since such a value has no
    [match] method. *)
Theorem resolver_on_other_values :
  (∀ s, ∃ r, getVideoPlatform (VStr s) = Ok r)
  ∧ (∀ v, truthy v = false → getVideoPlatform v = Ok None)
  ∧ (∀ v, truthy v = true → (∀ s, v ≠ VStr s) →
       getVideoPlatform v = Throw (TypeError "match is not a function")).
Proof.
  split; [exact getVideoPlatform_text|]. split.
  - intros v Hv. unfold getVideoPlatform, getYouTubeId, getVimeoId. rewrite Hv. reflexivity.
  - intros v Hv Hs. unfold getVideoPlatform, getYouTubeId. rewrite Hv.
    destruct v as [| |b|x|s|l|kvs]; try discriminate; try reflexivity.
    destruct (Hs s eq_refl).
Qed.


End Script.

(** * The script on the reference runtime *)

(** C2, the defect. The worker answers [{views: 0}] for the video of a
    YouTube card that [createVideoCard] has built with its [Loading...]
    placeholder. The request and the parse succeed and the body reports the
    integer 0, yet the fetch returns null, not 0: [data.views || null] takes
    the count 0 for a missing one. The caller, which tests [views !== null],
    therefore leaves the placeholder, and the card shows [Loading...] for
    good, although [formatViews(0)] is ["0"] and a card without a platform
    shows [0 views] for a missing count. With any other count the text is
    replaced, as for 1500. *)
Theorem zero_views_card_keeps_loading :
  ∃ c,
    createVideoCard youtube_video 0 = Ok c
    ∧ data_platform c = Some "youtube"
    ∧ dataset_videoId c = VStr "abc"
    ∧ view_count c = "⭐ Loading... views"
    ∧ views_network 0 (views_api (VStr "abc")) = Ok (stringify (views_doc 0))
    ∧ parse_among [views_doc 0] (stringify (views_doc 0)) = Ok (views_doc 0)
    ∧ prop (views_doc 0) "views" = Ok (VNum (Int 0))
    ∧ (fetchYouTubeViews (parse_among [views_doc 0]) (views_network 0) (VStr "abc")
         (initial_page [c] 1280 720)).1 = Ok VNull
    ∧ VNull ≠ VNum (Int 0)
    ∧ map view_count
        (grid (updateAllViewCounts decimal_to_number (parse_among [views_doc 0])
                 (views_network 0) (initial_page [c] 1280 720)).2)
      = ["⭐ Loading... views"]
    ∧ "⭐ " +:+ formatViews decimal_to_number (VNum (Int 0)) +:+ " views" = "⭐ 0 views"
    ∧ (c0 ← createVideoCard plain_video 0; Ok (view_count c0)) = Ok "⭐ 0 views"
    ∧ map view_count
        (grid (updateAllViewCounts decimal_to_number (parse_among [views_doc 1500])
                 (views_network 1500) (initial_page [c] 1280 720)).2)
      = ["⭐ 1.5K views"].
Proof.
  eexists. split; [vm_compute; reflexivity|].
  repeat split; try (vm_compute; reflexivity). discriminate.
Qed.

(** The fetch on an endpoint that answers [{views: 1500}]. *)
Lemma fetchYouTubeViews_result_witness :
  (fetchYouTubeViews (parse_among [views_doc 1500]) (views_network 1500) (VStr "abc")
     (initial_page [youtube_card] 1280 720)).1 = Ok (VNum (Int 1500)).
Proof.
  apply (proj1 (proj2 (fetchYouTubeViews_result decimal_to_number
                         (parse_among [views_doc 1500]) (views_network 1500)
                         (VStr "abc") (initial_page [youtube_card] 1280 720)))
           (stringify (views_doc 1500)) [("views", VNum (Int 1500))] 1500);
    reflexivity.
Defined.

(** C6, counterexample. The sheet request is answered with text that has no
    envelope, on a page whose markup holds one card. The load fails and the
    card does not stay as it was: it is hidden for a new entrance animation,
    and once the timers have fired it carries a transition it did not have. *)
Lemma failed_load_restyles_cards :
  let st := initial_page [youtube_card] 1280 720 in
  let st' := (loadVideosFromSheet decimal_to_number (parse_among [])
                no_envelope_network st).2 in
  no_envelope_network SHEET_URL = Ok "<html>Service unavailable</html>"
  ∧ js_match (VStr "<html>Service unavailable</html>") envelope_re = Ok None
  ∧ map style_opacity (grid st) = [""]
  ∧ map style_opacity (grid st') = ["0"]
  ∧ map style_transition (grid st) = [""]
  ∧ map style_transition (grid (run_timers st')) = ["all 0.5s ease"]
  ∧ grid st' ≠ grid st
  ∧ grid (run_timers st') ≠ grid st.
Proof.
  cbv zeta. repeat split; try (vm_compute; reflexivity); vm_compute; discriminate.
Qed.

(** C6, witnesses: the same page, and a page whose envelope holds text that
    is not JSON. *)
Lemma load_failure_keeps_cards_witness :
  (∃ st', loadVideosFromSheet decimal_to_number (parse_among []) no_envelope_network
            (initial_page [youtube_card] 1280 720) = (Ok tt, st')
          ∧ grid st' = [hide_card youtube_card])
  ∧ (∃ st', loadVideosFromSheet decimal_to_number (parse_among []) bad_payload_network
              (initial_page [youtube_card] 1280 720) = (Ok tt, st')
            ∧ grid st' = [hide_card youtube_card]).
Proof.
  split.
  - destruct (load_failure_keeps_cards decimal_to_number (parse_among [])
                no_envelope_network (initial_page [youtube_card] 1280 720)
                "<html>Service unavailable</html>")
      as (st' & Hrun & Hgrid & _).
    + reflexivity.
    + left. vm_compute. reflexivity.
    + exists st'. split; assumption.
  - destruct (load_failure_keeps_cards decimal_to_number (parse_among [])
                bad_payload_network (initial_page [youtube_card] 1280 720)
                "google.visualization.Query.setResponse({table:);")
      as (st' & Hrun & Hgrid & _).
    + reflexivity.
    + right. exists (VStr "{table:"), SyntaxError. split; vm_compute; reflexivity.
    + exists st'. split; assumption.
Defined.

(** C9, witness: the sheet has only its header row, and the page's markup
    holds one card. *)
Lemma short_table_keeps_cards_witness :
  ∃ st', loadVideosFromSheet decimal_to_number (parse_among [header_only_sheet])
           (sheet_network header_only_sheet) (initial_page [youtube_card] 1280 720)
         = (Ok tt, st')
    ∧ length (grid st') = 1%nat.
Proof.
  destruct (short_table_keeps_cards decimal_to_number (parse_among [header_only_sheet])
              (sheet_network header_only_sheet) (initial_page [youtube_card] 1280 720)
              (envelope header_only_sheet)
              (VStr (stringify header_only_sheet))
              header_only_sheet
              (VObj [("cols", VArr [labelled "Title"; labelled "Tags"; labelled "";
                                    labelled ""; labelled "VideoURL"; labelled ""]);
                     ("rows", VArr [header_row])])
              (VArr [labelled "Title"; labelled "Tags"; labelled "";
                     labelled ""; labelled "VideoURL"; labelled ""])
              ["title"; "tags"; "icon"; "views"; "videourl"; "thumbnail"]
              [header_row])
    as (st' & Hrun & _ & Hlen & _); try (vm_compute; reflexivity).
  exists st'. split; assumption.
Defined.

(** C7, counterexample. The table has the header row (row 0) and one data
    row (row 1), with a title and no thumbnail. Its card takes the palette
    entry at position 0, not the one at position 1 = 1 mod 6. *)
Lemma first_data_row_takes_first_gradient :
  let st' := (loadVideosFromSheet decimal_to_number (parse_among [one_row_sheet])
                (sheet_network one_row_sheet) (initial_page [] 1280 720)).2 in
  map title_text (grid st') = ["Only"]
  ∧ map thumb_background (grid st') = ["linear-gradient(135deg, #ff6b9d, #c44dff)"]
  ∧ FALLBACK_GRADIENTS !! (0 mod 6)%nat = Some ("#ff6b9d", "#c44dff")
  ∧ FALLBACK_GRADIENTS !! (1 mod 6)%nat = Some ("#4de1ff", "#4d7cff")
  ∧ map thumb_background (grid st') ≠ ["linear-gradient(135deg, #4de1ff, #4d7cff)"].
Proof.
  cbv zeta. repeat split; try (vm_compute; reflexivity). vm_compute. discriminate.
Qed.

(** C7, witness: a header row and three data rows, the second without a
    title; two cards are rendered. *)
Lemma rows_render_in_order_witness :
  ∃ (cards : list card) st',
    loadVideosFromSheet decimal_to_number (parse_among [three_row_sheet])
      (sheet_network three_row_sheet) (initial_page [youtube_card] 1280 720)
    = (Ok tt, st')
    ∧ length cards = 2%nat
    ∧ length (grid st') = 2%nat.
Proof.
  destruct (rows_render_in_order decimal_to_number (parse_among [three_row_sheet])
              (sheet_network three_row_sheet) (initial_page [youtube_card] 1280 720)
              (envelope three_row_sheet)
              (VStr (stringify three_row_sheet))
              three_row_sheet
              (VObj [("cols", VArr [labelled "Title"; labelled "Tags"; labelled "";
                                    labelled ""; labelled "VideoURL"; labelled ""]);
                     ("rows", VArr [header_row;
                        row_of [text_cell "First"; text_cell "music"; VNull; VNull;
                                text_cell "https://youtu.be/abc"];
                        row_of [VNull; text_cell "draft"];
                        row_of [text_cell "Third"; text_cell "talk"]])])
              (VArr [labelled "Title"; labelled "Tags"; labelled "";
                     labelled ""; labelled "VideoURL"; labelled ""])
              ["title"; "tags"; "icon"; "views"; "videourl"; "thumbnail"]
              header_row
              [row_of [text_cell "First"; text_cell "music"; VNull; VNull;
                       text_cell "https://youtu.be/abc"];
               row_of [VNull; text_cell "draft"];
               row_of [text_cell "Third"; text_cell "talk"]]
              [ <["videourl" := VStr "https://youtu.be/abc"]>
                  (<["tags" := VStr "music"]> (<["title" := VStr "First"]> ∅));
                <["tags" := VStr "draft"]> ∅;
                <["tags" := VStr "talk"]> (<["title" := VStr "Third"]> ∅) ])
    as (cards & st' & Hrun & Hall & Hgrid); try (vm_compute; reflexivity).
  - repeat match goal with |- Forall2 _ _ _ => constructor end;
      (split; [vm_compute; reflexivity|]);
      repeat split;
      first [ left; vm_compute; reflexivity | right; eexists; vm_compute; reflexivity ].
  - exists cards, st'. split; [exact Hrun|].
    apply Forall2_length in Hall. cbn in Hall.
    split; [symmetry; exact Hall|].
    rewrite Hgrid, length_map. symmetry. exact Hall.
Defined.

(** C10, the defect. A Vimeo card is rendered with an explicit custom
    thumbnail whose address contains the text [linear-gradient]. The
    enrichment tests the thumbnail's background for that text, takes the
    card for one that shows the fallback gradient, sends a request for it
    and overwrites the custom thumbnail with the fetched one. *)
Theorem custom_thumbnail_refetched :
  ∃ c,
    createVideoCard custom_thumbnail_video 0 = Ok c
    ∧ data_platform c = Some "vimeo"
    ∧ thumb_background c
      = "url('https://cdn.example.com/linear-gradient.jpg') center/cover"
    ∧ requests (updateVimeoThumbnails (parse_among [vimeo_doc]) vimeo_network
                  (initial_page [c] 1280 720)).2
      = ["https://vimeo.com/api/v2/video/123.json"]
    ∧ map thumb_background
        (grid (updateVimeoThumbnails (parse_among [vimeo_doc]) vimeo_network
                 (initial_page [c] 1280 720)).2)
      = ["url('https://i.vimeocdn.com/video/123_640.jpg') center/cover"].
Proof.
  eexists. split; [vm_compute; reflexivity|].
  repeat split; vm_compute; reflexivity.
Qed.

(** C4, witness: 1,234,567 views. *)
Lemma formatViews_rendering_witness :
  ∃ k, formatViews decimal_to_number (VNum (Int 1234567)) = one_decimal k +:+ "M"
       ∧ 0 ≤ k ∧ 2 * Z.abs (k * 1000000 - 10 * 1234567) ≤ 1000000.
Proof.
  apply (proj1 (formatViews_rendering decimal_to_number) 1234567).
  unfold MAX_SAFE_INTEGER. lia.
Defined.

(** C5, witness: a short YouTube address with a query. *)
Lemma platform_resolution_witness :
  ∃ id', getVideoPlatform (VStr "https://youtu.be/abc?t=1")
         = Ok (Some {| ref_platform := youtube; ref_id := VStr id' |})
         ∧ youtube_form "https://youtu.be/abc?t=1" id'.
Proof.
  apply (proj1 platform_resolution "https://youtu.be/abc?t=1" "abc").
  exists "https://", "youtu.be/", "?t=1".
  split; [reflexivity|]. split; [left; reflexivity|].
  split; [discriminate|]. split; [repeat constructor|].
  right. exists "?"%char, "t=1". split; reflexivity.
Defined.

(** * Further properties on the reference runtime *)

(** X2, witness: a modal is open and the Enter key is pressed. *)
Lemma escape_closes_every_modal_witness :
  player_of (step decimal_to_number (parse_among []) (serve [])
               (run_events decimal_to_number (parse_among []) (serve [])
                  (initial_page [] 1280 720) [Open youtube (VStr "abc") (VStr "First")])
               (KeyDown "Enter"))
  = player_of (run_events decimal_to_number (parse_among []) (serve [])
                 (initial_page [] 1280 720) [Open youtube (VStr "abc") (VStr "First")]).
Proof.
  exact (proj2 (escape_closes_every_modal decimal_to_number (parse_among []) (serve [])
                  [] 1280 720 [Open youtube (VStr "abc") (VStr "First")])
           "Enter" eq_refl).
Defined.

(** X3, witness: three opens that do not overlap. *)
Lemma opens_apart_one_modal_witness :
  (length (modals (player_of
      (run_events decimal_to_number (parse_among [vimeo_doc]) vimeo_network
         (initial_page [] 1280 720) apart_events))) ≤ 1)%nat.
Proof.
  apply (opens_apart_one_modal decimal_to_number (parse_among [vimeo_doc]) vimeo_network
           [] 1280 720 apart_events).
  reflexivity.
Defined.

(** X5, witness: Vimeo answers with a video of 540 x 960. *)
Lemma fetchVimeoInfo_dimensions_witness :
  ∃ info st',
    fetchVimeoInfo_settle decimal_to_number (parse_among [vimeo_doc]) vimeo_network
      (VStr "123") (initial_page [] 1280 720) = (Ok info, st')
    ∧ ∃ q, info_aspectRatio info = RFin q ∧ (q == inject_Z 540 / inject_Z 960)%Q.
Proof.
  destruct (fetchVimeoInfo_dimensions decimal_to_number (parse_among [vimeo_doc])
              vimeo_network (VStr "123") (initial_page [] 1280 720))
    as (info & st' & Hrun & _ & _ & _ & _ & Hratio & _).
  exists info, st'. split; [exact Hrun|].
  assert (Hdims : info_width info = VNum (Int 540) ∧ info_height info = VNum (Int 960)).
  { vm_compute in Hrun. injection Hrun as <- _. split; reflexivity. }
  destruct (Hratio 540 960 (proj1 Hdims) (proj2 Hdims)) as (_ & _ & Hq). exact Hq.
Defined.

(** X7, witness: the sheet with three data rows, on a page whose markup
    holds one card. *)
Lemma load_shows_every_card_witness :
  Forall (fun c => style_opacity c = "1" ∧ style_transform c = "translateY(0)"
                   ∧ style_transition c = "all 0.5s ease")
    (grid (run_timers
       (loadVideosFromSheet decimal_to_number (parse_among [three_row_sheet])
          (sheet_network three_row_sheet) (initial_page [youtube_card] 1280 720)).2)).
Proof.
  apply (load_shows_every_card decimal_to_number (parse_among [three_row_sheet])
           (sheet_network three_row_sheet) (initial_page [youtube_card] 1280 720)).
  reflexivity.
Defined.

(** X8, witnesses: the network is down; and the payload is an error report
    without a table. *)
Lemma load_failure_before_rebuild_witness :
  (∃ st', loadVideosFromSheet decimal_to_number (parse_among []) (serve [])
            (initial_page [youtube_card] 1280 720) = (Ok tt, st')
          ∧ grid st' = [hide_card youtube_card])
  ∧ (∃ st', loadVideosFromSheet decimal_to_number (parse_among [error_doc])
              (sheet_network error_doc) (initial_page [youtube_card] 1280 720)
            = (Ok tt, st')
            ∧ grid st' = [hide_card youtube_card]).
Proof.
  split.
  - destruct (load_failure_before_rebuild decimal_to_number (parse_among []) (serve [])
                (initial_page [youtube_card] 1280 720) NetworkError)
      as (st' & Hrun & Hgrid & _).
    + left. reflexivity.
    + exists st'. split; assumption.
  - destruct (load_failure_before_rebuild decimal_to_number (parse_among [error_doc])
                (sheet_network error_doc) (initial_page [youtube_card] 1280 720)
                (TypeError "Cannot read properties of undefined"))
      as (st' & Hrun & Hgrid & _).
    + right. exists (envelope error_doc), (VStr (stringify error_doc)), error_doc.
      repeat split; try (vm_compute; reflexivity). left. reflexivity.
    + exists st'. split; assumption.
Defined.

(** X9, witness: the second data row of the sheet has the number 42 as its
    video address; the card of the first data row is what the container
    holds, and only the sheet has been requested. *)
Lemma failing_row_ends_rebuild_witness :
  ∃ (cards : list card) st',
    loadVideosFromSheet decimal_to_number (parse_among [numeric_url_sheet])
      (sheet_network numeric_url_sheet) (initial_page [youtube_card] 1280 720)
    = (Ok tt, st')
    ∧ length (grid st') = 1%nat
    ∧ requests st' = [SHEET_URL].
Proof.
  destruct (failing_row_ends_rebuild decimal_to_number (parse_among [numeric_url_sheet])
              (sheet_network numeric_url_sheet) (initial_page [youtube_card] 1280 720)
              (envelope numeric_url_sheet)
              (VStr (stringify numeric_url_sheet))
              numeric_url_sheet
              (VObj [("cols", VArr sample_cols);
                     ("rows", VArr [header_row; first_row; numeric_url_row; third_row])])
              (VArr sample_cols)
              sample_names
              header_row
              [first_row]
              [ <["tags" := VStr "music"]> (<["title" := VStr "First"]> ∅) ]
              numeric_url_row
              [third_row]
              (TypeError "match is not a function"))
    as (cards & st' & Hrun & Hall & Hgrid & _ & _ & Hreq); try (vm_compute; reflexivity).
  - repeat match goal with |- Forall2 _ _ _ => constructor end;
      (split; [vm_compute; reflexivity|]);
      repeat split;
      first [ left; vm_compute; reflexivity | right; eexists; vm_compute; reflexivity ].
  - right.
    exists (<["videourl" := VNum (Int 42)]>
              (<["tags" := VStr "misc"]> (<["title" := VStr "Second"]> ∅))).
    repeat split; vm_compute; reflexivity.
  - exists cards, st'. split; [exact Hrun|].
    apply Forall2_length in Hall. cbn in Hall.
    split; [rewrite Hgrid, length_map; symmetry; exact Hall|exact Hreq].
Defined.

(** X10, witness: the columns of the sample sheets. *)
Lemma resolved_columns_named_witness :
  length sample_names = length sample_cols
  ∧ Forall (fun n => n ≠ "") sample_names.
Proof.
  destruct (resolved_columns_named sample_cols sample_names) as (Hlen & Hall & _).
  - vm_compute. reflexivity.
  - split; assumption.
Defined.

(** X11, witness: the row with a number in the address column. *)
Lemma record_entries_come_from_cells_witness :
  ∃ cells, prop numeric_url_row "c" = Ok (VArr cells) ∧ length cells = 5%nat.
Proof.
  destruct (record_entries_come_from_cells sample_names numeric_url_row
              (<["videourl" := VNum (Int 42)]>
                 (<["tags" := VStr "misc"]> (<["title" := VStr "Second"]> ∅))))
    as (cells & Hc & _).
  - vm_compute. reflexivity.
  - exists cells. split; [exact Hc|].
    vm_compute in Hc. injection Hc as <-. reflexivity.
Defined.

(** X12, witness: the Vimeo record with a custom thumbnail. *)
Lemma card_click_matches_dataset_witness :
  ∃ c effect,
    createVideoCard custom_thumbnail_video 0 = Ok c ∧ card_click c = Ok effect.
Proof.
  assert (Hc : ∃ c, createVideoCard custom_thumbnail_video 0 = Ok c)
    by (eexists; vm_compute; reflexivity).
  destruct Hc as (c & Hc).
  destruct (card_click_matches_dataset custom_thumbnail_video 0 c Hc) as (effect & Hclick & _).
  exists c, effect. split; assumption.
Defined.

(** X13, witness: the same record; its custom thumbnail is shown. *)
Lemma thumbnail_precedence_witness :
  ∃ c,
    createVideoCard custom_thumbnail_video 0 = Ok c
    ∧ thumb_background c
      = "url('" +:+ to_string (field custom_thumbnail_video "thumbnail") +:+ "') center/cover".
Proof.
  assert (Hc : ∃ c, createVideoCard custom_thumbnail_video 0 = Ok c)
    by (eexists; vm_compute; reflexivity).
  destruct Hc as (c & Hc). exists c. split; [exact Hc|].
  apply (proj1 (thumbnail_precedence custom_thumbnail_video 0 c Hc)).
  vm_compute. reflexivity.
Defined.

(** X14, witness: a page with a YouTube card and a card without platform. *)
Lemma enrichment_passes_commute_witness :
  grid (eff_bind (updateAllViewCounts decimal_to_number (parse_among [views_doc 1500])
                    (views_network 1500))
                 (fun _ => updateVimeoThumbnails (parse_among [views_doc 1500])
                             (views_network 1500))
                 (initial_page [youtube_card; untagged_card] 1280 720)).2
  = grid (eff_bind (updateVimeoThumbnails (parse_among [views_doc 1500])
                      (views_network 1500))
                   (fun _ => updateAllViewCounts decimal_to_number
                               (parse_among [views_doc 1500]) (views_network 1500))
                   (initial_page [youtube_card; untagged_card] 1280 720)).2.
Proof.
  exact (proj1 (proj2 (proj2
           (enrichment_passes_commute decimal_to_number (parse_among [views_doc 1500])
              (views_network 1500)
              (initial_page [youtube_card; untagged_card] 1280 720))))).
Defined.

(** X15, witness: the comment the sheet service sends first, then an
    envelope with an empty object. *)
Lemma envelope_extracts_payload_witness :
  js_match (VStr ("/*O_o*/ " +:+ setResponse_open +:+ "{}" +:+ ");")) envelope_re
  = Ok (Some (VStr "{}")).
Proof.
  apply (proj1 envelope_extracts_payload "/*O_o*/ " "{}" ");").
  - repeat constructor; discriminate.
  - right. reflexivity.
Defined.

(** X16, witness: 1,234 views. *)
Lemma formatViews_rounds_to_nearest_witness :
  formatViews decimal_to_number (VNum (Int 1234)) = one_decimal ((1234 + 50) / 100) +:+ "K".
Proof.
  apply (proj1 (formatViews_rounds_to_nearest decimal_to_number) 1234).
  - lia.
  - vm_compute. discriminate.
Defined.

(** X17, witness: [all] is clicked, then [music]. *)
Lemma tag_filter_last_click_wins_witness :
  click_tag 1 (click_tag 0 sample_gallery) = click_tag 1 sample_gallery.
Proof.
  apply (tag_filter_last_click_wins sample_gallery 0 1). cbn. lia.
Defined.

(** X18, witness: [music] is clicked; the card without tags is hidden. *)
Lemma tag_filter_shows_matching_cards_witness :
  Forall (fun lc => data_tags (element lc) = "" → hidden lc = true)
    (listing (click_tag 1 sample_gallery)).
Proof.
  apply (proj2 (proj2 (tag_filter_shows_matching_cards sample_gallery 1
                         {| btn_tag := Some "music"; btn_active := false |} eq_refl))
           "music" eq_refl); discriminate.
Defined.

(** X21, witness: Vimeo answers with a large thumbnail. *)
Lemma fetchVimeoThumbnail_result_witness :
  ∃ v st',
    fetchVimeoThumbnail (parse_among [vimeo_doc]) vimeo_network (VStr "123")
      (initial_page [] 1280 720) = (Ok v, st')
    ∧ v = VStr "https://i.vimeocdn.com/video/123_640.jpg".
Proof.
  destruct (fetchVimeoThumbnail_result (parse_among [vimeo_doc]) vimeo_network (VStr "123")
              (initial_page [] 1280 720))
    as (v & st' & Hrun & _ & _ & _ & _ & Hbody & _).
  exists v, st'. split; [exact Hrun|].
  destruct (Hbody (stringify vimeo_doc) vimeo_doc
              (VObj [("thumbnail_large", VStr "https://i.vimeocdn.com/video/123_640.jpg");
                     ("width", VNum (Int 540)); ("height", VNum (Int 960))]))
    as [_ Hv]; try (vm_compute; reflexivity).
  exact Hv.
Defined.

(** X22, witness: the card of the Vimeo record is clicked. *)
Lemma clicked_card_plays_its_video_witness :
  ∃ c videoId m,
    createVideoCard custom_thumbnail_video 0 = Ok c
    ∧ data_videoId c = Some videoId
    ∧ last (modals (player_of
         (step decimal_to_number (parse_among [vimeo_doc]) vimeo_network
            (step decimal_to_number (parse_among [vimeo_doc]) vimeo_network
               (initial_page [c] 1280 720) (Open vimeo (VStr "123") (VStr "Clip")))
            (InfoArrives 0)))) = Some m
    ∧ iframe_src m = "https://player.vimeo.com/video/" +:+ videoId +:+ "?autoplay=1".
Proof.
  assert (Hc : ∃ c, createVideoCard custom_thumbnail_video 0 = Ok c)
    by (eexists; vm_compute; reflexivity).
  destruct Hc as (c & Hc).
  assert (Hclick : card_click c = Ok (OpensPlayer vimeo (VStr "123") (VStr "Clip"))).
  { vm_compute in Hc. injection Hc as <-. vm_compute. reflexivity. }
  destruct (clicked_card_plays_its_video decimal_to_number (parse_among [vimeo_doc])
              vimeo_network custom_thumbnail_video 0 c vimeo (VStr "123") (VStr "Clip")
              (initial_page [c] 1280 720) Hc Hclick)
    as (videoId & m & Hid & Hlast & Hsrc & _).
  exists c, videoId, m. repeat split; assumption.
Defined.

(** X23, witness: the number 42 where an address is expected. *)
Lemma resolver_on_other_values_witness :
  getVideoPlatform (VNum (Int 42)) = Throw (TypeError "match is not a function").
Proof.
  apply (proj2 (proj2 resolver_on_other_values) (VNum (Int 42))).
  - reflexivity.
  - discriminate.
Defined.
